(** * Codebase census: symbol classification and hotspot aggregation

    A shallow embedding of [src/census.ts] (repo-feature-check) and the
    properties its specification states about it.

    Modelling conventions.
    - JavaScript strings are Standard Library strings (sequences of 8-bit
      characters, the Latin-1 range of UTF-16 code units).
    - JavaScript numbers that hold counts (symbol counters, commit counts,
      churn, line numbers) are binary naturals [N]; differences computed by
      sort comparators are integers [Z].  Both are exact as long as the
      values stay in the safe-integer range of a double (below 2^53).
    - The two genuinely floating-point computations of the program, the
      hotspot score and the coverage rate, are run on the kernel's binary64
      floats ([PrimFloat]).
    - A [Map] is an insertion-ordered association list with unique keys.
    - Node's [path.relative], [path.join] and [fs.readFileSync] are
      parameters of the sections that use them. *)

From Stdlib Require Import List String Ascii Bool Arith NArith ZArith Lia.
From Stdlib Require Import Permutation Sorted Floats DecimalString.
From Equations Require Import Equations.
Import ListNotations.

Set Implicit Arguments.
Local Open Scope list_scope.
Local Open Scope string_scope.

(** ** JavaScript string primitives *)

Module JS.

(** [s.startsWith(p)] *)
Fixpoint startsWith (s p : string) : bool :=
  match p, s with
  | EmptyString, _ => true
  | String _ _, EmptyString => false
  | String a p', String b s' => Ascii.eqb a b && startsWith s' p'
  end.

(** [s.includes(p)]: [p] occurs at some offset of [s]. *)
Fixpoint includes (s p : string) : bool :=
  startsWith s p ||
  match s with
  | EmptyString => false
  | String _ s' => includes s' p
  end.

(** [s.endsWith(p)] *)
Fixpoint endsWith (s p : string) : bool :=
  String.eqb s p ||
  match s with
  | EmptyString => false
  | String _ s' => endsWith s' p
  end.

(** [s.replace(/\\/g, '/')] *)
Fixpoint replaceBackslashes (s : string) : string :=
  match s with
  | EmptyString => EmptyString
  | String c s' =>
      String (if Ascii.eqb c "092"%char then "/"%char else c)
             (replaceBackslashes s')
  end.

(** [s.substring(0, n)] *)
Fixpoint substring0 (n : nat) (s : string) : string :=
  match n, s with
  | S n', String c s' => String c (substring0 n' s')
  | _, _ => EmptyString
  end.

(** [s.split(sep)] for a one-character separator. *)
Fixpoint split (sep : ascii) (s : string) : list string :=
  match s with
  | EmptyString => [EmptyString]
  | String c s' =>
      if Ascii.eqb c sep then EmptyString :: split sep s'
      else match split sep s' with
           | [] => [String c EmptyString]
           | piece :: pieces => String c piece :: pieces
           end
  end.

(** [s.slice(n)]: the string without its first [n] characters. *)
Fixpoint drop (n : nat) (s : string) : string :=
  match n, s with
  | S n', String _ s' => drop n' s'
  | _, _ => s
  end.

(** Character classes of the regular expressions: [A-Z], [a-z], [0-9]
    and the white space class [\s] (tab, line feed, vertical tab, form
    feed, carriage return, space, no-break space). *)
Definition inRange (lo hi : nat) (c : ascii) : bool :=
  (lo <=? nat_of_ascii c)%nat && (nat_of_ascii c <=? hi)%nat.
Definition isUpper : ascii -> bool := inRange 65 90.
Definition isLower : ascii -> bool := inRange 97 122.
Definition isDigit : ascii -> bool := inRange 48 57.
Definition isAlnum (c : ascii) : bool := isLower c || isUpper c || isDigit c.
Definition isSpace (c : ascii) : bool :=
  inRange 9 13 c || (nat_of_ascii c =? 32)%nat || (nat_of_ascii c =? 160)%nat.

(** [s.trim()] *)
Fixpoint trimStart (s : string) : string :=
  match s with
  | EmptyString => EmptyString
  | String c s' => if isSpace c then trimStart s' else s
  end.

Fixpoint trimEnd (s : string) : string :=
  match s with
  | EmptyString => EmptyString
  | String c s' =>
      match trimEnd s' with
      | EmptyString => if isSpace c then EmptyString else String c EmptyString
      | t => String c t
      end
  end.

Definition trim (s : string) : string := trimEnd (trimStart s).

(** Truthiness of a string that may be [undefined] or [null]. *)
Definition truthy (s : option string) : bool :=
  match s with
  | Some (String _ _) => true
  | _ => false
  end.

(** Propositional containment: [p] occurs inside [s]. *)
Definition contains (s p : string) : Prop :=
  exists a b, s = a ++ p ++ b.

(** Number of occurrences of a character. *)
Fixpoint count (c : ascii) (s : string) : nat :=
  match s with
  | EmptyString => 0
  | String d s' => (if Ascii.eqb d c then 1 else 0) + count c s'
  end.

End JS.


(** ** A backtracking matcher for the regular expressions of the program

    The program tests names and scans component files with JavaScript
    regular expressions.  They are written here as syntax trees and run by
    a backtracking matcher in continuation-passing style: [run r s k]
    matches [r] at the head of [s] and hands the rest of the input to [k];
    when [k] refuses, the matcher backtracks, greedy choices first, as
    ECMAScript prescribes. *)

Module Regex.

Inductive re : Type :=
| Chr (p : ascii -> bool)     (* a character class *)
| Lit (l : string)            (* a literal word *)
| Eos                         (* [$] without the [m] flag *)
| Seq (a b : re)
| Alt (a b : re)              (* [a|b] *)
| Opt (a : re)                (* [a?] *)
| Star (a : re).              (* [a*] *)

(** [a+] *)
Definition Plus (a : re) : re := Seq a (Star a).

(** Greedy iteration: one more round of [step] if it consumes input,
    otherwise (or when the continuation refuses) stop here. *)
Fixpoint starLoop (A : Type)
         (step : string -> (string -> option A) -> option A)
         (n : nat) (s : string) (k : string -> option A) : option A :=
  match n with
  | O => k s
  | S n' =>
      match step s (fun s' =>
                      if (String.length s' <? String.length s)%nat
                      then starLoop step n' s' k else None) with
      | Some x => Some x
      | None => k s
      end
  end.

Fixpoint run (A : Type) (r : re) (s : string) (k : string -> option A)
         {struct r} : option A :=
  match r with
  | Chr p =>
      match s with
      | String c s' => if p c then k s' else None
      | EmptyString => None
      end
  | Lit l =>
      if JS.startsWith s l then k (JS.drop (String.length l) s) else None
  | Eos =>
      match s with
      | EmptyString => k s
      | String _ _ => None
      end
  | Seq a b => run a s (fun s' => run b s' k)
  | Alt a b =>
      match run a s k with
      | Some x => Some x
      | None => run b s k
      end
  | Opt a =>
      match run a s k with
      | Some x => Some x
      | None => k s
      end
  | Star a => starLoop (run (A:=A) a) (String.length s) s k
  end.

(** [re.test(s)] for an expression that starts with [^]. *)
Definition testAtStart (r : re) (s : string) : bool :=
  match run r s (fun _ => Some tt) with
  | Some _ => true
  | None => false
  end.

End Regex.

Import Regex.

(** [/^[A-Z][a-zA-Z0-9]+$/] *)
Definition rePascalCase : re :=
  Seq (Chr JS.isUpper) (Seq (Plus (Chr JS.isAlnum)) Eos).

(** [/^use[A-Z]/] *)
Definition reHook : re := Seq (Lit "use") (Chr JS.isUpper).

(** [/^[a-z][a-zA-Z0-9]+$/] *)
Definition reCamelCase : re :=
  Seq (Chr JS.isLower) (Seq (Plus (Chr JS.isAlnum)) Eos).

(** The global expression of the orphan scan, split at its capture group:
    the declaration head [export\s+(?:default\s+)?(?:const|function)\s+]
    and the captured name, an upper-case letter followed by any number of
    letters and digits. *)
Definition reExportHead : re :=
  Seq (Lit "export")
      (Seq (Plus (Chr JS.isSpace))
           (Seq (Opt (Seq (Lit "default") (Plus (Chr JS.isSpace))))
                (Seq (Alt (Lit "const") (Lit "function"))
                     (Plus (Chr JS.isSpace))))).

Definition reExportName : re := Seq (Chr JS.isUpper) (Star (Chr JS.isAlnum)).

(** One attempt of the export expression at the head of [s]: the input
    left at the start of the capture group and the input left after the
    match. *)
Definition exportAt (s : string) : option (string * string) :=
  run reExportHead s (fun s1 => run reExportName s1 (fun s2 => Some (s1, s2))).

(** The leftmost match in [s]: its offset and the two remainders. *)
Fixpoint exportSearch (s : string) : option (nat * (string * string)) :=
  match exportAt s with
  | Some m => Some (O, m)
  | None =>
      match s with
      | EmptyString => None
      | String _ s' =>
          match exportSearch s' with
          | Some (i, m) => Some (S i, m)
          | None => None
          end
      end
  end.

(** A match of a regular expression hands its continuation a suffix of
    the input it was given, and the export expression consumes at least
    one character; this is what makes the scanning loop below
    terminate. *)
Lemma string_app_length (a b : string) :
  String.length (a ++ b) = (String.length a + String.length b)%nat.
Proof. induction a as [|c a IH]; simpl; [reflexivity | now rewrite IH]. Qed.

Lemma string_app_assoc (a b c : string) : (a ++ b) ++ c = a ++ b ++ c.
Proof. induction a as [|d a IH]; simpl; [reflexivity | now rewrite IH]. Qed.

Lemma startsWith_app (s p : string) :
  JS.startsWith s p = true <-> exists b, s = p ++ b.
Proof.
  revert s; induction p as [|c p IH]; intros s; simpl.
  - destruct s; (split; [intros _; eexists; reflexivity | reflexivity]).
  - destruct s as [|d s]; simpl.
    + split; [discriminate | intros [b Hb]; discriminate].
    + rewrite andb_true_iff, Ascii.eqb_eq, IH. split.
      * intros [-> [b ->]]. now exists b.
      * intros [b Hb]. inversion Hb. split; [reflexivity | now exists b].
Qed.

Lemma drop_app (a b : string) : JS.drop (String.length a) (a ++ b) = b.
Proof. induction a as [|c a IH]; simpl; [now destruct b | exact IH]. Qed.

Lemma starLoop_suffix (A : Type)
      (step : string -> (string -> option A) -> option A) :
  (forall s k x, step s k = Some x ->
     exists pre s', s = pre ++ s' /\ k s' = Some x) ->
  forall n s k x, starLoop step n s k = Some x ->
     exists pre s', s = pre ++ s' /\ k s' = Some x.
Proof.
  intros Hstep n. induction n as [|n IH]; intros s k x; simpl.
  - intros Hk. now exists "", s.
  - destruct (step s _) as [y|] eqn:Hs.
    + intros [= ->]. apply Hstep in Hs. destruct Hs as [p1 [s1 [-> Hk]]].
      destruct (String.length s1 <? String.length (p1 ++ s1))%nat;
        [|discriminate].
      apply IH in Hk. destruct Hk as [p2 [s2 [-> Hk]]].
      exists (p1 ++ p2), s2. split; [now rewrite string_app_assoc | exact Hk].
    + intros Hk. now exists "", s.
Qed.

Lemma run_suffix (A : Type) (r : re) :
  forall s (k : string -> option A) x, run r s k = Some x ->
    exists pre s', s = pre ++ s' /\ k s' = Some x.
Proof.
  induction r as [p | l | | a IHa b IHb | a IHa b IHb | a IHa | a IHa];
    intros s k x; simpl.
  - destruct s as [|c s]; [discriminate|].
    destruct (p c); [|discriminate].
    intros Hk. now exists (String c ""), s.
  - destruct (JS.startsWith s l) eqn:Hl; [|discriminate].
    apply startsWith_app in Hl. destruct Hl as [b ->].
    rewrite drop_app. intros Hk. now exists l, b.
  - destruct s; [|discriminate]. intros Hk. now exists "", "".
  - intros H. apply IHa in H. destruct H as [p1 [s1 [-> H]]].
    apply IHb in H. destruct H as [p2 [s2 [-> H]]].
    exists (p1 ++ p2), s2. split; [now rewrite string_app_assoc | exact H].
  - destruct (run a s k) as [y|] eqn:Ha.
    + intros [= ->]. now apply IHa in Ha.
    + apply IHb.
  - destruct (run a s k) as [y|] eqn:Ha.
    + intros [= ->]. now apply IHa in Ha.
    + intros Hk. now exists "", s.
  - apply starLoop_suffix. exact IHa.
Qed.

(** A match of the export expression: a head, then a name that starts
    with a capital letter, then the input left over. *)
Lemma exportAt_suffix (s s1 s2 : string) :
  exportAt s = Some (s1, s2) ->
  exists head c name,
    s = head ++ s1 /\ s1 = String c name ++ s2 /\ JS.isUpper c = true.
Proof.
  unfold exportAt. intros H.
  apply run_suffix in H. destruct H as [head [t1 [-> H]]].
  unfold reExportName in H. simpl in H.
  destruct t1 as [|c t1]; [discriminate|].
  destruct (JS.isUpper c) eqn:Hc; [|discriminate].
  apply starLoop_suffix in H.
  - destruct H as [name [t2 [-> [= <- <-]]]]. now exists head, c, name.
  - intros u k x Hu. apply (run_suffix (Chr JS.isAlnum)) in Hu. exact Hu.
Qed.

Lemma exportAt_progress (s s1 s2 : string) :
  exportAt s = Some (s1, s2) ->
  (String.length s2 < String.length s1 <= String.length s)%nat.
Proof.
  intros H. apply exportAt_suffix in H.
  destruct H as [head [c [name [-> [-> _]]]]].
  rewrite !string_app_length. simpl. lia.
Qed.

(** The leftmost match is a match at its offset, and what it leaves over
    is a suffix of the input. *)
Lemma exportSearch_found (s : string) :
  forall i s1 s2, exportSearch s = Some (i, (s1, s2)) ->
    exportAt (JS.drop i s) = Some (s1, s2)
    /\ (exists pre, s = pre ++ s2)
    /\ (String.length s2 < String.length s1)%nat
    /\ (i + String.length s1 <= String.length s)%nat.
Proof.
  induction s as [|c s IH]; intros i s1 s2; simpl.
  - destruct (exportAt "") as [[t1 t2]|] eqn:H; [|discriminate].
    apply exportAt_progress in H. simpl in H. lia.
  - destruct (exportAt (String c s)) as [[t1 t2]|] eqn:H.
    + intros [= <- <- <-]. split; [exact H|].
      pose proof (exportAt_progress _ H) as Hlen.
      apply exportAt_suffix in H.
      destruct H as [head [d [name [Hs [Ht1 _]]]]].
      split; [|simpl in *; lia].
      exists (head ++ String d name). rewrite Hs, Ht1.
      now rewrite string_app_assoc.
    + destruct (exportSearch s) as [[j [t1 t2]]|] eqn:Hs; [|discriminate].
      intros [= <- <- <-].
      destruct (IH _ _ _ eq_refl) as [Hat [[pre Hpre] [Hlt Hle]]].
      split; [exact Hat|]. split; [|lia].
      exists (String c pre). simpl. now rewrite <- Hpre.
Qed.

Lemma exportSearch_progress (s : string) :
  forall i s1 s2, exportSearch s = Some (i, (s1, s2)) ->
    (String.length s2 < String.length s1 /\
     i + String.length s1 <= String.length s)%nat.
Proof.
  intros i s1 s2 H. apply exportSearch_found in H. tauto.
Qed.

(** ** Data model *)

(** A raw entry of the structural extractor. *)
Record CtagsEntry := {
  entry_name : string;
  entry_path : string;
  entry_line : N;
  entry_kind : string;
  entry_scope : option string;
  entry_scopeKind : option string;
  entry_pattern : option string
}.

(** The union type ['function' | 'method' | 'class']. *)
Inductive SymbolKind := KFunction | KMethod | KClass.

Record Symbol := {
  sym_name : string;
  sym_kind : SymbolKind;
  sym_file : string;
  sym_line : N;
  sym_scope : option string;
  sym_signature : option string;
  sym_feature : string;
  sym_featureName : string
}.

Record FeatureRule := {
  rule_id : string;
  rule_name : string;
  rule_category : string;
  rule_paths : list string
}.

Record FeatureConfig := {
  conf_name : string;
  excludePaths : list string;
  excludeChurn : list string;
  features : list FeatureRule
}.

Record TopFile := {
  top_path : string;
  top_commits : N;
  top_churn : N
}.

Record FeatureReport := {
  rep_id : string;
  rep_name : string;
  rep_category : string;
  functions : N;
  methods : N;
  classes : N;
  total : N;
  commits : option N;
  churn : option N;
  hotspotScore : option Z;
  topFiles : option (list TopFile)
}.

Record FileChurn := {
  file_path : string;
  file_commits : N;
  additions : N;
  deletions : N;
  file_churn : N
}.

(** The object literal [{ id, name, category }] returned by the classifier. *)
Record FeatureRef := {
  ref_id : string;
  ref_name : string;
  ref_category : string
}.

(** ** Symbol filtering *)

Definition setHas (set : list string) (x : string) : bool :=
  existsb (String.eqb x) set.

Definition FUNCTION_KINDS : list string := ["function"; "generator"].
Definition METHOD_KINDS : list string := ["method"].
Definition CLASS_KINDS : list string := ["class"; "object"].

Definition NOISE_NAMES : list string :=
  ["<lambda>"; "<anonymous>"; "anonymous"; "module.exports"].

Definition isPascalCase (n : string) : bool := testAtStart rePascalCase n.
Definition isHook (n : string) : bool := testAtStart reHook n.
Definition isCamelCase (n : string) : bool := testAtStart reCamelCase n.

(** The three name patterns as the specification words them: a capital
    letter followed by one or more letters or digits; the word [use]
    followed by a capital letter; a lower-case letter followed by one or
    more letters or digits. *)
Fixpoint allChars (p : ascii -> bool) (s : string) : bool :=
  match s with
  | EmptyString => true
  | String c s' => p c && allChars p s'
  end.




(** The normalized kind of an entry; [None] is the [continue] of the
    loop. *)
Definition normalizedKind (entry : CtagsEntry) : option SymbolKind :=
  if setHas FUNCTION_KINDS (entry_kind entry) then Some KFunction
  else if setHas METHOD_KINDS (entry_kind entry) then Some KMethod
  else if setHas CLASS_KINDS (entry_kind entry) then Some KClass
  else if String.eqb (entry_kind entry) "constant" then
    let isTsx := JS.endsWith (entry_path entry) ".tsx" in
    if isPascalCase (entry_name entry) || isHook (entry_name entry)
    then Some KFunction
    else if isTsx && isCamelCase (entry_name entry) then Some KFunction
    else None
  else None.

(** [pattern.replace(/^\/\^/, '').replace(/\$\/$/, '').trim()] *)
Definition cleanSignature (pattern : string) : string :=
  let p1 := if JS.startsWith pattern "/^" then JS.drop 2 pattern
            else pattern in
  let p2 := if JS.endsWith p1 "$/"
            then JS.substring0 (String.length p1 - 2) p1 else p1 in
  JS.trim p2.

Definition newline : ascii := "010"%char.

Section FileSystem.

(** Node's [path.relative(from, to)], [path.join(a, b)] and
    [fs.readFileSync(file, 'utf-8')]; a read that throws is [None]. *)
Variable path_relative : string -> string -> string.
Variable path_join : string -> string -> string.
Variable readFileSync : string -> option string.

(** One round of the first loop: the symbol pushed for an entry, if
    any. *)
Definition keepEntry (repoRoot : string) (entry : CtagsEntry)
  : option Symbol :=
  if setHas NOISE_NAMES (entry_name entry) then None
  else if JS.startsWith (entry_name entry) "__" then None
  else
    match normalizedKind entry with
    | None => None
    | Some kind =>
        Some {| sym_name := entry_name entry;
                sym_kind := kind;
                sym_file := path_relative repoRoot (entry_path entry);
                sym_line := entry_line entry;
                sym_scope := entry_scope entry;
                sym_signature := option_map cleanSignature
                                            (entry_pattern entry);
                sym_feature := "";
                sym_featureName := "" |}
    end.

Fixpoint firstPass (repoRoot : string) (entries : list CtagsEntry)
  : list Symbol :=
  match entries with
  | [] => []
  | entry :: rest =>
      match keepEntry repoRoot entry with
      | Some s => s :: firstPass repoRoot rest
      | None => firstPass repoRoot rest
      end
  end.

(** The set [tsxFiles], in insertion order. *)
Fixpoint collectTsxFiles (repoRoot : string) (entries : list CtagsEntry)
         (tsxFiles : list string) : list string :=
  match entries with
  | [] => tsxFiles
  | entry :: rest =>
      let rel := path_relative repoRoot (entry_path entry) in
      if (JS.endsWith rel ".tsx" || JS.endsWith rel ".jsx")
         && negb (setHas tsxFiles rel)
      then collectTsxFiles repoRoot rest (tsxFiles ++ [rel])
      else collectTsxFiles repoRoot rest tsxFiles
  end.

(** [symbols.some(s => s.file === relFile && s.name === name)] *)
Definition alreadyCaptured (relFile name : string) (symbols : list Symbol)
  : bool :=
  existsb (fun s => String.eqb (sym_file s) relFile
                    && String.eqb (sym_name s) name) symbols.

(** [src.substring(0, index).split('\n').length] *)
Definition lineOf (src : string) (index : nat) : N :=
  N.of_nat (List.length (JS.split newline (JS.substring0 index src))).

(** The body of the [while] loop for one match. *)
Definition pushOrphan (relFile src : string) (index : nat)
           (name matched : string) (symbols : list Symbol) : list Symbol :=
  if alreadyCaptured relFile name symbols then symbols
  else symbols ++
       [{| sym_name := name;
           sym_kind := KFunction;
           sym_file := relFile;
           sym_line := lineOf src index;
           sym_scope := None;
           sym_signature := Some (JS.trim matched);
           sym_feature := "";
           sym_featureName := "" |}].

Definition inspect (A : Type) (a : A) : {b : A | a = b} :=
  exist _ a eq_refl.

(** [while ((match = exportRe.exec(src)) !== null)]: [rest] is the input
    from [lastIndex] on. *)
Equations? scanLoop (relFile src rest : string) (symbols : list Symbol)
  : list Symbol by wf (String.length rest) lt :=
  scanLoop relFile src rest symbols with inspect (exportSearch rest) := {
    | exist _ None _ => symbols
    | exist _ (Some (i, (s1, s2))) Hfound =>
        let lastIndex := (String.length src - String.length rest)%nat in
        let index := (lastIndex + i)%nat in
        let name := JS.substring0 (String.length s1 - String.length s2) s1 in
        let matched :=
          JS.substring0 (String.length rest - i - String.length s2)
                        (JS.drop i rest) in
        scanLoop relFile src s2
                 (pushOrphan relFile src index name matched symbols) }.
Proof.
  apply exportSearch_progress in Hfound. lia.
Qed.

(** The body of [for (const relFile of tsxFiles)], with its
    [try]/[catch]. *)
Definition scanFile (repoRoot relFile : string) (symbols : list Symbol)
  : list Symbol :=
  match readFileSync (path_join repoRoot relFile) with
  | None => symbols
  | Some src => scanLoop relFile src src symbols
  end.

Definition secondPass (repoRoot : string) (tsxFiles : list string)
           (symbols : list Symbol) : list Symbol :=
  fold_left (fun syms relFile => scanFile repoRoot relFile syms)
            tsxFiles symbols.

Definition filterSymbols (entries : list CtagsEntry) (repoRoot : string)
  : list Symbol :=
  secondPass repoRoot (collectTsxFiles repoRoot entries [])
             (firstPass repoRoot entries).

End FileSystem.

(** The matches that the successive calls of [exportRe.exec(src)] find
    once the search has come to [rest]: the offset of a match in [src]
    and the name it captures. *)
Inductive ExecFinds (src : string) : string -> nat -> string -> Prop :=
| finds_here (rest : string) (i : nat) (s1 s2 : string) :
    exportSearch rest = Some (i, (s1, s2)) ->
    ExecFinds src rest
              (String.length src - String.length rest + i)
              (JS.substring0 (String.length s1 - String.length s2) s1)
| finds_later (rest : string) (i : nat) (s1 s2 : string)
              (index : nat) (name : string) :
    exportSearch rest = Some (i, (s1, s2)) ->
    ExecFinds src s2 index name ->
    ExecFinds src rest index name.

(** The pair that identifies a symbol for the orphan scan. *)
Definition symKey (s : Symbol) : string * string :=
  (sym_file s, sym_name s).

(** What one run of the scanning loop appends. *)
Definition scanned (relFile src rest : string) (symbols added : list Symbol)
  : Prop :=
  Forall (fun s => sym_kind s = KFunction /\ sym_file s = relFile
                   /\ exists index,
                        ExecFinds src rest index (sym_name s)
                        /\ sym_line s = lineOf src index) added
  /\ NoDup (List.map symKey added)
  /\ (forall s, In s added -> ~ In (symKey s) (List.map symKey symbols))
  /\ (forall index n,
        ExecFinds src rest index n ->
        In (relFile, n) (List.map symKey (symbols ++ added)%list)).

(** What the scan of the files [files] may add: a function, in one of the
    files, named by a match of the export expression in the text of its
    file, on the line of that match. *)
Definition orphanOf (path_join : string -> string -> string)
           (readFileSync : string -> option string)
           (repoRoot : string) (files : list string) (s : Symbol) : Prop :=
  sym_kind s = KFunction
  /\ In (sym_file s) files
  /\ exists src index,
       readFileSync (path_join repoRoot (sym_file s)) = Some src
       /\ ExecFinds src src index (sym_name s)
       /\ sym_line s
          = N.of_nat (1 + JS.count newline (JS.substring0 index src)).

(** ** Feature classification *)

Definition normalize (relPath : string) : string :=
  "/" ++ JS.replaceBackslashes relPath.

(** Inner loop [for (const p of feat.paths)]: does some substring hit? *)
Fixpoint anyPathIncluded (normalized : string) (ps : list string) : bool :=
  match ps with
  | [] => false
  | p :: ps' =>
      if JS.includes normalized p then true
      else anyPathIncluded normalized ps'
  end.

(** Outer loop [for (const feat of features)] with its early return. *)
Fixpoint classifyLoop (normalized : string) (features : list FeatureRule)
  : FeatureRef :=
  match features with
  | [] =>
      {| ref_id := "uncategorized"; ref_name := "Uncategorized";
         ref_category := "Unknown" |}
  | feat :: rest =>
      if anyPathIncluded normalized (rule_paths feat)
      then {| ref_id := rule_id feat; ref_name := rule_name feat;
              ref_category := rule_category feat |}
      else classifyLoop normalized rest
  end.

Definition classifySymbol (relPath : string) (features : list FeatureRule)
  : FeatureRef :=
  classifyLoop (normalize relPath) features.

(** The classifier as the specification words it: the first rule, in
    declared order, any of whose substrings is contained in the path, and
    the sentinel when there is none. *)
Definition ruleMatches (normalized : string) (r : FeatureRule) : Prop :=
  exists p, In p (rule_paths r) /\ JS.contains normalized p.

Definition refOf (r : FeatureRule) : FeatureRef :=
  {| ref_id := rule_id r; ref_name := rule_name r;
     ref_category := rule_category r |}.

Definition sentinel : FeatureRef :=
  {| ref_id := "uncategorized"; ref_name := "Uncategorized";
     ref_category := "Unknown" |}.

Definition classify_spec (normalized : string) (features : list FeatureRule)
  : FeatureRef :=
  match find (fun r => existsb (JS.includes normalized) (rule_paths r)) features with
  | Some r => refOf r
  | None => sentinel
  end.

(** ** The feature map

    [Map<string, FeatureReport>]: keys are unique, iteration follows
    insertion order, and [set] on a present key keeps its position. *)

Module Map.

Definition t : Type := list (string * FeatureReport).

Fixpoint get (m : t) (k : string) : option FeatureReport :=
  match m with
  | [] => None
  | (k', v) :: m' => if String.eqb k' k then Some v else get m' k
  end.

Fixpoint set (m : t) (k : string) (v : FeatureReport) : t :=
  match m with
  | [] => [(k, v)]
  | (k', v') :: m' =>
      if String.eqb k' k then (k, v) :: m' else (k', v') :: set m' k v
  end.

Definition values (m : t) : list FeatureReport := List.map snd m.

Definition keys (m : t) : list string := List.map fst m.

End Map.

(** ** Aggregation *)

Definition emptyReport (i n c : string) : FeatureReport :=
  {| rep_id := i; rep_name := n; rep_category := c;
     functions := 0; methods := 0; classes := 0; total := 0;
     commits := None; churn := None; hotspotScore := None;
     topFiles := None |}.

(** Step 3 of [main]: every symbol receives its feature id and name. *)
Definition classifyAll (fs : list FeatureRule) (symbols : list Symbol)
  : list Symbol :=
  List.map (fun sym =>
              let r := classifySymbol (sym_file sym) fs in
              {| sym_name := sym_name sym; sym_kind := sym_kind sym;
                 sym_file := sym_file sym; sym_line := sym_line sym;
                 sym_scope := sym_scope sym;
                 sym_signature := sym_signature sym;
                 sym_feature := ref_id r; sym_featureName := ref_name r |})
           symbols.

(** The loop that seeds one bucket per configured rule. *)
Definition seedRules (fs : list FeatureRule) (m : Map.t) : Map.t :=
  fold_left (fun m feat =>
               Map.set m (rule_id feat)
                       (emptyReport (rule_id feat) (rule_name feat)
                                    (rule_category feat)))
            fs m.

(** The buckets seeded before any symbol is counted. *)
Definition seedMap (fs : list FeatureRule) : Map.t :=
  Map.set (seedRules fs [])
          "uncategorized"
          (emptyReport "uncategorized" "Uncategorized" "Unknown").

(** A bucket nothing has been counted in yet. *)
Definition fresh (r : FeatureReport) : Prop :=
  functions r = 0%N /\ methods r = 0%N /\ classes r = 0%N /\ total r = 0%N
  /\ commits r = None /\ churn r = None /\ hotspotScore r = None
  /\ topFiles r = None.

(** The increments of one symbol on its bucket. *)
Definition countSymbol (kind : SymbolKind) (r : FeatureReport)
  : FeatureReport :=
  {| rep_id := rep_id r; rep_name := rep_name r;
     rep_category := rep_category r;
     functions := (match kind with KFunction => functions r + 1
                                 | _ => functions r end)%N;
     methods := (match kind with KMethod => methods r + 1
                               | _ => methods r end)%N;
     classes := (match kind with KClass => classes r + 1
                               | _ => classes r end)%N;
     total := (total r + 1)%N;
     commits := commits r; churn := churn r;
     hotspotScore := hotspotScore r; topFiles := topFiles r |}.

(** The body of the aggregation loop.  The report object is mutated in
    place, which is a [set] at its own key. *)
Definition aggregateStep (m : Map.t) (sym : Symbol) : Map.t :=
  match Map.get m (sym_feature sym) with
  | Some report =>
      Map.set m (sym_feature sym) (countSymbol (sym_kind sym) report)
  | None =>
      let report :=
        emptyReport (sym_feature sym) (sym_featureName sym) "Unknown" in
      Map.set (Map.set m (sym_feature sym) report) (sym_feature sym)
              (countSymbol (sym_kind sym) report)
  end.

Definition aggregate (m : Map.t) (symbols : list Symbol) : Map.t :=
  fold_left aggregateStep symbols m.

(** The bucket a symbol is counted in, as it is just before: the bucket
    found under its feature id, or the one made on demand. *)
Definition bucketBefore (m : Map.t) (sym : Symbol) : FeatureReport :=
  match Map.get m (sym_feature sym) with
  | Some report => report
  | None => emptyReport (sym_feature sym) (sym_featureName sym) "Unknown"
  end.

(** A bucket the churn overlay has not touched. *)
Definition noChurn (r : FeatureReport) : Prop :=
  commits r = None /\ churn r = None /\ hotspotScore r = None
  /\ topFiles r = None.

(** Every id the classifier can return has a bucket. *)
Definition covers (fs : list FeatureRule) (m : Map.t) : Prop :=
  forall relPath, Map.get m (ref_id (classifySymbol relPath fs)) <> None.

(** Sum of a quantity over a list of buckets. *)
Definition sumOver (f : FeatureReport -> N) (l : list FeatureReport) : N :=
  fold_right (fun r acc => (f r + acc)%N) 0%N l.

(** The three kind counters of a bucket, added up. *)
Definition kindCounts (r : FeatureReport) : N :=
  (functions r + methods r + classes r)%N.

(** The counters of the bucket of a feature id, if there is one. *)
Definition counters (m : Map.t) (k : string) : option (N * N * N * N) :=
  option_map (fun r => (functions r, methods r, classes r, total r))
             (Map.get m k).

(** ** Numbers *)

(** A stable sort by a comparator, as [Array.prototype.sort] is since
    ES2019: [x] stays before [y] unless the comparator is positive.  For
    a comparator that is a consistent ordering this is the result every
    conforming engine gives; for an inconsistent one ECMAScript leaves
    the order to the engine, and this model inserts from the right. *)
Fixpoint insertBy (A : Type) (cmp : A -> A -> Z) (x : A) (l : list A)
  : list A :=
  match l with
  | [] => [x]
  | y :: l' =>
      if (cmp x y <=? 0)%Z then x :: y :: l' else y :: insertBy cmp x l'
  end.

Fixpoint sortBy (A : Type) (cmp : A -> A -> Z) (l : list A) : list A :=
  match l with
  | [] => []
  | x :: l' => insertBy cmp x (sortBy cmp l')
  end.

(** The double nearest to a count. *)
Definition toDouble (n : N) : float :=
  SF2Prim (binary_normalize prec emax (Z.of_N n) 0 false).

(** [floor (v * 2^e + 1/2)], computed exactly. *)
Definition roundHalfUp (v e : Z) : Z :=
  if (0 <=? e)%Z then (v * 2 ^ e)%Z
  else ((2 * v + 2 ^ (- e)) / 2 ^ (1 - e))%Z.

(** [Math.round(x)] of a finite double: the nearest integer, ties towards
    positive infinity.  [NaN] and the infinities are not integers; they
    stand as 0 here and cannot arise from the counts of the program while
    these are safe integers. *)
Definition Math_round (x : float) : Z :=
  match Prim2SF x with
  | S754_finite s m e => roundHalfUp (if s then Z.neg m else Z.pos m) e
  | _ => 0%Z
  end.

(** [Math.round(churn * Math.sqrt(commits))] *)
Definition hotspot (churn commits : N) : Z :=
  Math_round (PrimFloat.mul (toDouble churn)
                            (PrimFloat.sqrt (toDouble commits))).

(** [b <= m * 2^e], computed exactly. *)
Definition atLeast (m e b : Z) : bool :=
  if (0 <=? e)%Z then (b <=? m * 2 ^ e)%Z else (b * 2 ^ (- e) <=? m)%Z.

Definition decimal (n : Z) : string :=
  NilZero.string_of_uint (N.to_uint (Z.to_N n)).

(** [x.toFixed(1)].  A finite [x] of magnitude 10^21 or more is printed
    by [Number::toString] in exponent notation, which is left out:
    [None]. *)
Definition toFixed1 (x : float) : option string :=
  match Prim2SF x with
  | S754_nan => Some "NaN"
  | S754_infinity s => Some (if s then "-Infinity" else "Infinity")
  | S754_zero _ => Some "0.0"
  | S754_finite s m e =>
      if atLeast (Z.pos m) e (10 ^ 21) then None
      else
        let n := roundHalfUp (10 * Z.pos m) e in
        Some ((if s then "-" else "")
                ++ decimal (n / 10) ++ "." ++ decimal (n mod 10))
  end.

(** ** Churn overlay and hotspot scores *)

(** Truthiness of an optional count: defined and not zero. *)
Definition truthyNum (x : option N) : bool :=
  match x with
  | Some n => negb (n =? 0)%N
  | None => false
  end.

(** [x || 0] *)
Definition orZero (x : option N) : N :=
  match x with
  | Some n => n
  | None => 0%N
  end.

(** The three updates of a bucket for one churn record. *)
Definition addChurn (file : FileChurn) (r : FeatureReport) : FeatureReport :=
  {| rep_id := rep_id r; rep_name := rep_name r;
     rep_category := rep_category r;
     functions := functions r; methods := methods r; classes := classes r;
     total := total r;
     commits := Some (orZero (commits r) + file_commits file)%N;
     churn := Some (orZero (churn r) + file_churn file)%N;
     hotspotScore := hotspotScore r;
     topFiles :=
       Some ((match topFiles r with Some l => l | None => [] end)
               ++ [{| top_path := file_path file;
                      top_commits := file_commits file;
                      top_churn := file_churn file |}])%list |}.

(** The body of the loop over the churn records, with its
    [if (!report) continue]. *)
Definition overlayStep (fs : list FeatureRule) (m : Map.t) (file : FileChurn)
  : Map.t :=
  let i := ref_id (classifySymbol (file_path file) fs) in
  match Map.get m i with
  | None => m
  | Some report => Map.set m i (addChurn file report)
  end.

Definition compareTopFiles (a b : TopFile) : Z :=
  (Z.of_N (top_churn b) - Z.of_N (top_churn a))%Z.

(** The body of the loop over [featureMap.values()]. *)
Definition scoreReport (r : FeatureReport) : FeatureReport :=
  {| rep_id := rep_id r; rep_name := rep_name r;
     rep_category := rep_category r;
     functions := functions r; methods := methods r; classes := classes r;
     total := total r;
     commits := commits r; churn := churn r;
     hotspotScore :=
       if truthyNum (churn r) && truthyNum (commits r)
       then Some (hotspot (orZero (churn r)) (orZero (commits r)))
       else hotspotScore r;
     topFiles :=
       match topFiles r with
       | Some l => Some (firstn 10 (sortBy compareTopFiles l))
       | None => None
       end |}.

Definition scoreAll (m : Map.t) : Map.t :=
  List.map (fun kv => (fst kv, scoreReport (snd kv))) m.

(** Step 5 of [main], run when [since] is given. *)
Definition churnOverlay (fs : list FeatureRule) (churnData : list FileChurn)
           (m : Map.t) : Map.t :=
  scoreAll (fold_left (overlayStep fs) churnData m).

(** Churn and commits of a list of records, added up. *)
Definition totalChurn (churnData : list FileChurn) : N :=
  fold_right (fun f acc => (file_churn f + acc)%N) 0%N churnData.

Definition totalCommits (churnData : list FileChurn) : N :=
  fold_right (fun f acc => (file_commits f + acc)%N) 0%N churnData.

(** The churn records the classifier gives to the feature id [k]. *)
Definition churnFor (fs : list FeatureRule) (k : string)
           (churnData : list FileChurn) : list FileChurn :=
  List.filter
    (fun f => String.eqb (ref_id (classifySymbol (file_path f) fs)) k)
    churnData.

(** ** Ranking and coverage *)

(** [f.total > 0 || (f.churn && f.churn > 0)] *)
Definition presentable (f : FeatureReport) : bool :=
  (0 <? total f)%N || (truthyNum (churn f) && (0 <? orZero (churn f))%N).

(** The comparator of the presentation sort. *)
Definition compareReports (since : option string) (a b : FeatureReport) : Z :=
  match JS.truthy since, hotspotScore a, hotspotScore b with
  | true, Some sa, Some sb => (sb - sa)%Z
  | _, _, _ => (Z.of_N (total b) - Z.of_N (total a))%Z
  end.

(** The hotspot score of a bucket that has one. *)
Definition scoreOf (r : FeatureReport) : Z :=
  match hotspotScore r with
  | Some s => s
  | None => 0%Z
  end.

Definition ranking (since : option string) (m : Map.t) : list FeatureReport :=
  sortBy (compareReports since) (List.filter presentable (Map.values m)).

Definition countKind (k : SymbolKind) (symbols : list Symbol) : N :=
  N.of_nat (List.length
              (List.filter (fun s => match sym_kind s, k with
                                     | KFunction, KFunction => true
                                     | KMethod, KMethod => true
                                     | KClass, KClass => true
                                     | _, _ => false
                                     end) symbols)).

(** [featureMap.get('uncategorized')?.total || 0] *)
Definition uncatCount (m : Map.t) : N :=
  match Map.get m "uncategorized" with
  | Some r => total r
  | None => 0%N
  end.

(** [((1 - uncatCount / totalSymbols) * 100).toFixed(1)] *)
Definition coveragePct (uncat totalSymbols : N) : option string :=
  toFixed1
    (PrimFloat.mul
       (PrimFloat.sub (toDouble 1)
                      (PrimFloat.div (toDouble uncat) (toDouble totalSymbols)))
       (toDouble 100)).

(** ** The run *)

(** What [main] hands to the report writers. *)
Record Output := {
  out_since : option string;
  out_symbols : N;
  out_functions : N;
  out_methods : N;
  out_classes : N;
  coverageRate : option string;
  out_features : list FeatureReport;
  out_symbolList : list Symbol
}.

Section Main.

Variable path_relative : string -> string -> string.
Variable path_join : string -> string -> string.
Variable readFileSync : string -> option string.

(** [getGitChurn(repoRoot, since, excludePatterns)] queries the history
    of the repository. *)
Variable getGitChurn : string -> string -> list string -> list FileChurn.

(** [main] from the raw entries on: [rawEntries] is the result of
    [runCtags], [since] the value of the [--since] option. *)
Definition main (absRoot : string) (config : FeatureConfig)
           (since : option string) (cliExcludes : list string)
           (rawEntries : list CtagsEntry) : Output :=
  let allChurnExcludes := (excludeChurn config ++ cliExcludes)%list in
  let symbols :=
    classifyAll (features config)
      (filterSymbols path_relative path_join readFileSync
                     rawEntries absRoot) in
  let featureMap := aggregate (seedMap (features config)) symbols in
  let featureMap :=
    match since with
    | Some (String c w) =>
        churnOverlay (features config)
                     (getGitChurn absRoot (String c w) allChurnExcludes)
                     featureMap
    | _ => featureMap
    end in
  let sorted := ranking since featureMap in
  let totalSymbols := N.of_nat (List.length symbols) in
  {| out_since := since;
     out_symbols := totalSymbols;
     out_functions := countKind KFunction symbols;
     out_methods := countKind KMethod symbols;
     out_classes := countKind KClass symbols;
     coverageRate :=
       option_map (fun pct => pct ++ "%")
                  (coveragePct (uncatCount featureMap) totalSymbols);
     out_features := sorted;
     out_symbolList := symbols |}.

End Main.
From Stdlib Require DecimalPos DecimalN.


(** ** Further measures of the run *)

(** Equality of symbol kinds. *)
Definition sameKind (a b : SymbolKind) : bool :=
  match a, b with
  | KFunction, KFunction | KMethod, KMethod | KClass, KClass => true
  | _, _ => false
  end.

(** The symbols of feature id [k], and those of kind [kind] among them,
    counted. *)
Definition countFeature (k : string) (symbols : list Symbol) : N :=
  N.of_nat (List.length
              (List.filter (fun s => String.eqb (sym_feature s) k) symbols)).

Definition countFeatureKind (k : string) (kind : SymbolKind)
           (symbols : list Symbol) : N :=
  N.of_nat (List.length
              (List.filter (fun s => String.eqb (sym_feature s) k
                                     && sameKind (sym_kind s) kind)
                           symbols)).

(** The first occurrences of the strings of a list, in order. *)
Fixpoint firstOccurrences (seen l : list string) : list string :=
  match l with
  | [] => []
  | x :: l' =>
      if setHas seen x then firstOccurrences seen l'
      else x :: firstOccurrences (seen ++ [x]) l'
  end.

(** The top-files candidate of a churn record. *)
Definition candidateOf (file : FileChurn) : TopFile :=
  {| top_path := file_path file;
     top_commits := file_commits file;
     top_churn := file_churn file |}.

(** Every bucket is stored under its own id. *)
Definition keyed (m : Map.t) : Prop :=
  forall k r, In (k, r) m -> rep_id r = k.

(** The longest prefix of characters of a class, and what follows it. *)
Fixpoint takeWhile (p : ascii -> bool) (s : string) : string :=
  match s with
  | EmptyString => EmptyString
  | String c s' => if p c then String c (takeWhile p s') else EmptyString
  end.

Fixpoint dropWhile (p : ascii -> bool) (s : string) : string :=
  match s with
  | EmptyString => EmptyString
  | String c s' => if p c then dropWhile p s' else s
  end.

(** The feature map of [main] as it stands when the ranking is made:
    aggregated, and overlaid with churn when [since] is given. *)
Definition featureMapOf
           (getGitChurn : string -> string -> list string -> list FileChurn)
           (absRoot : string) (config : FeatureConfig)
           (since : option string) (cliExcludes : list string)
           (symbols : list Symbol) : Map.t :=
  match since with
  | Some (String c w) =>
      churnOverlay (features config)
                   (getGitChurn absRoot (String c w)
                                (excludeChurn config ++ cliExcludes)%list)
                   (aggregate (seedMap (features config)) symbols)
  | _ => aggregate (seedMap (features config)) symbols
  end.

(** The candidates of a bucket before they are sorted and cut. *)
Definition pendingFiles (r : FeatureReport) : list TopFile :=
  match topFiles r with
  | Some l => l
  | None => []
  end.

(** ** The command line *)

(** What [main] takes from its arguments. *)
Record Options := {
  opt_repoRoot : string;
  opt_configFile : option string;
  opt_jsonOut : option string;
  opt_since : option string;
  opt_cliExcludes : list string
}.

(** The three ways a call goes on: the help text, the prompt, or a run. *)
Inductive Invocation :=
| ShowHelp
| ShowPrompt
| Run (o : Options).

(** [args.indexOf(x)], with [None] for [-1]. *)
Fixpoint indexOf (x : string) (args : list string) : option nat :=
  match args with
  | [] => None
  | a :: rest =>
      if String.eqb a x then Some O
      else match indexOf x rest with
           | Some i => Some (S i)
           | None => None
           end
  end.

(** [idx >= 0 ? args[idx + 1] : null] for the index of [flag]. *)
Definition optionValue (flag : string) (args : list string) : option string :=
  match indexOf flag args with
  | Some idx => nth_error args (S idx)
  | None => None
  end.

(** The loop that collects the [--exclude] values: a value is taken, and
    stepped over, when the argument after the flag is a non-empty
    string. *)
Fixpoint collectExcludes (args : list string) : list string :=
  match args with
  | [] => []
  | a :: rest =>
      if String.eqb a "--exclude" then
        match rest with
        | String c v :: rest' => String c v :: collectExcludes rest'
        | _ => collectExcludes rest
        end
      else collectExcludes rest
  end.

(** The head of [main], up to the point where the run starts. *)
Definition parseArgs (args : list string) : Invocation :=
  if existsb (String.eqb "--help") args || existsb (String.eqb "-h") args
  then ShowHelp
  else
    match List.find (fun a => negb (JS.startsWith a "--")) args with
    | Some (String c r) =>
        Run {| opt_repoRoot := String c r;
               opt_configFile := optionValue "--config" args;
               opt_jsonOut := optionValue "--json" args;
               opt_since := optionValue "--since" args;
               opt_cliExcludes := collectExcludes args |}
    | _ => ShowPrompt
    end.

(** The flags of the command line, and the command line that asks for
    given options: the repository first, then each option that is set. *)
Definition reservedWords : list string :=
  ["--help"; "-h"; "--config"; "--json"; "--since"; "--exclude"].

Definition optionArgs (flag : string) (v : option string) : list string :=
  match v with
  | Some x => [flag; x]
  | None => []
  end.

Definition commandLine (o : Options) : list string :=
  opt_repoRoot o
  :: (optionArgs "--config" (opt_configFile o)
      ++ optionArgs "--json" (opt_jsonOut o)
      ++ optionArgs "--since" (opt_since o)
      ++ flat_map (fun e => ["--exclude"; e]) (opt_cliExcludes o))%list.

Definition optionValues (o : Options) : list string :=
  (match opt_configFile o with Some x => [x] | None => [] end
   ++ match opt_jsonOut o with Some x => [x] | None => [] end
   ++ match opt_since o with Some x => [x] | None => [] end
   ++ opt_cliExcludes o)%list.

(** ** The text report: categories and hottest files *)

(** [Map<string, FeatureReport[]>], in insertion order. *)
Definition Groups : Type := list (string * list FeatureReport).

(** [if (!categories.has(cat)) categories.set(cat, []);
     categories.get(cat).push(r)] *)
Fixpoint pushToCategory (g : Groups) (cat : string) (r : FeatureReport)
  : Groups :=
  match g with
  | [] => [(cat, [r])]
  | (c, l) :: g' =>
      if String.eqb c cat then (c, (l ++ [r])%list) :: g'
      else (c, l) :: pushToCategory g' cat r
  end.

Definition groupByCategory (sorted : list FeatureReport) : Groups :=
  fold_left (fun g r => pushToCategory g (rep_category r) r) sorted [].

(** [features.reduce((s, r) => s + r.total, 0)] *)
Definition reduceTotal (feats : list FeatureReport) : N :=
  fold_left (fun s r => (s + total r)%N) feats 0%N.

(** [features.reduce((s, r) => s + (r.churn || 0), 0)] *)
Definition reduceChurn (feats : list FeatureReport) : N :=
  fold_left (fun s r => (s + orZero (churn r))%N) feats 0%N.

Definition compareGroups (a b : string * list FeatureReport) : Z :=
  (Z.of_N (reduceTotal (snd b)) - Z.of_N (reduceTotal (snd a)))%Z.

(** [catOrder]: the categories by total, largest first. *)
Definition catOrder (sorted : list FeatureReport) : Groups :=
  sortBy compareGroups (groupByCategory sorted).

(** [sortedFeats]: by hotspot score (or 0) with churn, by total
    without. *)
Definition sortedFeats (hasChurn : bool) (feats : list FeatureReport)
  : list FeatureReport :=
  if hasChurn
  then sortBy (fun a b => (scoreOf b - scoreOf a)%Z) feats
  else sortBy (fun a b => (Z.of_N (total b) - Z.of_N (total a))%Z) feats.

(** One block of the text report: the heading of a category and the
    lines under it. *)
Record CategoryBlock := {
  cat_name : string;
  cat_total : N;
  cat_churn : N;
  cat_features : list FeatureReport
}.

Definition categoryBlocks (since : option string)
           (sorted : list FeatureReport) : list CategoryBlock :=
  List.map (fun g =>
              {| cat_name := fst g;
                 cat_total := reduceTotal (snd g);
                 cat_churn := if JS.truthy since then reduceChurn (snd g)
                              else 0%N;
                 cat_features := sortedFeats (JS.truthy since) (snd g) |})
           (catOrder sorted).

(** A line of the hottest-files table: a top file and the name of its
    feature. *)
Definition HotFile : Type := (TopFile * string)%type.

(** [allTopFiles], sorted by churn and cut to 20. *)
Definition hottestFiles (sorted : list FeatureReport) : list HotFile :=
  firstn 20
         (sortBy (fun a b => (Z.of_N (top_churn (fst b))
                              - Z.of_N (top_churn (fst a)))%Z)
                 (flat_map (fun feat =>
                              List.map (fun f => (f, rep_name feat))
                                       (pendingFiles feat))
                           sorted)).

(** Groups as the loop keeps them: distinct categories, no empty group,
    every feature under its own category. *)
Definition groupsOk (g : Groups) : Prop :=
  NoDup (List.map fst g)
  /\ Forall (fun cl => snd cl <> []
                       /\ Forall (fun r => rep_category r = fst cl) (snd cl))
            g.

(** ** Parsing the history

    [getGitChurn] runs two [git log] pipelines and parses their output.
    The parsing is modelled here on the two outputs, [commitLog] (lines
    "count path" from [uniq -c]) and [numstatLog] (lines
    "additions deletions path" from [awk]).  [parseInt] may read a sign,
    so the numbers of a parsed row are integers. *)

Record ChurnRow := {
  row_path : string;
  row_commits : Z;
  row_additions : Z;
  row_deletions : Z;
  row_churn : Z
}.

(** The value of a digit in a radix up to 36. *)
Definition digitValue (c : ascii) : option N :=
  let n := N.of_nat (nat_of_ascii c) in
  if JS.isDigit c then Some (n - 48)%N
  else if JS.isLower c then Some (n - 97 + 10)%N
  else if JS.isUpper c then Some (n - 65 + 10)%N
  else None.

(** The value of the longest prefix of digits of the radix; [acc] is the
    value read so far, [None] while no digit has been read. *)
Fixpoint digitsPrefix (radix : N) (s : string) (acc : option N) : option N :=
  match s with
  | EmptyString => acc
  | String c s' =>
      match digitValue c with
      | Some d =>
          if (d <? radix)%N
          then digitsPrefix radix s'
                            (Some (radix * match acc with
                                           | Some a => a
                                           | None => 0
                                           end + d)%N)
          else acc
      | None => acc
      end
  end.

(** [parseInt(s)] without a radix; [None] is [NaN]. *)
Definition parseInt (s : string) : option Z :=
  let s0 := JS.trimStart s in
  let negative := JS.startsWith s0 "-" in
  let s1 := if JS.startsWith s0 "-" || JS.startsWith s0 "+"
            then JS.drop 1 s0 else s0 in
  let hex := JS.startsWith s1 "0x" || JS.startsWith s1 "0X" in
  let radix := if hex then 16%N else 10%N in
  let s2 := if hex then JS.drop 2 s1 else s1 in
  match digitsPrefix radix s2 None with
  | None => None
  | Some n => Some (if negative then (- Z.of_N n)%Z else Z.of_N n)
  end.

(** [parseInt(s) || 0] *)
Definition parseIntOr0 (s : string) : Z :=
  match parseInt s with
  | Some z => z
  | None => 0%Z
  end.

(** [s.split(/\s+/)]: the pieces between the runs of white space; the
    flag tells whether the previous character was white space. *)
Fixpoint splitSpaces (inRun : bool) (s : string) : list string :=
  match s with
  | EmptyString => [EmptyString]
  | String c s' =>
      if JS.isSpace c
      then if inRun then splitSpaces true s'
           else EmptyString :: splitSpaces true s'
      else match splitSpaces false s' with
           | piece :: pieces => String c piece :: pieces
           | [] => [String c EmptyString]
           end
  end.

(** The class [.]: any character but a line terminator. *)
Definition isDot (c : ascii) : bool :=
  negb ((nat_of_ascii c =? 10)%nat || (nat_of_ascii c =? 13)%nat).

(** [line.match(/^(\d+)\s+(.+)$/)]: the two groups of a match. *)
Definition matchCountLine (line : string) : option (string * string) :=
  run (Plus (Chr JS.isDigit)) line
      (fun s1 =>
         run (Plus (Chr JS.isSpace)) s1
             (fun s2 =>
                run (Seq (Plus (Chr isDot)) Eos) s2
                    (fun _ =>
                       Some (JS.substring0
                               (String.length line - String.length s1) line,
                             s2)))).

(** [Map<string, number>] *)
Definition Counts : Type := list (string * Z).

Fixpoint countsGet (m : Counts) (k : string) : option Z :=
  match m with
  | [] => None
  | (k', v) :: m' => if String.eqb k' k then Some v else countsGet m' k
  end.

Fixpoint countsSet (m : Counts) (k : string) (v : Z) : Counts :=
  match m with
  | [] => [(k, v)]
  | (k', v') :: m' =>
      if String.eqb k' k then (k, v) :: m' else (k', v') :: countsSet m' k v
  end.

(** The first loop of [getGitChurn]. *)
Definition parseCommitCounts (commitLog : string) : Counts :=
  fold_left
    (fun counts line =>
       match matchCountLine (JS.trim line) with
       | Some (count, path) => countsSet counts path (parseIntOr0 count)
       | None => counts
       end)
    (JS.split newline (JS.trim commitLog)) [].

(** The body of the second loop: the row pushed for a line, if any. *)
Definition parseNumstatLine (commitCounts : Counts)
           (excludePatterns : list string) (line : string)
  : option ChurnRow :=
  let parts := splitSpaces false (JS.trim line) in
  if (List.length parts <? 3)%nat then None
  else
    let adds := parseIntOr0 (nth 0 parts "") in
    let dels := parseIntOr0 (nth 1 parts "") in
    let filePath := String.concat " " (skipn 2 parts) in
    if String.eqb filePath "" then None
    else if existsb (fun ex => JS.includes filePath ex) excludePatterns
    then None
    else Some {| row_path := filePath;
                 row_commits := match countsGet commitCounts filePath with
                                | Some n => n
                                | None => 0%Z
                                end;
                 row_additions := adds;
                 row_deletions := dels;
                 row_churn := (adds + dels)%Z |}.

Fixpoint parseNumstat (commitCounts : Counts) (excludePatterns : list string)
         (lines : list string) : list ChurnRow :=
  match lines with
  | [] => []
  | line :: rest =>
      match parseNumstatLine commitCounts excludePatterns line with
      | Some row => row :: parseNumstat commitCounts excludePatterns rest
      | None => parseNumstat commitCounts excludePatterns rest
      end
  end.

(** [getGitChurn], from the outputs of its two commands on. *)
Definition parseGitChurn (commitLog numstatLog : string)
           (excludePatterns : list string) : list ChurnRow :=
  sortBy (fun a b => (row_churn b - row_churn a)%Z)
         (parseNumstat (parseCommitCounts commitLog) excludePatterns
                       (JS.split newline (JS.trim numstatLog))).



(** ** Sample inputs *)

Definition paymentsRule : FeatureRule :=
  {| rule_id := "payments"; rule_name := "Payments";
     rule_category := "Commerce"; rule_paths := ["/payments/"; "/billing/"] |}.

Definition apiRule : FeatureRule :=
  {| rule_id := "api"; rule_name := "API"; rule_category := "Platform";
     rule_paths := ["/api/"] |}.

Definition catchAllRule : FeatureRule :=
  {| rule_id := "everything"; rule_name := "Everything";
     rule_category := "Misc"; rule_paths := [""] |}.

Definition sampleSymbol (n : string) (kind : SymbolKind) (file feat : string)
  : Symbol :=
  {| sym_name := n; sym_kind := kind; sym_file := file; sym_line := 1%N;
     sym_scope := None; sym_signature := None;
     sym_feature := feat; sym_featureName := feat |}.

Definition chargeSymbol : Symbol :=
  sampleSymbol "charge" KFunction "src/payments/charge.ts" "payments".

Definition ledgerSymbol : Symbol :=
  sampleSymbol "Ledger" KClass "src/payments/ledger.ts" "payments".

Definition sampleChurn (p : string) (c a d : N) : FileChurn :=
  {| file_path := p; file_commits := c; additions := a; deletions := d;
     file_churn := (a + d)%N |}.



Definition sampleEntry (n kind p : string) : CtagsEntry :=
  {| entry_name := n; entry_path := p; entry_line := 1%N;
     entry_kind := kind; entry_scope := None; entry_scopeKind := None;
     entry_pattern := None |}.


(** A stand-in for [path.relative] on paths below the root: the root and
    the separator after it are cut off. *)
Definition relativeBelow (root p : string) : string :=
  JS.drop (String.length root + 1) p.

(** A stand-in for [path.join]. *)
Definition joinBelow (root p : string) : string := root ++ "/" ++ p.

Definition bannerSource : string :=
  "import React from 'react';

export function Banner() { return <div/>; }
".

(** A file system that holds the one component file. *)
Definition bannerFiles (p : string) : option string :=
  if String.eqb p "/repo/src/Banner.tsx" then Some bannerSource else None.

Definition helperEntry : CtagsEntry :=
  sampleEntry "helper" "function" "/repo/src/Banner.tsx".

Definition bannerEntry : CtagsEntry :=
  sampleEntry "Banner" "constant" "/repo/src/Banner.tsx".

Definition sampleOptions : Options :=
  {| opt_repoRoot := "/repo";
     opt_configFile := Some "features.json";
     opt_jsonOut := None;
     opt_since := Some "2024-06-01";
     opt_cliExcludes := ["vendor"; "generated"] |}.


Definition sampleCommitLog : string :=
  "      3 src/payments/charge.ts
      1 README.md
".

Definition sampleNumstatLog : string :=
  "40 2 src/payments/charge.ts
5 5 README.md
7 pnpm-lock.yaml
-  -  logo.png
12 0 vendor/lib.js
".

(** * Properties

    ** Strings and the classifier *)

Unset Implicit Arguments.

Lemma includes_contains (s p : string) :
  JS.includes s p = true <-> JS.contains s p.
Proof.
  unfold JS.contains.
  induction s as [|c s IH]; cbn [JS.includes].
  - rewrite orb_false_r, startsWith_app. split.
    + intros [b Hb]. exists "", b. exact Hb.
    + intros [a [b Hab]]. destruct a; simpl in Hab.
      * now exists b.
      * discriminate.
  - rewrite orb_true_iff, IH, startsWith_app. split.
    + intros [[b Hb] | [a [b Hab]]].
      * exists "", b. exact Hb.
      * exists (String c a), b. simpl. now rewrite Hab.
    + intros [a [b Hab]]. destruct a as [|d a]; simpl in Hab.
      * left. now exists b.
      * right. exists a, b. now inversion Hab.
Qed.

Lemma includes_empty (s : string) : JS.includes s "" = true.
Proof. apply includes_contains. now exists "", s. Qed.

Lemma anyPathIncluded_existsb (n : string) (ps : list string) :
  anyPathIncluded n ps = existsb (JS.includes n) ps.
Proof.
  induction ps as [|p ps IH]; simpl; [reflexivity|].
  rewrite IH. now destruct (JS.includes n p).
Qed.

Lemma anyPathIncluded_matches (n : string) (r : FeatureRule) :
  anyPathIncluded n (rule_paths r) = true <-> ruleMatches n r.
Proof.
  rewrite anyPathIncluded_existsb, existsb_exists. unfold ruleMatches.
  split; intros [p [Hin Hp]]; exists p; split; auto;
    now apply includes_contains.
Qed.

Lemma anyPathIncluded_unmatched (n : string) (r : FeatureRule) :
  anyPathIncluded n (rule_paths r) = false <-> ~ ruleMatches n r.
Proof.
  rewrite <- anyPathIncluded_matches.
  destruct (anyPathIncluded n (rule_paths r)); split; congruence.
Qed.

Lemma classifyLoop_spec (n : string) (features : list FeatureRule) :
  classifyLoop n features = classify_spec n features.
Proof.
  unfold classify_spec.
  induction features as [|f fs IH]; simpl; [reflexivity|].
  rewrite <- anyPathIncluded_existsb.
  destruct (anyPathIncluded n (rule_paths f)); [reflexivity | exact IH].
Qed.

Lemma classifyLoop_first (n : string) (pre post : list FeatureRule)
      (r : FeatureRule) :
  Forall (fun q => ~ ruleMatches n q) pre ->
  ruleMatches n r ->
  classifyLoop n (pre ++ r :: post)%list = refOf r.
Proof.
  intros Hpre Hr. induction Hpre as [|q pre Hq _ IH]; simpl.
  - apply anyPathIncluded_matches in Hr. now rewrite Hr.
  - apply anyPathIncluded_unmatched in Hq. now rewrite Hq.
Qed.

Lemma classifyLoop_none (n : string) (features : list FeatureRule) :
  Forall (fun q => ~ ruleMatches n q) features ->
  classifyLoop n features = sentinel.
Proof.
  induction 1 as [|q fs Hq _ IH]; simpl; [reflexivity|].
  apply anyPathIncluded_unmatched in Hq. now rewrite Hq.
Qed.

(** The classifier returns either a configured rule or the sentinel. *)
Lemma classifyLoop_cases (n : string) (features : list FeatureRule) :
  (exists r, In r features /\ ruleMatches n r /\
             classifyLoop n features = refOf r) \/
  (Forall (fun q => ~ ruleMatches n q) features /\
   classifyLoop n features = sentinel).
Proof.
  induction features as [|f fs IH]; simpl.
  - right. split; [constructor | reflexivity].
  - destruct (anyPathIncluded n (rule_paths f)) eqn:Hf.
    + left. exists f. split; [now left|].
      split; [now apply anyPathIncluded_matches | reflexivity].
    + apply anyPathIncluded_unmatched in Hf.
      destruct IH as [[r [Hin [Hm Heq]]] | [Hall Heq]].
      * left. exists r. split; [now right | now split].
      * right. split; [now constructor | exact Heq].
Qed.

Lemma replaceBackslashes_get (s : string) (i : nat) :
  String.get i (JS.replaceBackslashes s) =
  option_map (fun c => if Ascii.eqb c "092"%char then "/"%char else c)
             (String.get i s).
Proof.
  revert i; induction s as [|c s IH]; intros [|i]; simpl; auto.
Qed.

Lemma classifySymbol_first (relPath : string) (pre post : list FeatureRule)
      (r : FeatureRule) :
  Forall (fun q => ~ ruleMatches (normalize relPath) q) pre ->
  ruleMatches (normalize relPath) r ->
  classifySymbol relPath (pre ++ r :: post)%list = refOf r.
Proof. apply classifyLoop_first. Qed.

(** C2. The classifier is a function of the path and the rule list that
    goes through the rules in declared order and returns the first rule
    one of whose substrings occurs in the normalized path (a ['/'] put in
    front, every backslash turned into ['/']), and the
    ["uncategorized"]/["Unknown"] sentinel when no rule matches; of two
    rules that both match, the one declared first is returned. *)
Theorem C2_classifier_first_match (relPath : string) (fs : list FeatureRule) :
  classifySymbol relPath fs = classify_spec (normalize relPath) fs
  /\ (forall i, String.get i (normalize relPath) =
                match i with
                | O => Some "/"%char
                | S j => option_map
                           (fun c => if Ascii.eqb c "092"%char then "/"%char
                                     else c)
                           (String.get j relPath)
                end)
  /\ (Forall (fun q => ~ ruleMatches (normalize relPath) q) fs ->
      classifySymbol relPath fs = sentinel
      /\ ref_id sentinel = "uncategorized"
      /\ ref_category sentinel = "Unknown")
  /\ (forall pre r post,
        fs = (pre ++ r :: post)%list ->
        Forall (fun q => ~ ruleMatches (normalize relPath) q) pre ->
        ruleMatches (normalize relPath) r ->
        classifySymbol relPath fs = refOf r)
  /\ (forall pre r1 mid r2 post,
        fs = (pre ++ r1 :: mid ++ r2 :: post)%list ->
        Forall (fun q => ~ ruleMatches (normalize relPath) q) pre ->
        ruleMatches (normalize relPath) r1 ->
        ruleMatches (normalize relPath) r2 ->
        ref_id (classifySymbol relPath fs) = rule_id r1).
Proof.
  split; [apply classifyLoop_spec|].
  split.
  { intros [|j]; [reflexivity|]. unfold normalize. simpl.
    apply replaceBackslashes_get. }
  split.
  { intros Hnone. split; [|split; reflexivity].
    now apply classifyLoop_none. }
  split.
  { intros pre r post -> Hpre Hr. now apply classifySymbol_first. }
  intros pre r1 mid r2 post -> Hpre H1 _.
  now rewrite classifySymbol_first.
Qed.

Lemma C2_classifier_first_match_witness :
  ref_id (classifySymbol "src\payments\api\charge.ts" [paymentsRule; apiRule])
  = "payments".
Proof.
  destruct (C2_classifier_first_match "src\payments\api\charge.ts"
              [paymentsRule; apiRule]) as [_ [_ [_ [_ Hoverlap]]]].
  apply (Hoverlap [] paymentsRule [] apiRule []).
  - reflexivity.
  - constructor.
  - exists "/payments/". split; [now left|].
    apply includes_contains. reflexivity.
  - exists "/api/". split; [now left|].
    apply includes_contains. reflexivity.
Defined.

(** ** Catch-all rules *)





(** ** The feature map *)

Lemma get_set (m : Map.t) (k k' : string) (v : FeatureReport) :
  Map.get (Map.set m k v) k' =
  if String.eqb k k' then Some v else Map.get m k'.
Proof.
  induction m as [|[k0 v0] m IH]; simpl.
  - destruct (String.eqb_spec k k') as [->|Hne]; [reflexivity|].
    reflexivity.
  - destruct (String.eqb_spec k0 k) as [->|Hk0]; simpl.
    + destruct (String.eqb k k'); reflexivity.
    + destruct (String.eqb_spec k0 k') as [->|Hk0'].
      * destruct (String.eqb_spec k k') as [->|_]; [congruence|reflexivity].
      * exact IH.
Qed.

Lemma get_set_same (m : Map.t) (k : string) (v : FeatureReport) :
  Map.get (Map.set m k v) k = Some v.
Proof. now rewrite get_set, String.eqb_refl. Qed.

Lemma get_set_other (m : Map.t) (k k' : string) (v : FeatureReport) :
  k <> k' -> Map.get (Map.set m k v) k' = Map.get m k'.
Proof.
  intros Hne. rewrite get_set.
  now destruct (String.eqb_spec k k').
Qed.

Lemma get_In (m : Map.t) (k : string) (r : FeatureReport) :
  Map.get m k = Some r -> In r (Map.values m).
Proof.
  induction m as [|[k0 v0] m IH]; simpl; [discriminate|].
  destruct (String.eqb k0 k).
  - intros [= ->]. now left.
  - intros H. right. now apply IH.
Qed.

Lemma values_set_Forall (P : FeatureReport -> Prop) (m : Map.t)
      (k : string) (v : FeatureReport) :
  Forall P (Map.values m) -> P v -> Forall P (Map.values (Map.set m k v)).
Proof.
  intros Hm Hv. induction m as [|[k0 v0] m IH]; simpl.
  - now constructor.
  - inversion Hm as [|? ? H0 Hrest]; subst.
    destruct (String.eqb k0 k); simpl; constructor; auto.
Qed.

Lemma sum_set_present (f : FeatureReport -> N) (m : Map.t) (k : string)
      (old v : FeatureReport) :
  Map.get m k = Some old ->
  (sumOver f (Map.values (Map.set m k v)) + f old
   = sumOver f (Map.values m) + f v)%N.
Proof.
  induction m as [|[k0 v0] m IH]; simpl; [discriminate|].
  destruct (String.eqb k0 k); simpl.
  - intros [= ->]. lia.
  - intros H. specialize (IH H). lia.
Qed.

Lemma sum_set_absent (f : FeatureReport -> N) (m : Map.t) (k : string)
      (v : FeatureReport) :
  Map.get m k = None ->
  (sumOver f (Map.values (Map.set m k v)) = sumOver f (Map.values m) + f v)%N.
Proof.
  induction m as [|[k0 v0] m IH]; simpl; [intros _; lia|].
  destruct (String.eqb k0 k); simpl; [discriminate|].
  intros H. specialize (IH H). lia.
Qed.

Lemma sumOver_zero (f : FeatureReport -> N) (l : list FeatureReport) :
  Forall (fun r => f r = 0%N) l -> sumOver f l = 0%N.
Proof. induction 1 as [|r l Hr _ IH]; simpl; [reflexivity | lia]. Qed.

(** ** Seeding *)

Lemma fresh_emptyReport (i n c : string) : fresh (emptyReport i n c).
Proof. repeat split. Qed.

Lemma seedRules_Forall (P : FeatureReport -> Prop) (fs : list FeatureRule) :
  (forall i n c, P (emptyReport i n c)) ->
  forall m, Forall P (Map.values m) -> Forall P (Map.values (seedRules fs m)).
Proof.
  intros HP. induction fs as [|f fs IH]; intros m Hm; simpl; [exact Hm|].
  apply IH. now apply values_set_Forall.
Qed.

Lemma seedRules_keeps (fs : list FeatureRule) (k : string) :
  forall m, Map.get m k <> None -> Map.get (seedRules fs m) k <> None.
Proof.
  induction fs as [|f fs IH]; intros m Hm; simpl; [exact Hm|].
  apply IH. rewrite get_set.
  destruct (String.eqb (rule_id f) k); [discriminate | exact Hm].
Qed.

Lemma seedRules_has (fs : list FeatureRule) (r : FeatureRule) :
  In r fs -> forall m, Map.get (seedRules fs m) (rule_id r) <> None.
Proof.
  induction fs as [|f fs IH]; intros Hin m; simpl; [contradiction|].
  destruct Hin as [->|Hin].
  - apply seedRules_keeps. rewrite get_set_same. discriminate.
  - now apply IH.
Qed.

Lemma seedMap_fresh (fs : list FeatureRule) :
  Forall fresh (Map.values (seedMap fs)).
Proof.
  unfold seedMap. apply values_set_Forall; [|apply fresh_emptyReport].
  apply (@seedRules_Forall fresh fs fresh_emptyReport []). constructor.
Qed.

Lemma seedMap_has_rule (fs : list FeatureRule) (r : FeatureRule) :
  In r fs -> Map.get (seedMap fs) (rule_id r) <> None.
Proof.
  intros Hin. unfold seedMap. rewrite get_set.
  destruct (String.eqb "uncategorized" (rule_id r)); [discriminate|].
  now apply (@seedRules_has fs r Hin []).
Qed.

Lemma seedMap_has_uncategorized (fs : list FeatureRule) :
  Map.get (seedMap fs) "uncategorized" <> None.
Proof. unfold seedMap. rewrite get_set_same. discriminate. Qed.

(** ** Aggregation *)

Lemma aggregateStep_same (m : Map.t) (sym : Symbol) :
  Map.get (aggregateStep m sym) (sym_feature sym)
  = Some (countSymbol (sym_kind sym) (bucketBefore m sym)).
Proof.
  unfold aggregateStep, bucketBefore.
  destruct (Map.get m (sym_feature sym)); apply get_set_same.
Qed.

Lemma aggregateStep_other (m : Map.t) (sym : Symbol) (k : string) :
  k <> sym_feature sym -> Map.get (aggregateStep m sym) k = Map.get m k.
Proof.
  intros Hne. unfold aggregateStep.
  destruct (Map.get m (sym_feature sym));
    repeat rewrite get_set_other by congruence; reflexivity.
Qed.

Lemma aggregateStep_get (m : Map.t) (sym : Symbol) (k : string) :
  Map.get (aggregateStep m sym) k =
  if String.eqb (sym_feature sym) k
  then Some (countSymbol (sym_kind sym) (bucketBefore m sym))
  else Map.get m k.
Proof.
  destruct (String.eqb_spec (sym_feature sym) k) as [<-|Hne].
  - apply aggregateStep_same.
  - apply aggregateStep_other. congruence.
Qed.

Lemma countSymbol_kindCounts (kind : SymbolKind) (r : FeatureReport) :
  kindCounts (countSymbol kind r) = (kindCounts r + 1)%N.
Proof. unfold kindCounts. destruct kind; simpl; lia. Qed.

Lemma aggregateStep_sum (m : Map.t) (sym : Symbol) :
  sumOver kindCounts (Map.values (aggregateStep m sym))
  = (sumOver kindCounts (Map.values m) + 1)%N.
Proof.
  unfold aggregateStep.
  destruct (Map.get m (sym_feature sym)) as [r|] eqn:Hget.
  - pose proof (sum_set_present kindCounts m _ _
                  (countSymbol (sym_kind sym) r) Hget) as H.
    rewrite countSymbol_kindCounts in H. lia.
  - set (e := emptyReport _ _ _).
    pose proof (sum_set_absent kindCounts m _ e Hget) as H1.
    pose proof (sum_set_present kindCounts
                  (Map.set m (sym_feature sym) e) (sym_feature sym) e
                  (countSymbol (sym_kind sym) e)
                  (get_set_same m (sym_feature sym) e)) as H2.
    rewrite countSymbol_kindCounts in H2.
    assert (kindCounts e = 0%N) by reflexivity. lia.
Qed.

Lemma aggregate_sum (symbols : list Symbol) :
  forall m, sumOver kindCounts (Map.values (aggregate m symbols))
            = (sumOver kindCounts (Map.values m)
               + N.of_nat (List.length symbols))%N.
Proof.
  unfold aggregate.
  induction symbols as [|sym symbols IH]; intros m; simpl fold_left.
  - simpl. lia.
  - rewrite IH, aggregateStep_sum. simpl List.length. lia.
Qed.

(** A property of buckets that holds of fresh buckets and is kept by the
    increments holds of every bucket after aggregation. *)
Lemma aggregate_Forall (P : FeatureReport -> Prop) :
  (forall i n c, P (emptyReport i n c)) ->
  (forall kind r, P r -> P (countSymbol kind r)) ->
  forall symbols m,
    Forall P (Map.values m) -> Forall P (Map.values (aggregate m symbols)).
Proof.
  intros Hempty Hcount. unfold aggregate.
  induction symbols as [|sym symbols IH]; intros m Hm; simpl; [exact Hm|].
  apply IH. unfold aggregateStep.
  destruct (Map.get m (sym_feature sym)) as [r|] eqn:Hget.
  - apply values_set_Forall; [exact Hm|]. apply Hcount.
    apply get_In in Hget. rewrite Forall_forall in Hm. now apply Hm.
  - repeat apply values_set_Forall; auto.
Qed.

Lemma aggregate_keeps (symbols : list Symbol) (k : string) :
  forall m, Map.get m k <> None -> Map.get (aggregate m symbols) k <> None.
Proof.
  unfold aggregate.
  induction symbols as [|sym symbols IH]; intros m Hm; simpl; [exact Hm|].
  apply IH. rewrite aggregateStep_get.
  destruct (String.eqb (sym_feature sym) k); [discriminate | exact Hm].
Qed.

Lemma classifyAll_length (fs : list FeatureRule) (symbols : list Symbol) :
  List.length (classifyAll fs symbols) = List.length symbols.
Proof. apply length_map. Qed.

(** C1. After aggregation the kind counters of all buckets add up to the
    number of canonical symbols, every bucket has
    [total = functions + methods + classes], and a symbol increments
    exactly one bucket: the bucket of its feature id gains one in its
    total and one in its kind counters, every other bucket is left as it
    was. *)
Theorem C1_aggregation_counts (fs : list FeatureRule)
        (symbols : list Symbol) :
  sumOver kindCounts
          (Map.values (aggregate (seedMap fs) (classifyAll fs symbols)))
  = N.of_nat (List.length symbols)
  /\ sumOver kindCounts (Map.values (aggregate (seedMap fs) symbols))
     = N.of_nat (List.length symbols)
  /\ Forall (fun r => total r = (functions r + methods r + classes r)%N)
            (Map.values (aggregate (seedMap fs) (classifyAll fs symbols)))
  /\ (forall (m : Map.t) (sym : Symbol),
        (forall k, k <> sym_feature sym ->
                   Map.get (aggregateStep m sym) k = Map.get m k)
        /\ (exists r, Map.get (aggregateStep m sym) (sym_feature sym) = Some r
                      /\ total r = (total (bucketBefore m sym) + 1)%N
                      /\ kindCounts r
                         = (kindCounts (bucketBefore m sym) + 1)%N)
        /\ sumOver kindCounts (Map.values (aggregateStep m sym))
           = (sumOver kindCounts (Map.values m) + 1)%N).
Proof.
  assert (Hseed : sumOver kindCounts (Map.values (seedMap fs)) = 0%N).
  { apply sumOver_zero.
    eapply Forall_impl; [|apply seedMap_fresh].
    intros r [Hf [Hm [Hc _]]]. unfold kindCounts. lia. }
  split; [|split; [|split]].
  - rewrite aggregate_sum, Hseed, classifyAll_length. lia.
  - rewrite aggregate_sum, Hseed. lia.
  - apply (@aggregate_Forall
             (fun r => total r = (functions r + methods r + classes r)%N)).
    + reflexivity.
    + intros kind r Hr. destruct kind; simpl; lia.
    + eapply Forall_impl; [|apply seedMap_fresh].
      intros r [Hf [Hm [Hc [Ht _]]]]. lia.
  - intros m sym. split; [|split].
    + intros k Hk. now apply aggregateStep_other.
    + eexists. split; [apply aggregateStep_same|].
      split; [reflexivity | apply countSymbol_kindCounts].
    + apply aggregateStep_sum.
Qed.

Lemma C1_aggregation_counts_witness :
  sumOver kindCounts
          (Map.values (aggregate (seedMap [paymentsRule; apiRule])
                                 (classifyAll [paymentsRule; apiRule]
                                              [chargeSymbol; ledgerSymbol])))
  = 2%N
  /\ Map.get (aggregateStep (seedMap [paymentsRule; apiRule]) chargeSymbol)
             "api"
     = Map.get (seedMap [paymentsRule; apiRule]) "api".
Proof.
  destruct (C1_aggregation_counts [paymentsRule; apiRule]
              [chargeSymbol; ledgerSymbol]) as [Hsum [_ [_ Hstep]]].
  split; [exact Hsum|].
  destruct (Hstep (seedMap [paymentsRule; apiRule]) chargeSymbol)
    as [Hother _].
  apply Hother. discriminate.
Defined.

(** ** Order independence *)

Lemma counters_step (m : Map.t) (sym : Symbol) (k : string) :
  counters (aggregateStep m sym) k =
  if String.eqb (sym_feature sym) k
  then Some
         (let c := match counters m k with
                   | Some c => c
                   | None => (0, 0, 0, 0)%N
                   end in
          match sym_kind sym, c with
          | KFunction, (f, me, cl, t) => (f + 1, me, cl, t + 1)%N
          | KMethod, (f, me, cl, t) => (f, me + 1, cl, t + 1)%N
          | KClass, (f, me, cl, t) => (f, me, cl + 1, t + 1)%N
          end)
  else counters m k.
Proof.
  unfold counters. rewrite aggregateStep_get.
  destruct (String.eqb_spec (sym_feature sym) k) as [<-|Hne];
    [|reflexivity].
  unfold bucketBefore.
  destruct (Map.get m (sym_feature sym)) as [r|]; simpl;
    destruct (sym_kind sym); reflexivity.
Qed.

Lemma aggregate_respects (symbols : list Symbol) :
  forall m1 m2,
    (forall k, counters m1 k = counters m2 k) ->
    forall k, counters (aggregate m1 symbols) k
              = counters (aggregate m2 symbols) k.
Proof.
  unfold aggregate.
  induction symbols as [|sym symbols IH]; intros m1 m2 Heq; simpl;
    [exact Heq|].
  apply IH. intros k. rewrite !counters_step, Heq. reflexivity.
Qed.

Lemma aggregateStep_swap (m : Map.t) (a b : Symbol) (k : string) :
  counters (aggregateStep (aggregateStep m a) b) k
  = counters (aggregateStep (aggregateStep m b) a) k.
Proof.
  rewrite !counters_step.
  destruct (String.eqb (sym_feature a) k), (String.eqb (sym_feature b) k);
    try reflexivity.
  destruct (counters m k) as [[[[f me] cl] t]|];
    destruct (sym_kind a), (sym_kind b); simpl;
    repeat f_equal; lia.
Qed.

(** C8. Aggregation does not depend on the order in which the symbols
    are processed: from the same starting map, a list of classified
    symbols and any permutation of it give every feature id the same
    counters (functions, methods, classes and total). *)
Theorem C8_aggregation_order_independent (m : Map.t)
        (l1 l2 : list Symbol) :
  Permutation l1 l2 ->
  forall k, counters (aggregate m l1) k = counters (aggregate m l2) k.
Proof.
  intros Hperm. revert m.
  induction Hperm as [|x l l' _ IH|x y l|l l' l'' _ IH1 _ IH2]; intros m k.
  - reflexivity.
  - apply (IH (aggregateStep m x)).
  - unfold aggregate. simpl. apply aggregate_respects.
    intros k'. apply aggregateStep_swap.
  - now rewrite IH1.
Qed.

Lemma C8_aggregation_order_independent_witness :
  counters (aggregate (seedMap [paymentsRule]) [chargeSymbol; ledgerSymbol])
           "payments"
  = counters (aggregate (seedMap [paymentsRule]) [ledgerSymbol; chargeSymbol])
             "payments".
Proof.
  apply (C8_aggregation_order_independent (seedMap [paymentsRule])
           [chargeSymbol; ledgerSymbol] [ledgerSymbol; chargeSymbol]).
  apply perm_swap.
Defined.

(** ** Churn overlay *)

Lemma classifySymbol_id (relPath : string) (fs : list FeatureRule) :
  ref_id (classifySymbol relPath fs) = "uncategorized"
  \/ exists r, In r fs /\ ref_id (classifySymbol relPath fs) = rule_id r.
Proof.
  unfold classifySymbol.
  destruct (classifyLoop_cases (normalize relPath) fs)
    as [[r [Hin [_ Heq]]] | [_ Heq]]; rewrite Heq.
  - right. exists r. split; [exact Hin | reflexivity].
  - left. reflexivity.
Qed.

Lemma seedMap_covers (fs : list FeatureRule) : covers fs (seedMap fs).
Proof.
  intros relPath.
  destruct (classifySymbol_id relPath fs) as [-> | [r [Hin ->]]].
  - apply seedMap_has_uncategorized.
  - now apply seedMap_has_rule.
Qed.

Lemma aggregate_covers (fs : list FeatureRule) (symbols : list Symbol)
      (m : Map.t) :
  covers fs m -> covers fs (aggregate m symbols).
Proof. intros Hm relPath. apply aggregate_keeps, Hm. Qed.

Lemma overlayStep_get (fs : list FeatureRule) (m : Map.t) (file : FileChurn)
      (k : string) :
  Map.get (overlayStep fs m file) k =
  match Map.get m (ref_id (classifySymbol (file_path file) fs)) with
  | Some report =>
      if String.eqb (ref_id (classifySymbol (file_path file) fs)) k
      then Some (addChurn file report) else Map.get m k
  | None => Map.get m k
  end.
Proof.
  unfold overlayStep.
  destruct (Map.get m (ref_id (classifySymbol (file_path file) fs)));
    [apply get_set | reflexivity].
Qed.

Lemma overlayStep_keeps (fs : list FeatureRule) (m : Map.t)
      (file : FileChurn) (k : string) :
  Map.get m k <> None -> Map.get (overlayStep fs m file) k <> None.
Proof.
  intros Hk. rewrite overlayStep_get.
  destruct (Map.get m (ref_id (classifySymbol (file_path file) fs)));
    [|exact Hk].
  destruct (String.eqb _ k); [discriminate | exact Hk].
Qed.

Lemma overlay_covers (fs : list FeatureRule) (churnData : list FileChurn) :
  forall m, covers fs m -> covers fs (fold_left (overlayStep fs) churnData m).
Proof.
  induction churnData as [|file churnData IH]; intros m Hm; simpl;
    [exact Hm|].
  apply IH. intros relPath. apply overlayStep_keeps, Hm.
Qed.

Lemma overlayStep_sums (fs : list FeatureRule) (m : Map.t)
      (file : FileChurn) :
  covers fs m ->
  sumOver (fun r => orZero (churn r)) (Map.values (overlayStep fs m file))
  = (sumOver (fun r => orZero (churn r)) (Map.values m) + file_churn file)%N
  /\ sumOver (fun r => orZero (commits r))
             (Map.values (overlayStep fs m file))
     = (sumOver (fun r => orZero (commits r)) (Map.values m)
        + file_commits file)%N.
Proof.
  intros Hm. unfold overlayStep.
  destruct (Map.get m (ref_id (classifySymbol (file_path file) fs)))
    as [r|] eqn:Hget; [|now destruct (Hm (file_path file))].
  pose proof (sum_set_present (fun r => orZero (churn r)) m _ _
                (addChurn file r) Hget) as H1.
  pose proof (sum_set_present (fun r => orZero (commits r)) m _ _
                (addChurn file r) Hget) as H2.
  simpl in H1, H2. split; lia.
Qed.

Lemma overlay_sums (fs : list FeatureRule) (churnData : list FileChurn) :
  forall m,
    covers fs m ->
    sumOver (fun r => orZero (churn r))
            (Map.values (fold_left (overlayStep fs) churnData m))
    = (sumOver (fun r => orZero (churn r)) (Map.values m)
       + totalChurn churnData)%N
    /\ sumOver (fun r => orZero (commits r))
               (Map.values (fold_left (overlayStep fs) churnData m))
       = (sumOver (fun r => orZero (commits r)) (Map.values m)
          + totalCommits churnData)%N.
Proof.
  induction churnData as [|file churnData IH]; intros m Hm; simpl.
  - split; lia.
  - destruct (overlayStep_sums fs m file Hm) as [H1 H2].
    destruct (IH (overlayStep fs m file)) as [H3 H4].
    + intros relPath. apply overlayStep_keeps, Hm.
    + rewrite H3, H4, H1, H2. split; lia.
Qed.

Lemma aggregate_noChurn (fs : list FeatureRule) (symbols : list Symbol) :
  Forall noChurn (Map.values (aggregate (seedMap fs) symbols)).
Proof.
  apply aggregate_Forall.
  - repeat split.
  - intros kind r Hr. exact Hr.
  - eapply Forall_impl; [|apply (seedMap_fresh fs)].
    intros r Hr. unfold fresh in Hr. unfold noChurn.
    unfold seedMap in *. tauto.
Qed.

(** C9. The [continue] of the churn loop is never taken.  The classifier
    returns a configured rule id or ["uncategorized"]; each of these ids
    has a bucket from the seeding on, through aggregation and at every
    point of the churn loop; so every churn record lands in a bucket, and
    the churn and the commits of all buckets add up to those of all
    records. *)
Theorem C9_overlay_bucket_always_present (fs : list FeatureRule)
        (symbols : list Symbol) (churnData : list FileChurn)
        (file : FileChurn) :
  (ref_id (classifySymbol (file_path file) fs) = "uncategorized"
   \/ exists r, In r fs
                /\ ref_id (classifySymbol (file_path file) fs) = rule_id r)
  /\ Map.get (seedMap fs) (ref_id (classifySymbol (file_path file) fs))
     <> None
  /\ Map.get (fold_left (overlayStep fs) churnData
                        (aggregate (seedMap fs) symbols))
             (ref_id (classifySymbol (file_path file) fs)) <> None
  /\ overlayStep fs
       (fold_left (overlayStep fs) churnData (aggregate (seedMap fs) symbols))
       file
     <> fold_left (overlayStep fs) churnData (aggregate (seedMap fs) symbols)
  /\ sumOver (fun r => orZero (churn r))
             (Map.values (fold_left (overlayStep fs) churnData
                                    (aggregate (seedMap fs) symbols)))
     = totalChurn churnData
  /\ sumOver (fun r => orZero (commits r))
             (Map.values (fold_left (overlayStep fs) churnData
                                    (aggregate (seedMap fs) symbols)))
     = totalCommits churnData.
Proof.
  pose proof (aggregate_covers fs symbols (seedMap fs) (seedMap_covers fs))
    as Hcov.
  pose proof (overlay_covers fs churnData _ Hcov) as Hcov'.
  split; [apply classifySymbol_id|].
  split; [apply seedMap_covers|].
  split; [apply Hcov'|].
  split.
  { intros Heq.
    assert (Hget := overlayStep_get fs
                      (fold_left (overlayStep fs) churnData
                                 (aggregate (seedMap fs) symbols))
                      file (ref_id (classifySymbol (file_path file) fs))).
    rewrite Heq in Hget.
    destruct (Map.get _ (ref_id (classifySymbol (file_path file) fs)))
      as [r|] eqn:Hr; [|now apply (Hcov' (file_path file))].
    rewrite String.eqb_refl in Hget. injection Hget as Hget.
    apply (f_equal topFiles) in Hget. simpl in Hget.
    destruct (topFiles r) as [l|]; [|discriminate].
    injection Hget as Hget. apply (f_equal (@List.length _)) in Hget.
    rewrite length_app in Hget. simpl in Hget. lia. }
  destruct (overlay_sums fs churnData _ Hcov) as [H1 H2].
  assert (Hz1 : sumOver (fun r => orZero (churn r))
                        (Map.values (aggregate (seedMap fs) symbols)) = 0%N).
  { apply sumOver_zero. eapply Forall_impl; [|apply aggregate_noChurn].
    intros r [_ [Hc _]]. now rewrite Hc. }
  assert (Hz2 : sumOver (fun r => orZero (commits r))
                        (Map.values (aggregate (seedMap fs) symbols)) = 0%N).
  { apply sumOver_zero. eapply Forall_impl; [|apply aggregate_noChurn].
    intros r [Hc _]. now rewrite Hc. }
  split; [rewrite H1, Hz1 | rewrite H2, Hz2]; lia.
Qed.

Lemma C9_overlay_bucket_always_present_witness :
  Map.get (fold_left (overlayStep [paymentsRule])
                     [sampleChurn "src/payments/charge.ts" 4 60 40]
                     (aggregate (seedMap [paymentsRule]) [chargeSymbol]))
          (ref_id (classifySymbol "README.md" [paymentsRule]))
  <> None.
Proof.
  destruct (C9_overlay_bucket_always_present [paymentsRule] [chargeSymbol]
              [sampleChurn "src/payments/charge.ts" 4 60 40]
              (sampleChurn "README.md" 1 5 5)) as [_ [_ [Hget _]]].
  exact Hget.
Defined.

(** ** Keys are unique *)

Lemma keys_set (m : Map.t) (k : string) (v : FeatureReport) :
  Map.keys (Map.set m k v) =
  match Map.get m k with
  | Some _ => Map.keys m
  | None => (Map.keys m ++ [k])%list
  end.
Proof.
  induction m as [|[k0 v0] m IH]; simpl; [reflexivity|].
  destruct (String.eqb_spec k0 k) as [->|Hne]; simpl; [reflexivity|].
  rewrite IH. now destruct (Map.get m k).
Qed.

Lemma get_None_keys (m : Map.t) (k : string) :
  Map.get m k = None -> ~ In k (Map.keys m).
Proof.
  induction m as [|[k0 v0] m IH]; simpl; [tauto|].
  destruct (String.eqb_spec k0 k) as [->|Hne]; [discriminate|].
  intros H [Heq|Hin]; [congruence | now apply IH].
Qed.

Lemma set_NoDup (m : Map.t) (k : string) (v : FeatureReport) :
  NoDup (Map.keys m) -> NoDup (Map.keys (Map.set m k v)).
Proof.
  intros Hm. rewrite keys_set.
  destruct (Map.get m k) eqn:Hget; [exact Hm|].
  apply get_None_keys in Hget.
  apply NoDup_app; [exact Hm | repeat constructor; simpl; tauto |].
  intros x Hx [<-|[]]. contradiction.
Qed.



Lemma seedRules_NoDup (fs : list FeatureRule) :
  forall m, NoDup (Map.keys m) -> NoDup (Map.keys (seedRules fs m)).
Proof.
  induction fs as [|f fs IH]; intros m Hm; simpl; [exact Hm|].
  apply IH, set_NoDup, Hm.
Qed.

Lemma seedMap_NoDup (fs : list FeatureRule) : NoDup (Map.keys (seedMap fs)).
Proof. apply set_NoDup, seedRules_NoDup. constructor. Qed.

Lemma aggregate_NoDup (symbols : list Symbol) :
  forall m, NoDup (Map.keys m) -> NoDup (Map.keys (aggregate m symbols)).
Proof.
  unfold aggregate.
  induction symbols as [|sym symbols IH]; intros m Hm; simpl; [exact Hm|].
  apply IH. unfold aggregateStep.
  destruct (Map.get m (sym_feature sym)); repeat apply set_NoDup; exact Hm.
Qed.

Lemma overlay_NoDup (fs : list FeatureRule) (churnData : list FileChurn) :
  forall m, NoDup (Map.keys m) ->
            NoDup (Map.keys (fold_left (overlayStep fs) churnData m)).
Proof.
  induction churnData as [|file churnData IH]; intros m Hm; simpl;
    [exact Hm|].
  apply IH. unfold overlayStep.
  destruct (Map.get m _); [apply set_NoDup|]; exact Hm.
Qed.

Lemma keys_scoreAll (m : Map.t) : Map.keys (scoreAll m) = Map.keys m.
Proof.
  unfold scoreAll, Map.keys. rewrite map_map. reflexivity.
Qed.

Lemma get_scoreAll (m : Map.t) (k : string) :
  Map.get (scoreAll m) k = option_map scoreReport (Map.get m k).
Proof.
  induction m as [|[k0 v0] m IH]; simpl; [reflexivity|].
  destruct (String.eqb k0 k); [reflexivity | exact IH].
Qed.

(** ** Hotspot scores *)


Lemma truthyNum_pos (x : option N) :
  truthyNum x = true <-> (0 < orZero x)%N.
Proof.
  destruct x as [n|]; simpl.
  - rewrite negb_true_iff, N.eqb_neq. lia.
  - split; [discriminate | lia].
Qed.





(** ** Sorting *)

Section SortBy.

Variable A : Type.
Variable cmp : A -> A -> Z.

Lemma insertBy_perm (x : A) (l : list A) :
  Permutation (insertBy cmp x l) (x :: l).
Proof.
  induction l as [|y l IH]; simpl; [reflexivity|].
  destruct (cmp x y <=? 0)%Z; [reflexivity|].
  rewrite IH. apply perm_swap.
Qed.

Lemma sortBy_perm (l : list A) : Permutation (sortBy cmp l) l.
Proof.
  induction l as [|x l IH]; simpl; [reflexivity|].
  rewrite insertBy_perm. now constructor.
Qed.

(** When the comparator is the difference of a key, larger key first,
    the result is in descending order of the key. *)
Variable key : A -> Z.

Lemma insertBy_sorted (x : A) (l : list A) :
  (forall b, In b l -> cmp x b = (key b - key x)%Z) ->
  StronglySorted (fun a b => (key b <= key a)%Z) l ->
  StronglySorted (fun a b => (key b <= key a)%Z) (insertBy cmp x l).
Proof.
  intros Hcmp Hsorted.
  induction Hsorted as [|y l Hl IH Hy]; simpl.
  - repeat constructor.
  - destruct (Z.leb_spec (cmp x y) 0) as [Hle|Hgt];
      rewrite (Hcmp y (or_introl eq_refl)) in *.
    + constructor; [now constructor|].
      constructor; [lia|].
      rewrite Forall_forall in *. intros b Hb. specialize (Hy b Hb). lia.
    + constructor.
      * apply IH. intros b Hb. apply Hcmp. now right.
      * apply (Permutation_Forall (Permutation_sym (insertBy_perm x l))).
        constructor; [lia | exact Hy].
Qed.

Lemma sortBy_sorted (l : list A) :
  (forall a b, In a l -> In b l -> cmp a b = (key b - key a)%Z) ->
  StronglySorted (fun a b => (key b <= key a)%Z) (sortBy cmp l).
Proof.
  induction l as [|x l IH]; intros Hcmp; simpl; [constructor|].
  apply insertBy_sorted.
  - intros b Hb. apply Hcmp; [now left | right].
    now apply (Permutation_in _ (sortBy_perm l)).
  - apply IH. intros a b Ha Hb. apply Hcmp; now right.
Qed.

End SortBy.

(** ** Ranking *)

Lemma presentable_iff (r : FeatureReport) :
  presentable r = true <-> (0 < total r)%N \/ (0 < orZero (churn r))%N.
Proof.
  unfold presentable.
  rewrite orb_true_iff, andb_true_iff, !N.ltb_lt, truthyNum_pos. tauto.
Qed.


Lemma compareReports_totals (since : option string) (a b : FeatureReport) :
  JS.truthy since = false \/ hotspotScore a = None \/ hotspotScore b = None ->
  compareReports since a b = (Z.of_N (total b) - Z.of_N (total a))%Z.
Proof.
  unfold compareReports. intros [Hs | [Ha | Hb]].
  - now rewrite Hs.
  - rewrite Ha. now destruct (JS.truthy since).
  - rewrite Hb. now destruct (JS.truthy since), (hotspotScore a).
Qed.



(** ** Coverage rate *)

Lemma overlay_total (fs : list FeatureRule) (k : string)
      (churnData : list FileChurn) :
  forall m,
    option_map total (Map.get (fold_left (overlayStep fs) churnData m) k)
    = option_map total (Map.get m k).
Proof.
  induction churnData as [|file churnData IH]; intros m; simpl;
    [reflexivity|].
  rewrite IH, overlayStep_get.
  destruct (Map.get m (ref_id (classifySymbol (file_path file) fs)))
    as [rep|] eqn:Hrep; [|reflexivity].
  destruct (String.eqb_spec (ref_id (classifySymbol (file_path file) fs)) k)
    as [<-|Hne]; [|reflexivity].
  now rewrite Hrep.
Qed.

Lemma churnOverlay_uncatCount (fs : list FeatureRule)
      (churnData : list FileChurn) (m : Map.t) :
  uncatCount (churnOverlay fs churnData m) = uncatCount m.
Proof.
  unfold uncatCount, churnOverlay. rewrite get_scoreAll.
  pose proof (overlay_total fs "uncategorized" churnData m) as H.
  destruct (Map.get (fold_left (overlayStep fs) churnData m) "uncategorized"),
    (Map.get m "uncategorized"); simpl in *; congruence.
Qed.

Lemma seedMap_uncatCount (fs : list FeatureRule) :
  uncatCount (seedMap fs) = 0%N.
Proof. unfold uncatCount, seedMap. now rewrite get_set_same. Qed.

Example coverage_3_of_10 : coveragePct 3 10 = Some "70.0".
Proof. vm_compute. reflexivity. Qed.

Lemma coverage_of_nothing : coveragePct 0 0 = Some "NaN".
Proof. vm_compute. reflexivity. Qed.

(** C4 asks that a run with no canonical symbol be handled in the
    coverage rate.  The program divides by the number of symbols without
    a guard: when filtering leaves no symbol, the quotient is [0 / 0],
    and the coverage rate handed to the report is the text ["NaN%"]. *)
Theorem C4_zero_symbols_coverage_is_NaN
        (path_relative path_join : string -> string -> string)
        (readFileSync : string -> option string)
        (getGitChurn : string -> string -> list string -> list FileChurn)
        (absRoot : string) (config : FeatureConfig) (since : option string)
        (cliExcludes : list string) (rawEntries : list CtagsEntry) :
  filterSymbols path_relative path_join readFileSync rawEntries absRoot = [] ->
  coverageRate (main path_relative path_join readFileSync getGitChurn
                     absRoot config since cliExcludes rawEntries)
  = Some "NaN%"
  /\ out_symbols (main path_relative path_join readFileSync getGitChurn
                       absRoot config since cliExcludes rawEntries) = 0%N.
Proof.
  intros Hnone. unfold main. rewrite Hnone. simpl classifyAll.
  simpl List.length. cbn [coverageRate out_symbols].
  split; [|reflexivity].
  assert (Huncat :
            uncatCount
              match since with
              | Some (String c w) =>
                  churnOverlay (features config)
                    (getGitChurn absRoot (String c w)
                                 (excludeChurn config ++ cliExcludes)%list)
                    (aggregate (seedMap (features config)) [])
              | _ => aggregate (seedMap (features config)) []
              end = 0%N).
  { destruct since as [[|c w]|]; simpl aggregate;
      try rewrite churnOverlay_uncatCount; apply seedMap_uncatCount. }
  rewrite Huncat. change (N.of_nat 0) with 0%N.
  now rewrite coverage_of_nothing.
Qed.

Lemma C4_zero_symbols_coverage_is_NaN_witness :
  coverageRate (main (fun _ p => p) (fun _ p => p) (fun _ => None)
                     (fun _ _ _ => []) "/repo"
                     {| conf_name := "default"; excludePaths := [];
                        excludeChurn := []; features := [] |}
                     None [] [])
  = Some "NaN%".
Proof.
  apply (C4_zero_symbols_coverage_is_NaN
           (fun _ p => p) (fun _ p => p) (fun _ => None) (fun _ _ _ => [])
           "/repo"
           {| conf_name := "default"; excludePaths := [];
              excludeChurn := []; features := [] |}
           None [] []).
  reflexivity.
Defined.

(** ** Name patterns *)






Lemma setHas_In (set : list string) (x : string) :
  setHas set x = true <-> In x set.
Proof.
  unfold setHas. rewrite existsb_exists. split.
  - intros [y [Hin Heq]]. apply String.eqb_eq in Heq. now subst.
  - intros Hin. exists x. split; [exact Hin | apply String.eqb_refl].
Qed.

(** ** The first pass *)

Section FirstPass.

Variable path_relative : string -> string -> string.
Variable repoRoot : string.




End FirstPass.




(** ** The orphan scan *)

Lemma split_length (sep : ascii) (s : string) :
  List.length (JS.split sep s) = S (JS.count sep s).
Proof.
  induction s as [|c s IH]; simpl; [reflexivity|].
  destruct (Ascii.eqb c sep); simpl; [now rewrite IH|].
  destruct (JS.split sep s); simpl in *; [discriminate | exact IH].
Qed.

Lemma lineOf_count (src : string) (index : nat) :
  lineOf src index
  = N.of_nat (1 + JS.count newline (JS.substring0 index src)).
Proof. unfold lineOf. now rewrite split_length. Qed.

Lemma alreadyCaptured_In (relFile n : string) (symbols : list Symbol) :
  alreadyCaptured relFile n symbols = true
  <-> In (relFile, n) (List.map symKey symbols).
Proof.
  unfold alreadyCaptured. rewrite existsb_exists, in_map_iff.
  split; intros [s [H1 H2]]; exists s.
  - apply andb_true_iff in H2. destruct H2 as [Hf Hn].
    apply String.eqb_eq in Hf, Hn. unfold symKey. split; congruence.
  - split; [exact H2|]. unfold symKey in H1. injection H1 as -> ->.
    now rewrite !String.eqb_refl.
Qed.

Lemma scanLoop_step (relFile src rest : string) (symbols : list Symbol) :
  scanLoop relFile src rest symbols =
  match exportSearch rest with
  | None => symbols
  | Some (i, (s1, s2)) =>
      scanLoop relFile src s2
        (pushOrphan relFile src
           (String.length src - String.length rest + i)
           (JS.substring0 (String.length s1 - String.length s2) s1)
           (JS.substring0 (String.length rest - i - String.length s2)
                          (JS.drop i rest))
           symbols)
  end.
Proof.
  rewrite scanLoop_equation_1. unfold inspect.
  generalize (@eq_refl _ (exportSearch rest)).
  generalize (exportSearch rest) at 2 4 5.
  intros [[i [s1 s2]]|] e; simp scanLoop; reflexivity.
Qed.

Lemma scanLoop_spec (relFile src : string) (n : nat) :
  forall rest symbols,
    (String.length rest <= n)%nat ->
    exists added,
      scanLoop relFile src rest symbols = (symbols ++ added)%list
      /\ scanned relFile src rest symbols added.
Proof.
  induction n as [|n IH]; intros rest symbols Hlen;
    rewrite scanLoop_step;
    destruct (exportSearch rest) as [[i [s1 s2]]|] eqn:Hsearch.
  - apply exportSearch_progress in Hsearch. lia.
  - exists []. rewrite app_nil_r. split; [reflexivity|].
    repeat split; try constructor.
    + intros s [].
    + intros index nm H. inversion H; congruence.
  - pose proof (exportSearch_progress _ Hsearch) as [Hlt Hle].
    set (index := (String.length src - String.length rest + i)%nat).
    set (nm := JS.substring0 (String.length s1 - String.length s2) s1).
    set (matched := JS.substring0 _ _).
    assert (Hhere : ExecFinds src rest index nm)
      by (apply finds_here with (s1 := s1) (s2 := s2); exact Hsearch).
    unfold pushOrphan.
    destruct (alreadyCaptured relFile nm symbols) eqn:Hcap.
    + destruct (IH s2 symbols ltac:(lia))
        as [added [Heq [Hall [Hnd [Hnew Hcomplete]]]]].
      exists added. split; [exact Heq|].
      split; [|split; [exact Hnd | split; [exact Hnew|]]].
      * eapply Forall_impl; [|exact Hall].
        intros s [Hk [Hf [ix [Hfind Hline]]]].
        split; [exact Hk|]. split; [exact Hf|]. exists ix.
        split; [|exact Hline]. eapply finds_later; [exact Hsearch | exact Hfind].
      * intros ix n0 Hfind. inversion Hfind as [? ? ? ? Hs|? ? ? ? ? ? Hs Hrest];
          subst; rewrite Hsearch in Hs; injection Hs as <- <- <-.
        -- rewrite map_app. apply in_or_app. left.
           now apply alreadyCaptured_In.
        -- exact (Hcomplete _ _ Hrest).
    + set (o := {| sym_name := nm; sym_kind := KFunction;
                   sym_file := relFile; sym_line := lineOf src index;
                   sym_scope := None;
                   sym_signature := Some (JS.trim matched);
                   sym_feature := ""; sym_featureName := "" |}).
      destruct (IH s2 (symbols ++ [o])%list ltac:(lia))
        as [added [Heq [Hall [Hnd [Hnew Hcomplete]]]]].
      exists (o :: added). split.
      { rewrite Heq, <- app_assoc. reflexivity. }
      assert (Hfresh : ~ In (relFile, nm) (List.map symKey symbols)).
      { intros Hin. apply alreadyCaptured_In in Hin. congruence. }
      split; [|split; [|split]].
      * constructor.
        -- split; [reflexivity|]. split; [reflexivity|].
           exists index. split; [exact Hhere | reflexivity].
        -- eapply Forall_impl; [|exact Hall].
           intros s [Hk [Hf [ix [Hfind Hline]]]].
           split; [exact Hk|]. split; [exact Hf|]. exists ix.
           split; [|exact Hline]. eapply finds_later; [exact Hsearch | exact Hfind].
      * simpl. constructor; [|exact Hnd].
        intros Hin. apply in_map_iff in Hin. destruct Hin as [s [Hs Hin]].
        apply (Hnew s Hin). rewrite Hs, map_app. apply in_or_app.
        right. now left.
      * intros s [<- | Hin]; [exact Hfresh|].
        intros Hk. apply (Hnew s Hin). rewrite map_app.
        apply in_or_app. now left.
      * intros ix n0 Hfind.
        inversion Hfind as [? ? ? ? Hs|? ? ? ? ? ? Hs Hrest];
          subst; rewrite Hsearch in Hs; injection Hs as <- <- <-.
        -- rewrite map_app. apply in_or_app. right. now left.
        -- specialize (Hcomplete _ _ Hrest).
           rewrite <- app_assoc in Hcomplete. exact Hcomplete.
  - exists []. rewrite app_nil_r. split; [reflexivity|].
    repeat split; try constructor.
    + intros s [].
    + intros index nm H. inversion H; congruence.
Qed.

Lemma drop_add (a b : string) (i : nat) :
  JS.drop (String.length a + i) (a ++ b) = JS.drop i b.
Proof.
  induction a as [|c a IH]; simpl; [reflexivity | exact IH].
Qed.

Lemma substring0_app (a b : string) :
  JS.substring0 (String.length a) (a ++ b) = a.
Proof.
  induction a as [|c a IH]; simpl; [now destruct b | now rewrite IH].
Qed.

(** A match found by the loop is a match of the export expression at its
    offset in the file, and the name is the text of the capture group. *)
Lemma ExecFinds_at (src rest : string) (index : nat) (n : string) :
  ExecFinds src rest index n ->
  (exists pre, src = pre ++ rest) ->
  exists s1 s2,
    exportAt (JS.drop index src) = Some (s1, s2) /\ s1 = n ++ s2.
Proof.
  induction 1 as [rest i s1 s2 Hsearch | rest i s1 s2 index n Hsearch _ IH];
    intros [pre Hpre].
  - apply exportSearch_found in Hsearch.
    destruct Hsearch as [Hat _].
    exists s1, s2. subst src. rewrite string_app_length.
    replace (String.length pre + String.length rest - String.length rest)%nat
      with (String.length pre) by lia.
    rewrite drop_add. split; [exact Hat|].
    apply exportAt_suffix in Hat.
    destruct Hat as [head [c [nm [_ [Hs1 _]]]]].
    subst s1. rewrite string_app_length.
    replace (String.length (String c nm) + String.length s2
             - String.length s2)%nat
      with (String.length (String c nm)) by lia.
    now rewrite substring0_app.
  - apply IH. apply exportSearch_found in Hsearch.
    destruct Hsearch as [_ [[pre' Hpre'] _]].
    exists (pre ++ pre'). now rewrite Hpre, Hpre', string_app_assoc.
Qed.

Section OrphanScan.

Variable path_relative : string -> string -> string.
Variable path_join : string -> string -> string.
Variable readFileSync : string -> option string.
Variable repoRoot : string.

Lemma collectTsxFiles_In (entries : list CtagsEntry) :
  forall acc f,
    In f (collectTsxFiles path_relative repoRoot entries acc)
    <-> In f acc
        \/ exists e, In e entries
                     /\ f = path_relative repoRoot (entry_path e)
                     /\ (JS.endsWith f ".tsx" = true
                         \/ JS.endsWith f ".jsx" = true).
Proof.
  induction entries as [|e entries IH]; intros acc f; simpl.
  - split; [now left | intros [H | [e [[] _]]]; exact H].
  - set (rel := path_relative repoRoot (entry_path e)).
    destruct ((JS.endsWith rel ".tsx" || JS.endsWith rel ".jsx")
              && negb (setHas acc rel)) eqn:Hadd.
    + rewrite IH, in_app_iff. simpl.
      apply andb_true_iff in Hadd. destruct Hadd as [Hext _].
      apply orb_true_iff in Hext. split.
      * intros [[H | [<- | []]] | [e' [Hin H]]]; auto.
        -- right. exists e. auto.
        -- right. exists e'. auto.
      * intros [H | [e' [[<- | Hin] H]]]; auto.
        -- left. right. left. symmetry. apply H.
        -- right. exists e'. auto.
    + rewrite IH. split.
      * intros [H | [e' [Hin H]]]; auto. right. exists e'. auto.
      * intros [H | [e' [[<- | Hin] [Hf Hext]]]]; auto.
        -- left. fold rel in Hf. subst f.
           apply orb_true_iff in Hext.
           rewrite Hext in Hadd. simpl in Hadd.
           apply negb_false_iff in Hadd. now apply setHas_In.
        -- right. exists e'. auto.
Qed.

Lemma collectTsxFiles_NoDup (entries : list CtagsEntry) :
  forall acc, NoDup acc ->
              NoDup (collectTsxFiles path_relative repoRoot entries acc).
Proof.
  induction entries as [|e entries IH]; intros acc Hacc; simpl;
    [exact Hacc|].
  set (rel := path_relative repoRoot (entry_path e)).
  destruct ((JS.endsWith rel ".tsx" || JS.endsWith rel ".jsx")
            && negb (setHas acc rel)) eqn:Hadd; [|now apply IH].
  apply IH. apply andb_true_iff in Hadd. destruct Hadd as [_ Hnew].
  apply negb_true_iff in Hnew.
  apply NoDup_app; [exact Hacc | repeat constructor; simpl; tauto|].
  intros x Hx [<- | []]. apply setHas_In in Hx. congruence.
Qed.

Lemma orphanOf_more (f : string) (files : list string) (s : Symbol) :
  orphanOf path_join readFileSync repoRoot files s ->
  orphanOf path_join readFileSync repoRoot (f :: files) s.
Proof.
  intros [Hk [Hin Hrest]]. split; [exact Hk|]. split; [now right|].
  exact Hrest.
Qed.

Lemma secondPass_spec (files : list string) :
  forall symbols,
  exists added,
    secondPass path_join readFileSync repoRoot files symbols
    = (symbols ++ added)%list
    /\ Forall (orphanOf path_join readFileSync repoRoot files) added
    /\ NoDup (List.map symKey added)
    /\ (forall s, In s added -> ~ In (symKey s) (List.map symKey symbols))
    /\ (forall f src index n,
          In f files ->
          readFileSync (path_join repoRoot f) = Some src ->
          ExecFinds src src index n ->
          In (f, n) (List.map symKey (symbols ++ added)%list)).
Proof.
  induction files as [|f files IH]; intros symbols.
  - exists []. rewrite app_nil_r. split; [reflexivity|].
    repeat split; try constructor.
    + intros s [].
    + intros f src index n [].
  - unfold secondPass. simpl fold_left. fold (secondPass path_join
      readFileSync repoRoot files
      (scanFile path_join readFileSync repoRoot f symbols)).
    assert (Hscan : exists a1,
               scanFile path_join readFileSync repoRoot f symbols
               = (symbols ++ a1)%list
               /\ Forall (orphanOf path_join readFileSync repoRoot
                                   (f :: files)) a1
               /\ NoDup (List.map symKey a1)
               /\ (forall s, In s a1 ->
                             ~ In (symKey s) (List.map symKey symbols))
               /\ (forall src index n,
                     readFileSync (path_join repoRoot f) = Some src ->
                     ExecFinds src src index n ->
                     In (f, n) (List.map symKey (symbols ++ a1)%list))).
    { unfold scanFile.
      destruct (readFileSync (path_join repoRoot f)) as [src|] eqn:Hread.
      - destruct (scanLoop_spec f src (String.length src) src symbols
                    (le_n _)) as [a1 [Heq [Hall [Hnd [Hnew Hcomplete]]]]].
        exists a1. split; [exact Heq|].
        split; [|split; [exact Hnd | split; [exact Hnew|]]].
        + eapply Forall_impl; [|exact Hall].
          intros s [Hk [Hf [index [Hfind Hline]]]].
          split; [exact Hk|]. split; [left; congruence|].
          exists src, index. rewrite Hf. split; [exact Hread|].
          split; [exact Hfind|]. now rewrite Hline, lineOf_count.
        + intros src' index n [= <-]. apply Hcomplete.
      - exists []. rewrite app_nil_r. split; [reflexivity|].
        repeat split; try constructor.
        + intros s [].
        + intros src index n H. discriminate. }
    destruct Hscan as [a1 [Heq1 [Hall1 [Hnd1 [Hnew1 Hcomplete1]]]]].
    rewrite Heq1.
    destruct (IH (symbols ++ a1)%list)
      as [a2 [Heq2 [Hall2 [Hnd2 [Hnew2 Hcomplete2]]]]].
    exists (a1 ++ a2)%list. split.
    { rewrite Heq2, app_assoc. reflexivity. }
    split; [|split; [|split]].
    + apply Forall_app. split; [exact Hall1|].
      eapply Forall_impl; [|exact Hall2]. intros s. apply orphanOf_more.
    + rewrite map_app. apply NoDup_app; [exact Hnd1 | exact Hnd2 |].
      intros k Hk1 Hk2. apply in_map_iff in Hk2.
      destruct Hk2 as [s [<- Hs]]. apply (Hnew2 s Hs).
      rewrite map_app. apply in_or_app. now right.
    + intros s Hs. apply in_app_or in Hs. destruct Hs as [Hs | Hs].
      * now apply Hnew1.
      * intros Hk. apply (Hnew2 s Hs). rewrite map_app.
        apply in_or_app. now left.
    + intros f' src index n [<- | Hin] Hread Hfind.
      * specialize (Hcomplete1 src index n Hread Hfind).
        rewrite app_assoc, map_app. apply in_or_app. now left.
      * specialize (Hcomplete2 f' src index n Hin Hread Hfind).
        now rewrite app_assoc.
Qed.

End OrphanScan.

(** C6. The orphan scan appends to the symbols of the first pass, and
    touches nothing else.  The files it reads are the [.tsx] and [.jsx]
    files of the raw entries.  Every symbol it appends is a function of
    one of these files, named by a match of the export expression in the
    text of the file, on line one plus the number of newlines before the
    offset of the match, and its (file, name) pair was not present before:
    the appended pairs are distinct from each other and from those of the
    first pass.  Every match in a readable file ends up with a symbol of
    its (file, name) pair.  So a component file with
    [export function Banner() {...}] that the extractor missed yields one
    function named ["Banner"] on its line, and none when the extractor
    reported ["Banner"] as a constant. *)
Theorem C6_orphan_scanner
        (path_relative path_join : string -> string -> string)
        (readFileSync : string -> option string)
        (entries : list CtagsEntry) (repoRoot : string) :
  (exists added,
      filterSymbols path_relative path_join readFileSync entries repoRoot
      = (firstPass path_relative repoRoot entries ++ added)%list
      /\ Forall (orphanOf path_join readFileSync repoRoot
                          (collectTsxFiles path_relative repoRoot entries []))
                added
      /\ NoDup (List.map symKey added)
      /\ (forall s, In s added ->
                    ~ In (symKey s)
                         (List.map symKey
                                   (firstPass path_relative repoRoot entries))))
  /\ (forall f,
        In f (collectTsxFiles path_relative repoRoot entries [])
        <-> exists e, In e entries
                      /\ f = path_relative repoRoot (entry_path e)
                      /\ (JS.endsWith f ".tsx" = true
                          \/ JS.endsWith f ".jsx" = true))
  /\ (forall f src index n,
        In f (collectTsxFiles path_relative repoRoot entries []) ->
        readFileSync (path_join repoRoot f) = Some src ->
        ExecFinds src src index n ->
        In (f, n)
           (List.map symKey
                     (filterSymbols path_relative path_join readFileSync
                                    entries repoRoot)))
  /\ (forall src index n,
        ExecFinds src src index n ->
        exists s1 s2,
          exportAt (JS.drop index src) = Some (s1, s2) /\ s1 = n ++ s2)
  /\ List.map (fun s => (sym_name s, sym_kind s, sym_line s))
              (filterSymbols relativeBelow joinBelow bannerFiles
                             [helperEntry] "/repo")
     = [("helper", KFunction, 1%N); ("Banner", KFunction, 3%N)]
  /\ List.map (fun s => (sym_name s, sym_kind s, sym_line s))
              (filterSymbols relativeBelow joinBelow bannerFiles
                             [helperEntry; bannerEntry] "/repo")
     = [("helper", KFunction, 1%N); ("Banner", KFunction, 1%N)].
Proof.
  unfold filterSymbols.
  destruct (secondPass_spec path_join readFileSync repoRoot
              (collectTsxFiles path_relative repoRoot entries [])
              (firstPass path_relative repoRoot entries))
    as [added [Heq [Hall [Hnd [Hnew Hcomplete]]]]].
  split.
  { exists added. repeat split; assumption. }
  split.
  { intros f. rewrite collectTsxFiles_In. simpl. tauto. }
  split.
  { intros f src index n Hf Hread Hfind. rewrite Heq.
    now apply (Hcomplete f src index n). }
  split.
  { intros src index n Hfind.
    apply (ExecFinds_at src src index n Hfind). now exists "". }
  split; vm_compute; reflexivity.
Qed.

Lemma C6_orphan_scanner_witness :
  exists added,
    filterSymbols relativeBelow joinBelow bannerFiles [helperEntry] "/repo"
    = (firstPass relativeBelow "/repo" [helperEntry] ++ added)%list
    /\ NoDup (List.map symKey added).
Proof.
  destruct (C6_orphan_scanner relativeBelow joinBelow bannerFiles
              [helperEntry] "/repo")
    as [[added [Heq [_ [Hnd _]]]] _].
  exists added. split; [exact Heq | exact Hnd].
Defined.


(** * Further properties of the program *)

(** ** Classification *)

Lemma replaceBackslashes_idem (s : string) :
  JS.replaceBackslashes (JS.replaceBackslashes s) = JS.replaceBackslashes s.
Proof.
  induction s as [|c s IH]; simpl; [reflexivity|].
  rewrite IH. destruct (Ascii.eqb c "092"%char) eqn:Hc; [reflexivity|].
  now rewrite Hc.
Qed.

(** X1. Paths that differ only in the separator, backslash or slash, are
    classified alike, under every rule list. *)
Theorem classifySymbol_separator_blind (p q : string)
        (fs : list FeatureRule) :
  JS.replaceBackslashes p = JS.replaceBackslashes q ->
  classifySymbol p fs = classifySymbol q fs
  /\ classifySymbol (JS.replaceBackslashes p) fs = classifySymbol p fs.
Proof.
  intros Hpq. unfold classifySymbol, normalize.
  now rewrite replaceBackslashes_idem, Hpq.
Qed.

Lemma classifySymbol_separator_blind_witness :
  classifySymbol "src\api\users.ts" [paymentsRule; apiRule]
  = classifySymbol "src/api\users.ts" [paymentsRule; apiRule].
Proof.
  apply (classifySymbol_separator_blind "src\api\users.ts"
           "src/api\users.ts" [paymentsRule; apiRule]).
  reflexivity.
Defined.

(** X2. Rules appended to a rule list are consulted only for the paths
    that no earlier rule matches: a path matched by the list keeps its
    classification, any other path is classified by the appended rules
    alone. *)
Theorem classifySymbol_appended_rules (p : string)
        (fs gs : list FeatureRule) :
  ((exists r, In r fs /\ ruleMatches (normalize p) r) ->
   classifySymbol p (fs ++ gs)%list = classifySymbol p fs)
  /\ (Forall (fun r => ~ ruleMatches (normalize p) r) fs ->
      classifySymbol p (fs ++ gs)%list = classifySymbol p gs).
Proof.
  unfold classifySymbol. split.
  - intros [r [Hin Hr]].
    induction fs as [|f fs IH]; simpl; [contradiction|].
    destruct (anyPathIncluded (normalize p) (rule_paths f)) eqn:Hf;
      [reflexivity|].
    apply IH. destruct Hin as [-> | Hin]; [|exact Hin].
    apply anyPathIncluded_matches in Hr. congruence.
  - induction 1 as [|f fs Hf _ IH]; simpl; [reflexivity|].
    apply anyPathIncluded_unmatched in Hf. now rewrite Hf.
Qed.

Lemma classifySymbol_appended_rules_witness :
  classifySymbol "src/payments/charge.ts" ([paymentsRule] ++ [catchAllRule])
  = classifySymbol "src/payments/charge.ts" [paymentsRule]
  /\ classifySymbol "docs/guide.md" ([paymentsRule] ++ [catchAllRule])
     = classifySymbol "docs/guide.md" [catchAllRule].
Proof.
  destruct (classifySymbol_appended_rules "src/payments/charge.ts"
              [paymentsRule] [catchAllRule]) as [Hkept _].
  destruct (classifySymbol_appended_rules "docs/guide.md"
              [paymentsRule] [catchAllRule]) as [_ Hnew].
  split.
  - apply Hkept. exists paymentsRule. split; [now left|].
    exists "/payments/". split; [now left|].
    apply includes_contains. reflexivity.
  - apply Hnew. constructor; [|constructor].
    intros [s [[<- | [<- | []]] Hs]]; apply includes_contains in Hs;
      discriminate.
Defined.

(** ** The first pass *)

(** X3. How the first pass maps kinds, for an entry whose name passes the
    noise test: [function] and [generator] become functions, [method]
    becomes a method, [class] and [object] become classes, and every kind
    other than these and [constant] is dropped; a symbol that is kept
    copies the name, the line and the scope of its entry, has the path
    relative to the root as its file, and no feature yet. *)
Theorem keepEntry_kind_mapping
        (path_relative : string -> string -> string) (repoRoot : string)
        (e : CtagsEntry) :
  ~ In (entry_name e) NOISE_NAMES ->
  ~ (exists rest, entry_name e = "__" ++ rest) ->
  (In (entry_kind e) FUNCTION_KINDS ->
   option_map sym_kind (keepEntry path_relative repoRoot e) = Some KFunction)
  /\ (In (entry_kind e) METHOD_KINDS ->
      option_map sym_kind (keepEntry path_relative repoRoot e) = Some KMethod)
  /\ (In (entry_kind e) CLASS_KINDS ->
      option_map sym_kind (keepEntry path_relative repoRoot e) = Some KClass)
  /\ (~ In (entry_kind e)
           (FUNCTION_KINDS ++ METHOD_KINDS ++ CLASS_KINDS ++ ["constant"])%list ->
      keepEntry path_relative repoRoot e = None)
  /\ (forall s, keepEntry path_relative repoRoot e = Some s ->
                sym_name s = entry_name e /\ sym_line s = entry_line e
                /\ sym_scope s = entry_scope e
                /\ sym_file s = path_relative repoRoot (entry_path e)
                /\ sym_feature s = "" /\ sym_featureName s = "").
Proof.
  intros Hnoise Hdunder. unfold keepEntry.
  destruct (setHas NOISE_NAMES (entry_name e)) eqn:E1;
    [now apply setHas_In in E1|].
  destruct (JS.startsWith (entry_name e) "__") eqn:E2;
    [now apply startsWith_app in E2|].
  unfold normalizedKind.
  split; [|split; [|split; [|split]]].
  - intros Hk. apply setHas_In in Hk. now rewrite Hk.
  - intros Hk. simpl in Hk. destruct Hk as [<- | []]. reflexivity.
  - intros Hk. simpl in Hk. destruct Hk as [<- | [<- | []]]; reflexivity.
  - intros Hk.
    destruct (setHas FUNCTION_KINDS (entry_kind e)) eqn:F1.
    { apply setHas_In in F1. exfalso. apply Hk. apply in_or_app. now left. }
    destruct (setHas METHOD_KINDS (entry_kind e)) eqn:F2.
    { apply setHas_In in F2. exfalso. apply Hk.
      apply in_or_app. right. apply in_or_app. now left. }
    destruct (setHas CLASS_KINDS (entry_kind e)) eqn:F3.
    { apply setHas_In in F3. exfalso. apply Hk.
      apply in_or_app. right. apply in_or_app. right.
      apply in_or_app. now left. }
    destruct (String.eqb_spec (entry_kind e) "constant") as [F4|F4];
      [|reflexivity].
    exfalso. apply Hk. rewrite F4. simpl. tauto.
  - intros s.
    destruct (setHas FUNCTION_KINDS (entry_kind e));
      [intros [= <-]; repeat split|].
    destruct (setHas METHOD_KINDS (entry_kind e));
      [intros [= <-]; repeat split|].
    destruct (setHas CLASS_KINDS (entry_kind e));
      [intros [= <-]; repeat split|].
    destruct (String.eqb (entry_kind e) "constant"); [|discriminate].
    destruct (isPascalCase (entry_name e) || isHook (entry_name e));
      [intros [= <-]; repeat split|].
    destruct (JS.endsWith (entry_path e) ".tsx"
              && isCamelCase (entry_name e));
      [intros [= <-]; repeat split | discriminate].
Qed.

Lemma keepEntry_kind_mapping_witness :
  option_map sym_kind
             (keepEntry relativeBelow "/repo"
                        (sampleEntry "render" "method" "/repo/src/View.kt"))
  = Some KMethod.
Proof.
  destruct (keepEntry_kind_mapping relativeBelow "/repo"
              (sampleEntry "render" "method" "/repo/src/View.kt"))
    as [_ [Hmethod _]].
  - simpl. intros [H|[H|[H|[H|[]]]]]; discriminate.
  - intros [rest H]. discriminate.
  - apply Hmethod. now left.
Defined.

Section FirstPassOrder.

Variable path_relative : string -> string -> string.
Variable repoRoot : string.

Lemma firstPass_app (es1 es2 : list CtagsEntry) :
  firstPass path_relative repoRoot (es1 ++ es2)%list
  = (firstPass path_relative repoRoot es1
     ++ firstPass path_relative repoRoot es2)%list.
Proof.
  induction es1 as [|e es1 IH]; simpl; [reflexivity|].
  destruct (keepEntry path_relative repoRoot e); simpl; now rewrite IH.
Qed.

Lemma firstPass_length (es : list CtagsEntry) :
  (List.length (firstPass path_relative repoRoot es) <= List.length es)%nat.
Proof.
  induction es as [|e es IH]; simpl; [lia|].
  destruct (keepEntry path_relative repoRoot e); simpl; lia.
Qed.

End FirstPassOrder.

(** ** The second pass *)

Section Rescan.

Variable path_relative : string -> string -> string.
Variable path_join : string -> string -> string.
Variable readFileSync : string -> option string.
Variable repoRoot : string.

Lemma secondPass_unreadable (files : list string) :
  forall symbols,
    (forall f, In f files -> readFileSync (path_join repoRoot f) = None) ->
    secondPass path_join readFileSync repoRoot files symbols = symbols.
Proof.
  unfold secondPass.
  induction files as [|f files IH]; intros symbols Hnone; simpl;
    [reflexivity|].
  unfold scanFile at 2. rewrite (Hnone f (or_introl eq_refl)).
  apply IH. intros g Hg. apply Hnone. now right.
Qed.

(** A loop whose every match is already captured appends nothing. *)
Lemma scanLoop_fixed (relFile src : string) (symbols : list Symbol)
      (n : nat) :
  forall rest,
    (String.length rest <= n)%nat ->
    (forall index nm, ExecFinds src rest index nm ->
                      In (relFile, nm) (List.map symKey symbols)) ->
    scanLoop relFile src rest symbols = symbols.
Proof.
  induction n as [|n IH]; intros rest Hlen Hall; rewrite scanLoop_step;
    destruct (exportSearch rest) as [[i [s1 s2]]|] eqn:Hsearch;
    try reflexivity.
  - apply exportSearch_progress in Hsearch. lia.
  - pose proof (exportSearch_progress _ Hsearch) as [Hlt Hle].
    unfold pushOrphan.
    assert (Hcap : alreadyCaptured relFile
                     (JS.substring0 (String.length s1 - String.length s2) s1)
                     symbols = true).
    { apply alreadyCaptured_In. eapply Hall.
      apply finds_here with (s1 := s1) (s2 := s2). exact Hsearch. }
    rewrite Hcap. apply IH; [lia|].
    intros index nm Hfind. apply (Hall index nm).
    eapply finds_later; [exact Hsearch | exact Hfind].
Qed.

Lemma secondPass_fixed (files : list string) (symbols : list Symbol) :
  (forall f src index nm,
      In f files ->
      readFileSync (path_join repoRoot f) = Some src ->
      ExecFinds src src index nm ->
      In (f, nm) (List.map symKey symbols)) ->
  secondPass path_join readFileSync repoRoot files symbols = symbols.
Proof.
  unfold secondPass.
  induction files as [|f files IH]; intros Hall; simpl; [reflexivity|].
  assert (Hf : scanFile path_join readFileSync repoRoot f symbols = symbols).
  { unfold scanFile.
    destruct (readFileSync (path_join repoRoot f)) as [src|] eqn:Hread;
      [|reflexivity].
    apply (scanLoop_fixed f src symbols (String.length src) src (le_n _)).
    intros index nm Hfind.
    apply (Hall f src index nm (or_introl eq_refl) Hread Hfind). }
  rewrite Hf. apply IH.
  intros g src index nm Hg. apply Hall. now right.
Qed.

End Rescan.

(** X4. The first pass keeps the order of the entries and never adds
    one: it maps a concatenation of entry lists to the concatenation of
    its results, and yields at most as many symbols as there are
    entries. *)
Theorem firstPass_order_preserving
        (path_relative : string -> string -> string) (repoRoot : string)
        (es1 es2 : list CtagsEntry) :
  firstPass path_relative repoRoot (es1 ++ es2)%list
  = (firstPass path_relative repoRoot es1
     ++ firstPass path_relative repoRoot es2)%list
  /\ (List.length (firstPass path_relative repoRoot es1)
      <= List.length es1)%nat.
Proof.
  split; [apply firstPass_app | apply firstPass_length].
Qed.

(** X5. The second pass reads only the [.tsx] and [.jsx] files of the
    raw entries, and a file that cannot be read is skipped: when every
    such file is unreadable, in particular when there is none, the
    result of filtering is that of the first pass. *)
Theorem filterSymbols_without_component_text
        (path_relative path_join : string -> string -> string)
        (readFileSync : string -> option string)
        (entries : list CtagsEntry) (repoRoot : string) :
  (forall e, In e entries ->
             JS.endsWith (path_relative repoRoot (entry_path e)) ".tsx"
             || JS.endsWith (path_relative repoRoot (entry_path e)) ".jsx"
             = true ->
             readFileSync
               (path_join repoRoot (path_relative repoRoot (entry_path e)))
             = None) ->
  filterSymbols path_relative path_join readFileSync entries repoRoot
  = firstPass path_relative repoRoot entries.
Proof.
  intros Hnone. unfold filterSymbols. apply secondPass_unreadable.
  intros f Hf. apply collectTsxFiles_In in Hf.
  destruct Hf as [[] | [e [Hin [-> Hext]]]].
  apply (Hnone e Hin). apply orb_true_iff. exact Hext.
Qed.

Lemma filterSymbols_without_component_text_witness :
  filterSymbols relativeBelow joinBelow (fun _ => None)
                [helperEntry; bannerEntry] "/repo"
  = firstPass relativeBelow "/repo" [helperEntry; bannerEntry].
Proof.
  apply (filterSymbols_without_component_text relativeBelow joinBelow
           (fun _ => None) [helperEntry; bannerEntry] "/repo").
  intros e _ _. reflexivity.
Defined.

(** X6. Scanning again changes nothing: the second pass applied to its
    own result, over the same files, returns that result. *)
Theorem secondPass_idempotent
        (path_join : string -> string -> string)
        (readFileSync : string -> option string)
        (repoRoot : string) (files : list string) (symbols : list Symbol) :
  secondPass path_join readFileSync repoRoot files
             (secondPass path_join readFileSync repoRoot files symbols)
  = secondPass path_join readFileSync repoRoot files symbols.
Proof.
  destruct (secondPass_spec path_join readFileSync repoRoot files symbols)
    as [added [Heq [_ [_ [_ Hcomplete]]]]].
  apply secondPass_fixed. rewrite Heq. exact Hcomplete.
Qed.

(** ** Names captured by the export expression *)

Lemma takeWhile_dropWhile (p : ascii -> bool) (s : string) :
  s = takeWhile p s ++ dropWhile p s.
Proof.
  induction s as [|c s IH]; simpl; [reflexivity|].
  destruct (p c); simpl; [now rewrite <- IH | reflexivity].
Qed.

Lemma takeWhile_allChars (p : ascii -> bool) (s : string) :
  allChars p (takeWhile p s) = true.
Proof.
  induction s as [|c s IH]; simpl; [reflexivity|].
  destruct (p c) eqn:Hc; simpl; [now rewrite Hc | reflexivity].
Qed.

Lemma dropWhile_app (p : ascii -> bool) (a : string) (d : ascii)
      (rest : string) :
  allChars p a = true -> p d = false ->
  dropWhile p (a ++ String d rest) = String d rest.
Proof.
  intros Ha Hd. induction a as [|c a IH]; simpl in *.
  - now rewrite Hd.
  - apply andb_true_iff in Ha. destruct Ha as [Hc Ha].
    rewrite Hc. now apply IH.
Qed.

(** A greedy class loop whose continuation accepts whatever it is given
    consumes the longest run of the class. *)
Lemma starLoop_class (A : Type) (p : ascii -> bool)
      (step : string -> (string -> option A) -> option A)
      (k : string -> option A) :
  (forall s k', step s k' = match s with
                            | String c s' => if p c then k' s' else None
                            | EmptyString => None
                            end) ->
  (forall t, k t <> None) ->
  forall n s, (String.length s <= n)%nat ->
              starLoop step n s k = k (dropWhile p s).
Proof.
  intros Hstep Hk n. induction n as [|n IH]; intros [|c s] Hlen;
    simpl in *; try reflexivity; try lia.
  - now rewrite Hstep.
  - rewrite Hstep. destruct (p c); [|reflexivity].
    assert (Hlt : (String.length s <? S (String.length s))%nat = true)
      by (apply Nat.ltb_lt; lia).
    rewrite Hlt, IH by lia.
    destruct (k (dropWhile p s)) eqn:Hks; [reflexivity|].
    now apply Hk in Hks.
Qed.

Lemma exportAt_name (s s1 s2 : string) :
  exportAt s = Some (s1, s2) ->
  exists c t, s1 = String c t /\ JS.isUpper c = true
              /\ s2 = dropWhile JS.isAlnum t.
Proof.
  unfold exportAt. intros H.
  apply run_suffix in H. destruct H as [head [t1 [_ H]]].
  unfold reExportName in H. simpl in H.
  destruct t1 as [|c t]; [discriminate|].
  destruct (JS.isUpper c) eqn:Hc; [|discriminate].
  rewrite (starLoop_class _ JS.isAlnum) in H.
  - injection H as <- <-. now exists c, t.
  - intros u k'. reflexivity.
  - intros u Hu. discriminate.
  - lia.
Qed.

Lemma ExecFinds_name (src rest : string) (index : nat) (n : string) :
  ExecFinds src rest index n ->
  exists c nm, n = String c nm /\ JS.isUpper c = true
               /\ allChars JS.isAlnum nm = true.
Proof.
  induction 1 as [rest i s1 s2 Hsearch | rest i s1 s2 index n _ _ IH];
    [|exact IH].
  apply exportSearch_found in Hsearch. destruct Hsearch as [Hat _].
  apply exportAt_name in Hat. destruct Hat as [c [t [-> [Hc ->]]]].
  exists c, (takeWhile JS.isAlnum t).
  split; [|split; [exact Hc | apply takeWhile_allChars]].
  pose proof (takeWhile_dropWhile JS.isAlnum t) as Ht.
  remember (takeWhile JS.isAlnum t) as tw eqn:Etw.
  remember (dropWhile JS.isAlnum t) as dw eqn:Edw.
  rewrite Ht. simpl String.length. rewrite string_app_length.
  replace (S (String.length tw + String.length dw) - String.length dw)%nat
    with (S (String.length tw)) by lia.
  simpl. now rewrite substring0_app.
Qed.

(** X7. Whatever the second pass appends is a function whose name is a
    capital letter followed by letters and digits only, on a line
    numbered from 1. *)
Theorem filterSymbols_orphan_shape
        (path_relative path_join : string -> string -> string)
        (readFileSync : string -> option string)
        (entries : list CtagsEntry) (repoRoot : string) (s : Symbol) :
  In s (filterSymbols path_relative path_join readFileSync entries repoRoot)
  ->
  In s (firstPass path_relative repoRoot entries)
  \/ (sym_kind s = KFunction
      /\ (exists c nm, sym_name s = String c nm /\ JS.isUpper c = true
                       /\ allChars JS.isAlnum nm = true)
      /\ (1 <= sym_line s)%N).
Proof.
  unfold filterSymbols.
  destruct (secondPass_spec path_join readFileSync repoRoot
              (collectTsxFiles path_relative repoRoot entries [])
              (firstPass path_relative repoRoot entries))
    as [added [-> [Hall _]]].
  intros Hin. apply in_app_or in Hin. destruct Hin as [Hin | Hin];
    [now left | right].
  rewrite Forall_forall in Hall.
  destruct (Hall s Hin) as [Hk [_ [src [index [_ [Hfind Hline]]]]]].
  split; [exact Hk|]. split; [exact (ExecFinds_name _ _ _ _ Hfind)|].
  rewrite Hline. lia.
Qed.

Lemma filterSymbols_orphan_shape_witness :
  exists s,
    In s (filterSymbols relativeBelow joinBelow bannerFiles
                        [helperEntry] "/repo")
    /\ sym_name s = "Banner" /\ (1 <= sym_line s)%N.
Proof.
  eexists. split; [vm_compute; right; left; reflexivity|].
  split; [reflexivity|].
  destruct (filterSymbols_orphan_shape relativeBelow joinBelow bannerFiles
              [helperEntry] "/repo"
              {| sym_name := "Banner"; sym_kind := KFunction;
                 sym_file := "src/Banner.tsx"; sym_line := 3;
                 sym_scope := None;
                 sym_signature := Some "export function Banner";
                 sym_feature := ""; sym_featureName := "" |})
    as [Hfirst | [_ [_ Hline]]].
  - vm_compute. right. left. reflexivity.
  - vm_compute in Hfirst. destruct Hfirst as [Hf | []]. discriminate.
  - exact Hline.
Defined.

Lemma isUpper_not_space (c : ascii) :
  JS.isUpper c = true -> JS.isSpace c = false.
Proof.
  destruct c as [[] [] [] [] [] [] [] []]; vm_compute; congruence.
Qed.

Lemma exportAt_declaration (pre : string) (c d : ascii) (nm rest : string) :
  In pre ["export const "; "export function ";
          "export default const "; "export default function "] ->
  JS.isUpper c = true -> allChars JS.isAlnum nm = true ->
  JS.isAlnum d = false ->
  exportAt (pre ++ String c nm ++ String d rest)
  = Some (String c nm ++ String d rest, String d rest).
Proof.
  intros Hpre Hc Hnm Hd.
  pose proof (isUpper_not_space c Hc) as Hsp.
  unfold exportAt.
  destruct Hpre as [<- | [<- | [<- | [<- | []]]]];
    simpl; rewrite Hsp, Hc;
    (rewrite (starLoop_class _ JS.isAlnum);
     [now rewrite dropWhile_app
     | intros; reflexivity | intros t Ht; discriminate | lia]).
Qed.

(** X8. The name the export expression captures is the run of letters
    and digits after the keyword and stops at the first other character,
    be it a parenthesis, a space, an underscore or a dollar sign: of an
    identifier that goes on with an underscore, only the part before the
    underscore is captured. *)
Theorem export_name_stops_at_non_alnum (pre : string) (c d : ascii)
        (nm rest : string) :
  In pre ["export const "; "export function ";
          "export default const "; "export default function "] ->
  JS.isUpper c = true -> allChars JS.isAlnum nm = true ->
  JS.isAlnum d = false ->
  exportSearch (pre ++ String c nm ++ String d rest)
  = Some (O, (String c nm ++ String d rest, String d rest))
  /\ ExecFinds (pre ++ String c nm ++ String d rest)
               (pre ++ String c nm ++ String d rest)
               O (String c nm).
Proof.
  intros Hpre Hc Hnm Hd.
  pose proof (exportAt_declaration pre c d nm rest Hpre Hc Hnm Hd) as Hat.
  assert (Hsearch : exportSearch (pre ++ String c nm ++ String d rest)
                    = Some (O, (String c nm ++ String d rest, String d rest))).
  { remember (pre ++ String c nm ++ String d rest) as s eqn:Es.
    destruct s as [|a s']; [vm_compute in Hat; discriminate|].
    cbn [exportSearch]. now rewrite Hat. }
  split; [exact Hsearch|].
  pose proof (@finds_here (pre ++ String c nm ++ String d rest) _ _ _ _
                          Hsearch) as Hfind.
  rewrite Nat.sub_diag in Hfind. simpl Nat.add in Hfind.
  replace (JS.substring0
             (String.length (String c nm ++ String d rest)
              - String.length (String d rest))
             (String c nm ++ String d rest))
    with (String c nm) in Hfind; [exact Hfind|].
  rewrite string_app_length.
  replace (String.length (String c nm) + String.length (String d rest)
           - String.length (String d rest))%nat
    with (String.length (String c nm)) by lia.
  now rewrite substring0_app.
Qed.

Lemma export_name_stops_at_non_alnum_witness :
  exportSearch ("export const " ++ "MAX" ++ "_RETRIES = 3;")
  = Some (O, ("MAX" ++ "_RETRIES = 3;", "_RETRIES = 3;")).
Proof.
  apply (export_name_stops_at_non_alnum "export const " "M" "_" "AX"
           "RETRIES = 3;"); try reflexivity.
  now left.
Defined.

(** ** Buckets and the symbols they count *)

Lemma aggregate_counters (k : string) (symbols : list Symbol) :
  forall m f me cl t f0 me0 cl0 t0,
    counters (aggregate m symbols) k = Some (f, me, cl, t) ->
    match counters m k with
    | Some c => c
    | None => (0, 0, 0, 0)%N
    end = (f0, me0, cl0, t0) ->
    (f = f0 + countFeatureKind k KFunction symbols
     /\ me = me0 + countFeatureKind k KMethod symbols
     /\ cl = cl0 + countFeatureKind k KClass symbols
     /\ t = t0 + countFeature k symbols)%N.
Proof.
  unfold aggregate, countFeatureKind, countFeature.
  induction symbols as [|sym symbols IH];
    intros m f me cl t f0 me0 cl0 t0 H Hbase; simpl in H |- *.
  - rewrite H in Hbase. injection Hbase as <- <- <- <-.
    repeat split; lia.
  - destruct (String.eqb (sym_feature sym) k) eqn:Hk; simpl.
    + destruct (sym_kind sym) eqn:Hkind; simpl;
        (eapply IH in H;
         [|rewrite counters_step, Hk, Hbase, Hkind; reflexivity]);
        simpl List.length; lia.
    + eapply IH in H; [exact H|]. now rewrite counters_step, Hk.
Qed.

Lemma aggregate_has_feature (symbols : list Symbol) (s : Symbol) :
  In s symbols ->
  forall m, Map.get (aggregate m symbols) (sym_feature s) <> None.
Proof.
  unfold aggregate.
  induction symbols as [|sym symbols IH]; intros Hin m; simpl;
    [contradiction|].
  destruct Hin as [-> | Hin]; [|now apply IH].
  apply aggregate_keeps. rewrite aggregateStep_same. discriminate.
Qed.

(** X9. After aggregation a bucket counts exactly the symbols of its
    feature id: its total is their number and each kind counter is the
    number of them of that kind; and every feature id that occurs on a
    symbol has a bucket. *)
Theorem aggregate_bucket_counts (fs : list FeatureRule)
        (symbols : list Symbol) (k : string) :
  (forall r,
      Map.get (aggregate (seedMap fs) symbols) k = Some r ->
      total r = countFeature k symbols
      /\ functions r = countFeatureKind k KFunction symbols
      /\ methods r = countFeatureKind k KMethod symbols
      /\ classes r = countFeatureKind k KClass symbols)
  /\ (forall s, In s symbols -> sym_feature s = k ->
                Map.get (aggregate (seedMap fs) symbols) k <> None).
Proof.
  split.
  - intros r Hget.
    assert (Hc : counters (aggregate (seedMap fs) symbols) k
                 = Some (functions r, methods r, classes r, total r)).
    { unfold counters. now rewrite Hget. }
    assert (Hbase : match counters (seedMap fs) k with
                    | Some c => c
                    | None => (0, 0, 0, 0)%N
                    end = (0, 0, 0, 0)%N).
    { unfold counters.
      destruct (Map.get (seedMap fs) k) as [r0|] eqn:Hr0; [|reflexivity].
      pose proof (seedMap_fresh fs) as Hfresh.
      rewrite Forall_forall in Hfresh.
      destruct (Hfresh r0 (get_In _ _ _ Hr0)) as [H1 [H2 [H3 [H4 _]]]].
      simpl. now rewrite H1, H2, H3, H4. }
    pose proof (aggregate_counters k symbols _ _ _ _ _ _ _ _ _ Hc Hbase).
    lia.
  - intros s Hin <-. now apply aggregate_has_feature.
Qed.

Lemma set_absent (m : Map.t) (k : string) (v : FeatureReport) :
  Map.get m k = None -> Map.set m k v = (m ++ [(k, v)])%list.
Proof.
  induction m as [|[k0 v0] m IH]; simpl; [reflexivity|].
  destruct (String.eqb k0 k); [discriminate|].
  intros H. now rewrite IH.
Qed.

Lemma set_appended (m : Map.t) (k : string) (v v' : FeatureReport) :
  Map.get m k = None ->
  Map.set (m ++ [(k, v)])%list k v' = (m ++ [(k, v')])%list.
Proof.
  induction m as [|[k0 v0] m IH]; simpl.
  - now rewrite String.eqb_refl.
  - destruct (String.eqb k0 k); [discriminate|].
    intros H. now rewrite IH.
Qed.

(** X10. A symbol whose feature id has no bucket gets one made for it,
    put after all the others: it carries the id and the feature name of
    the symbol, the category ["Unknown"], and counts that one symbol;
    the buckets that were there are untouched. *)
Theorem aggregateStep_on_demand (m : Map.t) (sym : Symbol) :
  Map.get m (sym_feature sym) = None ->
  aggregateStep m sym
  = (m ++ [(sym_feature sym,
            countSymbol (sym_kind sym)
                        (emptyReport (sym_feature sym) (sym_featureName sym)
                                     "Unknown"))])%list.
Proof.
  intros Hnone. unfold aggregateStep. rewrite Hnone.
  rewrite (set_absent m _ _ Hnone). now apply set_appended.
Qed.

Lemma aggregateStep_on_demand_witness :
  Map.values (aggregateStep (seedMap []) chargeSymbol)
  = [emptyReport "uncategorized" "Uncategorized" "Unknown";
     countSymbol KFunction (emptyReport "payments" "payments" "Unknown")].
Proof.
  rewrite (aggregateStep_on_demand (seedMap []) chargeSymbol).
  - reflexivity.
  - reflexivity.
Defined.

(** ** The overlay and the counters *)

Lemma overlay_counters (fs : list FeatureRule) (k : string)
      (churnData : list FileChurn) :
  forall m,
    counters (fold_left (overlayStep fs) churnData m) k = counters m k.
Proof.
  unfold counters.
  induction churnData as [|file churnData IH]; intros m; simpl;
    [reflexivity|].
  rewrite IH, overlayStep_get.
  destruct (Map.get m (ref_id (classifySymbol (file_path file) fs)))
    as [rep|] eqn:Hrep; [|reflexivity].
  destruct (String.eqb_spec (ref_id (classifySymbol (file_path file) fs)) k)
    as [<-|Hne]; [|reflexivity].
  now rewrite Hrep.
Qed.

(** X11. The churn overlay never touches a symbol counter, and it
    neither adds nor removes a bucket: every feature id has the same
    functions, methods, classes and total after it as before, and the
    same keys in the same order. *)
Theorem churnOverlay_keeps_counters (fs : list FeatureRule)
        (churnData : list FileChurn) (m : Map.t) :
  (forall k, counters (churnOverlay fs churnData m) k = counters m k)
  /\ Map.keys (churnOverlay fs churnData m) = Map.keys m.
Proof.
  split.
  - intros k. unfold churnOverlay.
    unfold counters at 1. rewrite get_scoreAll.
    pose proof (overlay_counters fs k churnData m) as H.
    unfold counters in H.
    destruct (Map.get (fold_left (overlayStep fs) churnData m) k);
      simpl in *; exact H.
  - unfold churnOverlay. rewrite keys_scoreAll.
    revert m. induction churnData as [|file churnData IH]; intros m; simpl;
      [reflexivity|].
    rewrite IH. unfold overlayStep.
    destruct (Map.get m (ref_id (classifySymbol (file_path file) fs)))
      eqn:Hget; [|reflexivity].
    now rewrite keys_set, Hget.
Qed.

(** ** Which buckets there are *)

Lemma get_None_iff (m : Map.t) (k : string) :
  Map.get m k = None <-> ~ In k (Map.keys m).
Proof.
  split; [apply get_None_keys|].
  induction m as [|[k0 v0] m IH]; simpl; [reflexivity|].
  intros Hnot. destruct (String.eqb_spec k0 k) as [->|Hne].
  - exfalso. apply Hnot. now left.
  - apply IH. intros Hin. apply Hnot. now right.
Qed.

Lemma keys_set_first (m : Map.t) (k : string) (v : FeatureReport) :
  Map.keys (Map.set m k v)
  = (Map.keys m ++ firstOccurrences (Map.keys m) [k])%list.
Proof.
  rewrite keys_set. simpl.
  destruct (setHas (Map.keys m) k) eqn:Hhas.
  - apply setHas_In in Hhas.
    destruct (Map.get m k) eqn:Hget; [now rewrite app_nil_r|].
    now apply get_None_iff in Hget.
  - destruct (Map.get m k) eqn:Hget; [|reflexivity].
    assert (Hin : In k (Map.keys m)).
    { destruct (in_dec string_dec k (Map.keys m)) as [H|H]; [exact H|].
      apply get_None_iff in H. congruence. }
    apply setHas_In in Hin. congruence.
Qed.

Lemma firstOccurrences_app (l l' : list string) :
  forall seen,
    firstOccurrences seen (l ++ l')%list
    = (firstOccurrences seen l
       ++ firstOccurrences (seen ++ firstOccurrences seen l)%list l')%list.
Proof.
  induction l as [|x l IH]; intros seen; simpl.
  - now rewrite app_nil_r.
  - destruct (setHas seen x); [apply IH|].
    simpl. rewrite IH. now rewrite <- app_assoc.
Qed.

Lemma keys_seedRules (fs : list FeatureRule) :
  forall m,
    Map.keys (seedRules fs m)
    = (Map.keys m
       ++ firstOccurrences (Map.keys m) (List.map rule_id fs))%list.
Proof.
  induction fs as [|f fs IH]; intros m; simpl.
  - now rewrite app_nil_r.
  - rewrite IH, keys_set_first. simpl.
    destruct (setHas (Map.keys m) (rule_id f)); simpl.
    + now rewrite app_nil_r.
    + now rewrite <- app_assoc.
Qed.

Lemma aggregate_classified_keys (fs : list FeatureRule)
      (symbols : list Symbol) :
  forall m, covers fs m ->
            Map.keys (aggregate m (classifyAll fs symbols)) = Map.keys m.
Proof.
  unfold aggregate.
  induction symbols as [|sym symbols IH]; intros m Hm; simpl;
    [reflexivity|].
  assert (Hstep : Map.keys
                    (aggregateStep m
                       {| sym_name := sym_name sym; sym_kind := sym_kind sym;
                          sym_file := sym_file sym; sym_line := sym_line sym;
                          sym_scope := sym_scope sym;
                          sym_signature := sym_signature sym;
                          sym_feature :=
                            ref_id (classifySymbol (sym_file sym) fs);
                          sym_featureName :=
                            ref_name (classifySymbol (sym_file sym) fs) |})
                  = Map.keys m).
  { unfold aggregateStep. simpl.
    destruct (Map.get m (ref_id (classifySymbol (sym_file sym) fs)))
      eqn:Hget; [|now destruct (Hm (sym_file sym))].
    now rewrite keys_set, Hget. }
  rewrite IH; [exact Hstep|].
  intros p Hp. apply get_None_iff in Hp. rewrite Hstep in Hp.
  apply get_None_iff in Hp. now apply (Hm p).
Qed.

(** X12. The buckets of a run are the distinct configured feature ids in
    the order of their first declaration, followed by ["uncategorized"]
    unless a rule already uses that id; classifying and counting the
    symbols never makes another bucket. *)
Theorem feature_map_keys (fs : list FeatureRule) (symbols : list Symbol) :
  Map.keys (aggregate (seedMap fs) (classifyAll fs symbols))
  = firstOccurrences [] (List.map rule_id fs ++ ["uncategorized"])%list
  /\ NoDup (Map.keys (aggregate (seedMap fs) (classifyAll fs symbols))).
Proof.
  split; [|apply aggregate_NoDup, seedMap_NoDup].
  rewrite aggregate_classified_keys by apply seedMap_covers.
  unfold seedMap. rewrite keys_set_first, keys_seedRules.
  change (Map.keys []) with (@nil string).
  rewrite firstOccurrences_app. reflexivity.
Qed.

(** ** Ids in the ranking *)

Lemma In_set (m : Map.t) (k k' : string) (v r : FeatureReport) :
  In (k', r) (Map.set m k v) -> (k', r) = (k, v) \/ In (k', r) m.
Proof.
  induction m as [|[k0 v0] m IH]; simpl.
  - intros [H | []]. left. now symmetry.
  - destruct (String.eqb k0 k); simpl.
    + intros [H | H]; [left; now symmetry | right; now right].
    + intros [H | H]; [right; now left|].
      destruct (IH H) as [H' | H']; [now left | right; now right].
Qed.

Lemma keyed_set (m : Map.t) (k : string) (v : FeatureReport) :
  keyed m -> rep_id v = k -> keyed (Map.set m k v).
Proof.
  intros Hm Hv k' r Hin. apply In_set in Hin.
  destruct Hin as [[= -> ->] | Hin]; [exact Hv | now apply Hm].
Qed.

Lemma get_In_pair (m : Map.t) (k : string) (r : FeatureReport) :
  Map.get m k = Some r -> In (k, r) m.
Proof.
  induction m as [|[k0 v0] m IH]; simpl; [discriminate|].
  destruct (String.eqb_spec k0 k) as [->|Hne].
  - intros [= ->]. now left.
  - intros H. right. now apply IH.
Qed.

Lemma keyed_seedMap (fs : list FeatureRule) : keyed (seedMap fs).
Proof.
  unfold seedMap. apply keyed_set; [|reflexivity].
  unfold seedRules.
  assert (H : forall m, keyed m ->
                        keyed (fold_left
                                 (fun m feat =>
                                    Map.set m (rule_id feat)
                                      (emptyReport (rule_id feat)
                                                   (rule_name feat)
                                                   (rule_category feat)))
                                 fs m)).
  { induction fs as [|f fs IH]; intros m Hm; simpl; [exact Hm|].
    apply IH. now apply keyed_set. }
  apply H. intros k r [].
Qed.

Lemma keyed_aggregate (symbols : list Symbol) :
  forall m, keyed m -> keyed (aggregate m symbols).
Proof.
  unfold aggregate.
  induction symbols as [|sym symbols IH]; intros m Hm; simpl; [exact Hm|].
  apply IH. unfold aggregateStep.
  destruct (Map.get m (sym_feature sym)) as [r|] eqn:Hget.
  - apply keyed_set; [exact Hm|]. simpl.
    apply Hm. now apply get_In_pair.
  - repeat apply keyed_set; auto.
Qed.

Lemma keyed_churnOverlay (fs : list FeatureRule)
      (churnData : list FileChurn) :
  forall m, keyed m -> keyed (churnOverlay fs churnData m).
Proof.
  unfold churnOverlay. intros m Hm.
  assert (H : keyed (fold_left (overlayStep fs) churnData m)).
  { revert m Hm.
    induction churnData as [|file churnData IH]; intros m Hm; simpl;
      [exact Hm|].
    apply IH. unfold overlayStep.
    destruct (Map.get m (ref_id (classifySymbol (file_path file) fs)))
      as [r|] eqn:Hget; [|exact Hm].
    apply keyed_set; [exact Hm|]. simpl.
    apply Hm. now apply get_In_pair. }
  intros k r Hin. unfold scoreAll in Hin. apply in_map_iff in Hin.
  destruct Hin as [[k0 r0] [[= <- <-] Hin]]. simpl. now apply H.
Qed.

Lemma keyed_values (m : Map.t) :
  keyed m -> List.map rep_id (Map.values m) = Map.keys m.
Proof.
  induction m as [|[k v] m IH]; intros Hm; simpl; [reflexivity|].
  rewrite (Hm k v (or_introl eq_refl)). f_equal. apply IH.
  intros k' r Hin. apply Hm. now right.
Qed.

Lemma NoDup_map_filter (A B : Type) (f : A -> B) (p : A -> bool)
      (l : list A) :
  NoDup (List.map f l) -> NoDup (List.map f (List.filter p l)).
Proof.
  induction l as [|x l IH]; simpl; intros Hnd; [constructor|].
  inversion Hnd as [|? ? Hnotin Hnd']; subst.
  destruct (p x); simpl; [|now apply IH].
  constructor; [|now apply IH].
  intros Hin. apply Hnotin. apply in_map_iff in Hin.
  destruct Hin as [y [Hy Hin]]. apply filter_In in Hin.
  apply in_map_iff. exists y. tauto.
Qed.

Lemma featureMapOf_keyed
      (getGitChurn : string -> string -> list string -> list FileChurn)
      (absRoot : string) (config : FeatureConfig) (since : option string)
      (cliExcludes : list string) (symbols : list Symbol) :
  keyed (featureMapOf getGitChurn absRoot config since cliExcludes symbols)
  /\ NoDup (Map.keys (featureMapOf getGitChurn absRoot config since
                                   cliExcludes symbols)).
Proof.
  unfold featureMapOf.
  pose proof (keyed_aggregate symbols _ (keyed_seedMap (features config)))
    as Hk.
  pose proof (aggregate_NoDup symbols _ (seedMap_NoDup (features config)))
    as Hn.
  destruct since as [[|c w]|]; split; auto.
  - now apply keyed_churnOverlay.
  - unfold churnOverlay. rewrite keys_scoreAll. now apply overlay_NoDup.
Qed.

Lemma main_out_features
      (path_relative path_join : string -> string -> string)
      (readFileSync : string -> option string)
      (getGitChurn : string -> string -> list string -> list FileChurn)
      (absRoot : string) (config : FeatureConfig) (since : option string)
      (cliExcludes : list string) (rawEntries : list CtagsEntry) :
  out_features (main path_relative path_join readFileSync getGitChurn
                     absRoot config since cliExcludes rawEntries)
  = ranking since
            (featureMapOf getGitChurn absRoot config since cliExcludes
               (classifyAll (features config)
                  (filterSymbols path_relative path_join readFileSync
                                 rawEntries absRoot))).
Proof. reflexivity. Qed.

(** X13. No feature id appears twice among the ranked features that a
    run hands to the report. *)
Theorem main_feature_ids_unique
        (path_relative path_join : string -> string -> string)
        (readFileSync : string -> option string)
        (getGitChurn : string -> string -> list string -> list FileChurn)
        (absRoot : string) (config : FeatureConfig) (since : option string)
        (cliExcludes : list string) (rawEntries : list CtagsEntry) :
  NoDup (List.map rep_id
                  (out_features
                     (main path_relative path_join readFileSync getGitChurn
                           absRoot config since cliExcludes rawEntries))).
Proof.
  rewrite main_out_features.
  set (m := featureMapOf _ _ _ _ _ _).
  destruct (featureMapOf_keyed getGitChurn absRoot config since cliExcludes
              (classifyAll (features config)
                 (filterSymbols path_relative path_join readFileSync
                                rawEntries absRoot))) as [Hk Hn].
  fold m in Hk, Hn. unfold ranking.
  apply (Permutation_NoDup
           (Permutation_sym
              (Permutation_map rep_id (sortBy_perm _ _ _)))).
  apply NoDup_map_filter. now rewrite keyed_values.
Qed.

(** ** Top files *)

Lemma overlay_pending (fs : list FeatureRule) (k : string)
      (churnData : list FileChurn) :
  forall m r,
    Map.get (fold_left (overlayStep fs) churnData m) k = Some r ->
    exists r0,
      Map.get m k = Some r0
      /\ pendingFiles r
         = (pendingFiles r0
            ++ List.map candidateOf (churnFor fs k churnData))%list
      /\ (topFiles r = None
          <-> topFiles r0 = None /\ churnFor fs k churnData = []).
Proof.
  induction churnData as [|file churnData IH]; intros m r; simpl.
  - intros H. exists r. split; [exact H|].
    split; [now rewrite app_nil_r | tauto].
  - intros H. apply IH in H. destruct H as [r1 [Hget [Hpend Hnone]]].
    rewrite overlayStep_get in Hget.
    unfold churnFor. simpl List.filter. fold (churnFor fs k churnData).
    destruct (Map.get m (ref_id (classifySymbol (file_path file) fs)))
      as [rep|] eqn:Hrep;
      destruct (String.eqb_spec
                  (ref_id (classifySymbol (file_path file) fs)) k)
        as [Heq|Hne].
    + injection Hget as <-. exists rep. rewrite <- Heq at 1.
      split; [exact Hrep|]. split.
      * rewrite Hpend. unfold pendingFiles. simpl.
        now rewrite <- app_assoc.
      * rewrite Hnone. simpl. split; [intros [H _] | intros [_ H]];
          discriminate.
    + exists r1. repeat split; tauto.
    + congruence.
    + exists r1. repeat split; tauto.
Qed.

Lemma StronglySorted_app_inv (A : Type) (R : A -> A -> Prop)
      (l1 l2 : list A) :
  StronglySorted R (l1 ++ l2) ->
  StronglySorted R l1
  /\ (forall a b, In a l1 -> In b l2 -> R a b).
Proof.
  induction l1 as [|x l1 IH]; simpl; intros H.
  - split; [constructor | intros a b []].
  - inversion H as [|? ? Hs Hall]; subst.
    destruct (IH Hs) as [Hs1 Hcross]. split.
    + constructor; [exact Hs1|].
      rewrite Forall_forall in *. intros y Hy. apply Hall.
      apply in_or_app. now left.
    + intros a b [<- | Ha] Hb.
      * rewrite Forall_forall in Hall. apply Hall.
        apply in_or_app. now right.
      * now apply Hcross.
Qed.

(** X14. After the overlay a bucket has a top-files list exactly when
    some churn record was classified to it.  The list holds the records
    of the bucket with the largest churn: at most ten of them (all of
    them when there are fewer), in descending order of churn, and no
    record left out has more churn than one that is listed. *)
Theorem churnOverlay_top_files (fs : list FeatureRule)
        (symbols : list Symbol) (churnData : list FileChurn)
        (k : string) (r : FeatureReport) :
  Map.get (churnOverlay fs churnData (aggregate (seedMap fs) symbols)) k
  = Some r ->
  match topFiles r with
  | None => churnFor fs k churnData = []
  | Some tops =>
      churnFor fs k churnData <> []
      /\ List.length tops
         = Nat.min 10 (List.length (churnFor fs k churnData))
      /\ StronglySorted (fun a b => (top_churn b <= top_churn a)%N) tops
      /\ exists rest,
           Permutation (tops ++ rest)
                       (List.map candidateOf (churnFor fs k churnData))
           /\ (forall a b, In a tops -> In b rest ->
                           (top_churn b <= top_churn a)%N)
  end.
Proof.
  unfold churnOverlay. rewrite get_scoreAll. intros Hget.
  destruct (Map.get (fold_left (overlayStep fs) churnData
                               (aggregate (seedMap fs) symbols)) k)
    as [r1|] eqn:Hr1; [|discriminate].
  simpl in Hget. injection Hget as <-.
  destruct (overlay_pending fs k churnData _ r1 Hr1)
    as [r0 [Hr0 [Hpend Hnone]]].
  assert (Hno : topFiles r0 = None).
  { pose proof (aggregate_noChurn fs symbols) as Hall.
    rewrite Forall_forall in Hall.
    destruct (Hall r0 (get_In _ _ _ Hr0)) as [_ [_ [_ H]]]. exact H. }
  unfold pendingFiles in Hpend. rewrite Hno in Hpend, Hnone.
  simpl in Hpend. unfold scoreReport. cbn [topFiles].
  destruct (topFiles r1) as [l|] eqn:Hl.
  - subst l.
    set (cands := List.map candidateOf (churnFor fs k churnData)).
    assert (Hsorted : StronglySorted
                        (fun a b => (Z.of_N (top_churn b)
                                     <= Z.of_N (top_churn a))%Z)
                        (sortBy compareTopFiles cands)).
    { apply sortBy_sorted. intros a b _ _. reflexivity. }
    rewrite <- (firstn_skipn 10 (sortBy compareTopFiles cands)) in Hsorted.
    apply StronglySorted_app_inv in Hsorted.
    destruct Hsorted as [Hs1 Hcross].
    split; [|split; [|split]].
    + intros Hempty. destruct Hnone as [_ Hnone].
      discriminate (Hnone (conj eq_refl Hempty)).
    + rewrite length_firstn.
      rewrite (Permutation_length (sortBy_perm _ compareTopFiles cands)).
      unfold cands. now rewrite length_map.
    + revert Hs1. generalize (firstn 10 (sortBy compareTopFiles cands)).
      induction 1 as [|a l _ IH Ha]; constructor; [exact IH|].
      eapply Forall_impl; [|exact Ha]. simpl. intros b Hb. lia.
    + exists (skipn 10 (sortBy compareTopFiles cands)). split.
      * rewrite firstn_skipn. apply sortBy_perm.
      * intros a b Ha Hb. specialize (Hcross a b Ha Hb). simpl in Hcross.
        lia.
  - destruct Hnone as [Hnone _]. now destruct (Hnone eq_refl).
Qed.

Lemma churnOverlay_top_files_witness :
  exists r,
    Map.get (churnOverlay [paymentsRule]
               [sampleChurn "src/payments/a.ts" 1 2 3;
                sampleChurn "src/payments/b.ts" 2 40 2;
                sampleChurn "docs/x.md" 1 1 1]
               (aggregate (seedMap [paymentsRule]) []))
            "payments" = Some r
    /\ option_map (List.map top_path) (topFiles r)
       = Some ["src/payments/b.ts"; "src/payments/a.ts"]
    /\ match topFiles r with
       | None => False
       | Some tops =>
           StronglySorted (fun a b => (top_churn b <= top_churn a)%N) tops
       end.
Proof.
  eexists. split; [vm_compute; reflexivity|].
  split; [vm_compute; reflexivity|].
  pose proof (churnOverlay_top_files [paymentsRule] []
                [sampleChurn "src/payments/a.ts" 1 2 3;
                 sampleChurn "src/payments/b.ts" 2 40 2;
                 sampleChurn "docs/x.md" 1 1 1]
                "payments" _ eq_refl) as H.
  cbn [topFiles] in H. destruct H as [_ [_ [Hsorted _]]]. exact Hsorted.
Defined.

(** ** What a run reports *)

Lemma scoreReport_noChurn (r : FeatureReport) :
  noChurn r -> scoreReport r = r.
Proof.
  destruct r. unfold noChurn, scoreReport. simpl.
  intros [-> [-> [-> ->]]]. reflexivity.
Qed.

Lemma scoreAll_noChurn (m : Map.t) :
  Forall noChurn (Map.values m) -> scoreAll m = m.
Proof.
  induction m as [|[k v] m IH]; simpl; intros H; [reflexivity|].
  inversion H as [|? ? Hv Hm]; subst.
  now rewrite (scoreReport_noChurn v Hv), (IH Hm).
Qed.

Lemma insertBy_ext (A : Type) (cmp1 cmp2 : A -> A -> Z) (x : A)
      (l : list A) :
  (forall b, In b l -> cmp1 x b = cmp2 x b) ->
  insertBy cmp1 x l = insertBy cmp2 x l.
Proof.
  induction l as [|y l IH]; simpl; intros H; [reflexivity|].
  rewrite (H y (or_introl eq_refl)).
  destruct (cmp2 x y <=? 0)%Z; [reflexivity|].
  f_equal. apply IH. intros b Hb. apply H. now right.
Qed.

Lemma sortBy_ext (A : Type) (cmp1 cmp2 : A -> A -> Z) (l : list A) :
  (forall a b, In a l -> In b l -> cmp1 a b = cmp2 a b) ->
  sortBy cmp1 l = sortBy cmp2 l.
Proof.
  induction l as [|x l IH]; simpl; intros H; [reflexivity|].
  rewrite IH by (intros a b Ha Hb; apply H; now right).
  apply insertBy_ext. intros b Hb. apply H; [now left | right].
  now apply (Permutation_in _ (sortBy_perm _ cmp2 l)).
Qed.

(** X15. A window in which the history query finds no change gives the
    same ranked features and the same coverage rate as a run without a
    window. *)
Theorem main_empty_history
        (path_relative path_join : string -> string -> string)
        (readFileSync : string -> option string)
        (getGitChurn : string -> string -> list string -> list FileChurn)
        (absRoot : string) (config : FeatureConfig) (c : ascii) (w : string)
        (cliExcludes : list string) (rawEntries : list CtagsEntry) :
  getGitChurn absRoot (String c w) (excludeChurn config ++ cliExcludes)%list
  = [] ->
  out_features (main path_relative path_join readFileSync getGitChurn
                     absRoot config (Some (String c w)) cliExcludes
                     rawEntries)
  = out_features (main path_relative path_join readFileSync getGitChurn
                       absRoot config None cliExcludes rawEntries)
  /\ coverageRate (main path_relative path_join readFileSync getGitChurn
                        absRoot config (Some (String c w)) cliExcludes
                        rawEntries)
     = coverageRate (main path_relative path_join readFileSync getGitChurn
                          absRoot config None cliExcludes rawEntries).
Proof.
  intros Hempty. unfold main. cbn [out_features coverageRate].
  rewrite Hempty. unfold churnOverlay. simpl fold_left.
  set (syms := classifyAll (features config) _).
  rewrite (scoreAll_noChurn _ (aggregate_noChurn (features config) syms)).
  split; [|reflexivity].
  unfold ranking. apply sortBy_ext.
  intros a b Ha _. apply filter_In in Ha. destruct Ha as [Ha _].
  pose proof (aggregate_noChurn (features config) syms) as Hall.
  rewrite Forall_forall in Hall. destruct (Hall a Ha) as [_ [_ [Hs _]]].
  rewrite !compareReports_totals; auto.
Qed.

Lemma main_empty_history_witness :
  List.map rep_id
           (out_features
              (main relativeBelow joinBelow bannerFiles (fun _ _ _ => [])
                    "/repo"
                    {| conf_name := "sample"; excludePaths := [];
                       excludeChurn := []; features := [paymentsRule] |}
                    (Some "2024-01-01") [] [helperEntry]))
  = List.map rep_id
             (out_features
                (main relativeBelow joinBelow bannerFiles (fun _ _ _ => [])
                      "/repo"
                      {| conf_name := "sample"; excludePaths := [];
                         excludeChurn := []; features := [paymentsRule] |}
                      None [] [helperEntry])).
Proof.
  destruct (main_empty_history relativeBelow joinBelow bannerFiles
              (fun _ _ _ => []) "/repo"
              {| conf_name := "sample"; excludePaths := [];
                 excludeChurn := []; features := [paymentsRule] |}
              "2" "024-01-01" [] [helperEntry]) as [Hsame _].
  - reflexivity.
  - now rewrite Hsame.
Defined.

Lemma countKind_partition (symbols : list Symbol) :
  (countKind KFunction symbols + countKind KMethod symbols
   + countKind KClass symbols)%N
  = N.of_nat (List.length symbols).
Proof.
  unfold countKind.
  induction symbols as [|s symbols IH]; simpl; [reflexivity|].
  destruct (sym_kind s); simpl List.length; lia.
Qed.

Section ColumnSums.

(** A column [f] of the report that a symbol of kind [kind] raises by
    [delta kind], and that the overlay leaves alone. *)
Variable f : FeatureReport -> N.
Variable delta : SymbolKind -> N.
Hypothesis f_empty : forall i n c, f (emptyReport i n c) = 0%N.
Hypothesis f_count :
  forall kind r, f (countSymbol kind r) = (f r + delta kind)%N.
Hypothesis f_churn : forall file r, f (addChurn file r) = f r.
Hypothesis f_score : forall r, f (scoreReport r) = f r.

Lemma aggregate_column (symbols : list Symbol) :
  forall m,
    sumOver f (Map.values (aggregate m symbols))
    = (sumOver f (Map.values m)
       + fold_right (fun s acc => delta (sym_kind s) + acc) 0 symbols)%N.
Proof.
  unfold aggregate.
  induction symbols as [|sym symbols IH]; intros m; simpl; [lia|].
  rewrite IH. unfold aggregateStep.
  destruct (Map.get m (sym_feature sym)) as [r|] eqn:Hget.
  - pose proof (sum_set_present f m _ _
                  (countSymbol (sym_kind sym) r) Hget) as H.
    rewrite f_count in H. lia.
  - set (e := emptyReport _ _ _).
    pose proof (sum_set_absent f m _ e Hget) as H1.
    pose proof (sum_set_present f (Map.set m (sym_feature sym) e)
                  (sym_feature sym) e (countSymbol (sym_kind sym) e)
                  (get_set_same m (sym_feature sym) e)) as H2.
    rewrite f_count in H2. unfold e in *. rewrite f_empty in *. lia.
Qed.

Lemma seedMap_column (fs : list FeatureRule) :
  sumOver f (Map.values (seedMap fs)) = 0%N.
Proof.
  apply sumOver_zero.
  unfold seedMap. apply values_set_Forall; [|apply f_empty].
  apply (seedRules_Forall (fun r => f r = 0%N) fs f_empty []). constructor.
Qed.

Lemma churnOverlay_column (fs : list FeatureRule)
      (churnData : list FileChurn) (m : Map.t) :
  sumOver f (Map.values (churnOverlay fs churnData m))
  = sumOver f (Map.values m).
Proof.
  unfold churnOverlay.
  assert (Hscore : forall m', sumOver f (Map.values (scoreAll m'))
                              = sumOver f (Map.values m')).
  { induction m' as [|[k v] m' IH]; simpl; [reflexivity|].
    now rewrite f_score, IH. }
  rewrite Hscore. revert m.
  induction churnData as [|file churnData IH]; intros m; simpl;
    [reflexivity|].
  rewrite IH. unfold overlayStep.
  destruct (Map.get m (ref_id (classifySymbol (file_path file) fs)))
    as [r|] eqn:Hget; [|reflexivity].
  pose proof (sum_set_present f m _ _ (addChurn file r) Hget) as H.
  rewrite f_churn in H. lia.
Qed.

Lemma featureMapOf_column
      (getGitChurn : string -> string -> list string -> list FileChurn)
      (absRoot : string) (config : FeatureConfig) (since : option string)
      (cliExcludes : list string) (symbols : list Symbol) :
  sumOver f (Map.values (featureMapOf getGitChurn absRoot config since
                                      cliExcludes symbols))
  = fold_right (fun s acc => delta (sym_kind s) + acc)%N 0%N symbols.
Proof.
  unfold featureMapOf.
  destruct since as [[|c w]|]; try rewrite churnOverlay_column;
    rewrite aggregate_column, seedMap_column; lia.
Qed.

End ColumnSums.

Lemma sumOver_perm (f : FeatureReport -> N) (l l' : list FeatureReport) :
  Permutation l l' -> sumOver f l = sumOver f l'.
Proof.
  induction 1; simpl; lia.
Qed.

Lemma sumOver_filter (f : FeatureReport -> N) (p : FeatureReport -> bool)
      (l : list FeatureReport) :
  Forall (fun r => p r = false -> f r = 0%N) l ->
  sumOver f (List.filter p l) = sumOver f l.
Proof.
  induction 1 as [|r l Hr _ IH]; simpl; [reflexivity|].
  destruct (p r) eqn:Hp; simpl; [now rewrite IH|].
  rewrite IH, (Hr eq_refl). lia.
Qed.

(** A predicate on buckets that every step of the run keeps. *)
Lemma featureMapOf_Forall (P : FeatureReport -> Prop)
      (getGitChurn : string -> string -> list string -> list FileChurn)
      (absRoot : string) (config : FeatureConfig) (since : option string)
      (cliExcludes : list string) (symbols : list Symbol) :
  (forall i n c, P (emptyReport i n c)) ->
  (forall kind r, P r -> P (countSymbol kind r)) ->
  (forall file r, P r -> P (addChurn file r)) ->
  (forall r, P r -> P (scoreReport r)) ->
  Forall P (Map.values (featureMapOf getGitChurn absRoot config since
                                     cliExcludes symbols)).
Proof.
  intros Hempty Hcount Hchurn Hscore.
  assert (Hagg : Forall P (Map.values
                             (aggregate (seedMap (features config)) symbols))).
  { apply aggregate_Forall; auto.
    unfold seedMap. apply values_set_Forall; [|apply Hempty].
    apply (seedRules_Forall P (features config) Hempty []). constructor. }
  unfold featureMapOf. destruct since as [[|c w]|]; auto.
  unfold churnOverlay.
  set (cs := getGitChurn _ _ _).
  assert (Hov : Forall P (Map.values
                            (fold_left (overlayStep (features config)) cs
                               (aggregate (seedMap (features config))
                                          symbols)))).
  { revert Hagg. generalize (aggregate (seedMap (features config)) symbols).
    induction cs as [|file cs IH]; intros m Hm; simpl; [exact Hm|].
    apply IH. unfold overlayStep.
    destruct (Map.get m _) as [r|] eqn:Hget; [|exact Hm].
    apply values_set_Forall; [exact Hm|]. apply Hchurn.
    rewrite Forall_forall in Hm. apply Hm. now apply get_In in Hget. }
  revert Hov. generalize (fold_left (overlayStep (features config)) cs
                            (aggregate (seedMap (features config)) symbols)).
  intros m. induction m as [|[k v] m IH]; simpl; intros H; [constructor|].
  inversion H; subst. constructor; auto.
Qed.

Lemma count_by_delta (k : SymbolKind) (symbols : list Symbol) :
  fold_right (fun s acc => (if sameKind (sym_kind s) k then 1 else 0) + acc)%N
             0%N symbols
  = countKind k symbols.
Proof.
  unfold countKind.
  induction symbols as [|s symbols IH]; simpl; [reflexivity|].
  rewrite IH. destruct (sym_kind s), k; cbn [sameKind List.length];
    rewrite ?Nat2N.inj_succ; lia.
Qed.

Lemma count_all_delta (symbols : list Symbol) :
  fold_right (fun (s : Symbol) acc => 1 + acc)%N 0%N symbols
  = N.of_nat (List.length symbols).
Proof.
  induction symbols as [|s symbols IH]; [reflexivity|].
  cbn [fold_right List.length]. rewrite IH, Nat2N.inj_succ. lia.
Qed.

Lemma ranking_column (f : FeatureReport -> N) (since : option string)
      (m : Map.t) :
  Forall (fun r => presentable r = false -> f r = 0%N) (Map.values m) ->
  sumOver f (ranking since m) = sumOver f (Map.values m).
Proof.
  intros H. unfold ranking.
  rewrite (sumOver_perm f _ _ (sortBy_perm _ _ _)).
  now apply sumOver_filter.
Qed.

Lemma not_presentable_total (r : FeatureReport) :
  presentable r = false -> total r = 0%N.
Proof.
  unfold presentable. intros H. apply orb_false_iff in H.
  destruct H as [H _]. apply N.ltb_ge in H. lia.
Qed.

(** X16. The totals of a run agree with its ranked features: functions,
    methods and classes add up to the number of symbols, and each of the
    four totals is the sum of its column over the ranked features, the
    buckets left out of the ranking counting nothing. *)
Theorem main_totals_are_column_sums
        (path_relative path_join : string -> string -> string)
        (readFileSync : string -> option string)
        (getGitChurn : string -> string -> list string -> list FileChurn)
        (absRoot : string) (config : FeatureConfig) (since : option string)
        (cliExcludes : list string) (rawEntries : list CtagsEntry) :
  let out := main path_relative path_join readFileSync getGitChurn
                  absRoot config since cliExcludes rawEntries in
  (out_functions out + out_methods out + out_classes out)%N = out_symbols out
  /\ sumOver total (out_features out) = out_symbols out
  /\ sumOver functions (out_features out) = out_functions out
  /\ sumOver methods (out_features out) = out_methods out
  /\ sumOver classes (out_features out) = out_classes out.
Proof.
  intros out. unfold out. rewrite main_out_features.
  unfold main. cbn [out_functions out_methods out_classes out_symbols].
  set (syms := classifyAll (features config) _).
  set (m := featureMapOf getGitChurn absRoot config since cliExcludes syms).
  assert (Hcons : Forall (fun r => total r = kindCounts r) (Map.values m)).
  { apply featureMapOf_Forall; try (intros; assumption).
    - reflexivity.
    - intros kind r Hr. rewrite countSymbol_kindCounts. simpl. lia. }
  assert (Hzero : forall f,
             (forall r, (f r <= kindCounts r)%N) ->
             Forall (fun r => presentable r = false -> f r = 0%N)
                    (Map.values m)).
  { intros f Hf. eapply Forall_impl; [|exact Hcons].
    intros r Hr Hp. apply not_presentable_total in Hp.
    specialize (Hf r). simpl in Hr. lia. }
  split; [apply countKind_partition|].
  split.
  { rewrite ranking_column.
    - unfold m. rewrite (featureMapOf_column total (fun _ => 1%N));
        try reflexivity.
      apply count_all_delta.
    - eapply Forall_impl; [|exact Hcons].
      intros r _. apply not_presentable_total. }
  split; [|split].
  - rewrite ranking_column
      by (apply Hzero; intros r; unfold kindCounts; lia).
    unfold m.
    rewrite (featureMapOf_column functions
               (fun k => if sameKind k KFunction then 1 else 0)%N);
      try reflexivity; [apply count_by_delta|].
    intros kind r. destruct kind; simpl; lia.
  - rewrite ranking_column
      by (apply Hzero; intros r; unfold kindCounts; lia).
    unfold m.
    rewrite (featureMapOf_column methods
               (fun k => if sameKind k KMethod then 1 else 0)%N);
      try reflexivity; [apply count_by_delta|].
    intros kind r. destruct kind; simpl; lia.
  - rewrite ranking_column
      by (apply Hzero; intros r; unfold kindCounts; lia).
    unfold m.
    rewrite (featureMapOf_column classes
               (fun k => if sameKind k KClass then 1 else 0)%N);
      try reflexivity; [apply count_by_delta|].
    intros kind r. destruct kind; simpl; lia.
Qed.

(** X17. Without a churn window no ranked feature carries commits,
    churn, a hotspot score or top files, and every ranked feature counts
    at least one symbol. *)
Theorem main_without_window
        (path_relative path_join : string -> string -> string)
        (readFileSync : string -> option string)
        (getGitChurn : string -> string -> list string -> list FileChurn)
        (absRoot : string) (config : FeatureConfig) (since : option string)
        (cliExcludes : list string) (rawEntries : list CtagsEntry) :
  JS.truthy since = false ->
  Forall (fun r => commits r = None /\ churn r = None
                   /\ hotspotScore r = None /\ topFiles r = None
                   /\ (0 < total r)%N)
         (out_features
            (main path_relative path_join readFileSync getGitChurn
                  absRoot config since cliExcludes rawEntries)).
Proof.
  intros Hsince. rewrite main_out_features.
  set (syms := classifyAll (features config) _).
  assert (Hm : featureMapOf getGitChurn absRoot config since cliExcludes syms
               = aggregate (seedMap (features config)) syms).
  { unfold featureMapOf. destruct since as [[|c w]|];
      try reflexivity. discriminate. }
  rewrite Hm. apply Forall_forall. intros r Hin.
  unfold ranking in Hin.
  apply (Permutation_in _ (sortBy_perm _ _ _)) in Hin.
  apply filter_In in Hin. destruct Hin as [Hin Hp].
  pose proof (aggregate_noChurn (features config) syms) as Hall.
  rewrite Forall_forall in Hall.
  destruct (Hall r Hin) as [Hc [Hch [Hs Ht]]].
  repeat split; auto.
  apply presentable_iff in Hp. rewrite Hch in Hp. simpl in Hp.
  destruct Hp as [Hp | Hp]; lia.
Qed.

Lemma main_without_window_witness :
  Forall (fun r => commits r = None /\ churn r = None
                   /\ hotspotScore r = None /\ topFiles r = None
                   /\ (0 < total r)%N)
         (out_features
            (main relativeBelow joinBelow bannerFiles (fun _ _ _ => [])
                  "/repo"
                  {| conf_name := "sample"; excludePaths := [];
                     excludeChurn := []; features := [paymentsRule] |}
                  None [] [helperEntry])).
Proof.
  apply (main_without_window relativeBelow joinBelow bannerFiles
           (fun _ _ _ => []) "/repo"
           {| conf_name := "sample"; excludePaths := [];
              excludeChurn := []; features := [paymentsRule] |}
           None [] [helperEntry]).
  reflexivity.
Defined.

Lemma countFeature_pos (symbols : list Symbol) (s : Symbol) :
  In s symbols -> (0 < countFeature (sym_feature s) symbols)%N.
Proof.
  intros Hin. unfold countFeature.
  assert (H : In s (List.filter
                      (fun s' => String.eqb (sym_feature s') (sym_feature s))
                      symbols)).
  { apply filter_In. split; [exact Hin | apply String.eqb_refl]. }
  destruct (List.filter _ symbols); [contradiction | simpl; lia].
Qed.

(** X18. Every symbol of a run is accounted for in the ranking: the
    feature id it was given is the id of a ranked feature, whose total
    is the number of symbols with that feature id. *)
Theorem main_symbol_has_row
        (path_relative path_join : string -> string -> string)
        (readFileSync : string -> option string)
        (getGitChurn : string -> string -> list string -> list FileChurn)
        (absRoot : string) (config : FeatureConfig) (since : option string)
        (cliExcludes : list string) (rawEntries : list CtagsEntry)
        (s : Symbol) :
  let out := main path_relative path_join readFileSync getGitChurn
                  absRoot config since cliExcludes rawEntries in
  In s (out_symbolList out) ->
  exists r, In r (out_features out)
            /\ rep_id r = sym_feature s
            /\ total r = countFeature (sym_feature s) (out_symbolList out).
Proof.
  intros out. unfold out. rewrite main_out_features.
  unfold main. cbn [out_symbolList].
  set (syms := classifyAll (features config) _).
  set (m := featureMapOf getGitChurn absRoot config since cliExcludes syms).
  intros Hin.
  set (agg := aggregate (seedMap (features config)) syms).
  assert (Hcount : counters m (sym_feature s) = counters agg (sym_feature s)).
  { unfold m, featureMapOf. fold agg.
    destruct since as [[|c w]|]; try reflexivity.
    apply churnOverlay_keeps_counters. }
  destruct (Map.get agg (sym_feature s)) as [r0|] eqn:Hr0;
    [|now apply (aggregate_has_feature syms s Hin) in Hr0].
  assert (Ht0 : total r0 = countFeature (sym_feature s) syms).
  { destruct (aggregate_bucket_counts (features config) syms (sym_feature s))
      as [H _]. now apply H. }
  unfold counters in Hcount. rewrite Hr0 in Hcount.
  destruct (Map.get m (sym_feature s)) as [r|] eqn:Hr; [|discriminate].
  simpl in Hcount. injection Hcount as _ _ _ Ht.
  exists r. split; [|split].
  - unfold ranking.
    apply (Permutation_in _ (Permutation_sym (sortBy_perm _ _ _))).
    apply filter_In. split; [now apply get_In in Hr|].
    apply presentable_iff. left. rewrite Ht, Ht0.
    now apply countFeature_pos.
  - destruct (featureMapOf_keyed getGitChurn absRoot config since
                cliExcludes syms) as [Hk _].
    apply Hk. now apply get_In_pair.
  - congruence.
Qed.

Lemma main_symbol_has_row_witness :
  exists r,
    In r (out_features
            (main relativeBelow joinBelow bannerFiles (fun _ _ _ => [])
                  "/repo"
                  {| conf_name := "sample"; excludePaths := [];
                     excludeChurn := []; features := [paymentsRule] |}
                  None [] [helperEntry]))
    /\ rep_id r = "uncategorized".
Proof.
  destruct (main_symbol_has_row relativeBelow joinBelow bannerFiles
              (fun _ _ _ => []) "/repo"
              {| conf_name := "sample"; excludePaths := [];
                 excludeChurn := []; features := [paymentsRule] |}
              None [] [helperEntry]
              {| sym_name := "helper"; sym_kind := KFunction;
                 sym_file := "src/Banner.tsx"; sym_line := 1;
                 sym_scope := None; sym_signature := None;
                 sym_feature := "uncategorized";
                 sym_featureName := "Uncategorized" |})
    as [r [Hin [Hid _]]].
  - vm_compute. left. reflexivity.
  - exists r. split; [exact Hin | exact Hid].
Defined.

(** ** Signatures *)

Lemma endsWith_app (a p : string) : JS.endsWith (a ++ p) p = true.
Proof.
  induction a as [|c a IH].
  - change ("" ++ p) with p. destruct p; [reflexivity|].
    cbn [JS.endsWith]. now rewrite String.eqb_refl.
  - change (String c a ++ p) with (String c (a ++ p)).
    cbn [JS.endsWith]. rewrite IH. apply orb_true_r.
Qed.

(** X19. Cleaning a signature strips the anchors of the extractor: a
    pattern of the form [/^body$/] is cleaned to [body] without the white
    space around it, and a pattern with neither anchor is only trimmed. *)
Theorem cleanSignature_strips_anchors (body : string) :
  cleanSignature ("/^" ++ body ++ "$/") = JS.trim body
  /\ (JS.startsWith body "/^" = false -> JS.endsWith body "$/" = false ->
      cleanSignature body = JS.trim body).
Proof.
  split.
  - unfold cleanSignature.
    assert (H1 : JS.startsWith ("/^" ++ body ++ "$/") "/^" = true)
      by (apply startsWith_app; now eexists).
    rewrite H1. change (JS.drop 2 ("/^" ++ body ++ "$/"))
      with (body ++ "$/").
    rewrite endsWith_app, string_app_length. simpl String.length.
    replace (String.length body + 2 - 2)%nat with (String.length body)
      by lia.
    now rewrite substring0_app.
  - intros H1 H2. unfold cleanSignature. now rewrite H1, H2.
Qed.

(** ** The command line *)

Lemma optionValue_cons (flag a : string) (rest : list string) :
  optionValue flag (a :: rest) =
  if String.eqb a flag then hd_error rest else optionValue flag rest.
Proof.
  unfold optionValue. simpl.
  destruct (String.eqb a flag); [now destruct rest|].
  now destruct (indexOf flag rest).
Qed.

Lemma optionValue_skip (flag : string) (l l' : list string) :
  ~ In flag l -> optionValue flag (l ++ l')%list = optionValue flag l'.
Proof.
  induction l as [|a l IH]; intros Hnot; simpl; [reflexivity|].
  rewrite optionValue_cons.
  destruct (String.eqb_spec a flag) as [->|Hne].
  - exfalso. apply Hnot. now left.
  - apply IH. intros Hin. apply Hnot. now right.
Qed.

Lemma optionValue_absent (flag : string) (l : list string) :
  ~ In flag l -> optionValue flag l = None.
Proof.
  intros Hnot. rewrite <- (app_nil_r l). now rewrite optionValue_skip.
Qed.

Lemma collectExcludes_skip (l l' : list string) :
  ~ In "--exclude" l ->
  collectExcludes (l ++ l')%list = collectExcludes l'.
Proof.
  induction l as [|a l IH]; intros Hnot; simpl; [reflexivity|].
  destruct (String.eqb_spec a "--exclude") as [->|Hne].
  - exfalso. apply Hnot. now left.
  - apply IH. intros Hin. apply Hnot. now right.
Qed.

Lemma collectExcludes_pairs (es : list string) :
  Forall (fun e => e <> "") es ->
  collectExcludes (flat_map (fun e => ["--exclude"; e]) es) = es.
Proof.
  induction 1 as [|e es He _ IH]; simpl; [reflexivity|].
  destruct e as [|c e]; [congruence|]. now rewrite IH.
Qed.

Lemma existsb_eqb_In (x : string) (l : list string) :
  existsb (String.eqb x) l = true <-> In x l.
Proof. apply (setHas_In l x). Qed.

(** X20. A command line written as the repository path followed by the
    options that are set is read back as exactly these options, provided
    the path is not empty, does not start with [--] and is not [-h], no
    value is one of the flags, and no exclude value is empty. *)
Theorem parseArgs_commandLine (o : Options) :
  opt_repoRoot o <> "" ->
  JS.startsWith (opt_repoRoot o) "--" = false ->
  opt_repoRoot o <> "-h" ->
  Forall (fun v => ~ In v reservedWords) (optionValues o) ->
  Forall (fun e => e <> "") (opt_cliExcludes o) ->
  parseArgs (commandLine o) = Run o.
Proof.
  destruct o as [root cfg json since excl]. simpl.
  intros Hroot Hdash Hh Hvals Hexcl.
  unfold optionValues in Hvals. simpl in Hvals.
  rewrite !Forall_app in Hvals.
  destruct Hvals as [Hcfg [Hjson [Hsince Hex]]].
  assert (Hflag : forall flag, In flag reservedWords -> root <> flag).
  { intros flag Hin Heq. subst root. unfold reservedWords in Hin. simpl in Hin.
    destruct Hin as [<-|[<-|[<-|[<-|[<-|[<-|[]]]]]]]; try discriminate.
    now apply Hh. }
  assert (Hopt : forall flag flag' v,
             flag <> flag' ->
             Forall (fun x => ~ In x reservedWords)
                    match v with Some x => [x] | None => [] end ->
             In flag reservedWords ->
             ~ In flag (optionArgs flag' v)).
  { intros flag flag' v Hne Hv Hres. destruct v as [x|]; simpl; [|tauto].
    inversion Hv as [|? ? Hx _]; subst.
    intros [H | [H | []]]; [congruence | subst x; contradiction]. }
  assert (Hexarg : forall flag,
             flag <> "--exclude" -> In flag reservedWords ->
             ~ In flag (flat_map (fun e => ["--exclude"; e]) excl)).
  { intros flag Hne Hres Hin. apply in_flat_map in Hin.
    destruct Hin as [e [He [H | [H | []]]]]; [congruence|].
    subst e. rewrite Forall_forall in Hex. now apply (Hex flag He). }
  unfold parseArgs, commandLine. cbn [opt_repoRoot opt_configFile opt_jsonOut
                                      opt_since opt_cliExcludes].
  set (rest := (optionArgs "--config" cfg ++ optionArgs "--json" json
                ++ optionArgs "--since" since
                ++ flat_map (fun e => ["--exclude"; e]) excl)%list).
  assert (Hhelp : forall h, In h ["--help"; "-h"] ->
                            existsb (String.eqb h) (root :: rest) = false).
  { intros h Hh'. destruct (existsb (String.eqb h) (root :: rest)) eqn:E;
      [|reflexivity].
    apply existsb_eqb_In in E. exfalso.
    assert (Hres : In h reservedWords)
      by (unfold reservedWords; simpl in *; tauto).
    destruct E as [E | E]; [now apply (Hflag h Hres)|].
    unfold rest in E. repeat (apply in_app_or in E; destruct E as [E | E]).
    - apply (Hopt h "--config" cfg) in E; auto.
      destruct Hh' as [<-|[<-|[]]]; discriminate.
    - apply (Hopt h "--json" json) in E; auto.
      destruct Hh' as [<-|[<-|[]]]; discriminate.
    - apply (Hopt h "--since" since) in E; auto.
      destruct Hh' as [<-|[<-|[]]]; discriminate.
    - apply (Hexarg h) in E; auto.
      destruct Hh' as [<-|[<-|[]]]; discriminate. }
  rewrite (Hhelp "--help") by (simpl; tauto).
  rewrite (Hhelp "-h") by (simpl; tauto).
  cbn [orb List.find]. rewrite Hdash. cbn [negb].
  destruct root as [|c r]; [congruence|].
  f_equal. f_equal.
  - rewrite optionValue_cons.
    destruct (String.eqb_spec (String c r) "--config") as [E|_];
      [exfalso; apply (Hflag "--config"); [unfold reservedWords; simpl; tauto | exact E]|].
    unfold rest. destruct cfg as [x|]; simpl optionArgs.
    + simpl app. rewrite optionValue_cons. reflexivity.
    + simpl app. apply optionValue_absent. intros Hin.
      repeat (apply in_app_or in Hin; destruct Hin as [Hin | Hin]).
      * apply (Hopt "--config" "--json" json) in Hin; auto;
          [discriminate | unfold reservedWords; simpl; tauto].
      * apply (Hopt "--config" "--since" since) in Hin; auto;
          [discriminate | unfold reservedWords; simpl; tauto].
      * apply (Hexarg "--config") in Hin; auto;
          [discriminate | unfold reservedWords; simpl; tauto].
  - rewrite optionValue_cons.
    destruct (String.eqb_spec (String c r) "--json") as [E|_];
      [exfalso; apply (Hflag "--json"); [unfold reservedWords; simpl; tauto | exact E]|].
    unfold rest. rewrite optionValue_skip
      by (apply Hopt; auto; [discriminate | unfold reservedWords; simpl; tauto]).
    destruct json as [x|]; simpl optionArgs.
    + simpl app. rewrite optionValue_cons. reflexivity.
    + simpl app. apply optionValue_absent. intros Hin.
      repeat (apply in_app_or in Hin; destruct Hin as [Hin | Hin]).
      * apply (Hopt "--json" "--since" since) in Hin; auto;
          [discriminate | unfold reservedWords; simpl; tauto].
      * apply (Hexarg "--json") in Hin; auto;
          [discriminate | unfold reservedWords; simpl; tauto].
  - rewrite optionValue_cons.
    destruct (String.eqb_spec (String c r) "--since") as [E|_];
      [exfalso; apply (Hflag "--since"); [unfold reservedWords; simpl; tauto | exact E]|].
    unfold rest. rewrite optionValue_skip
      by (apply Hopt; auto; [discriminate | unfold reservedWords; simpl; tauto]).
    rewrite optionValue_skip
      by (apply Hopt; auto; [discriminate | unfold reservedWords; simpl; tauto]).
    destruct since as [x|]; simpl optionArgs.
    + simpl app. rewrite optionValue_cons. reflexivity.
    + simpl app. apply optionValue_absent.
      apply Hexarg; [discriminate | unfold reservedWords; simpl; tauto].
  - cbn [collectExcludes].
    destruct (String.eqb_spec (String c r) "--exclude") as [E|_];
      [exfalso; apply (Hflag "--exclude"); [unfold reservedWords; simpl; tauto | exact E]|].
    unfold rest.
    rewrite collectExcludes_skip
      by (apply Hopt; auto; [discriminate | unfold reservedWords; simpl; tauto]).
    rewrite collectExcludes_skip
      by (apply Hopt; auto; [discriminate | unfold reservedWords; simpl; tauto]).
    rewrite collectExcludes_skip
      by (apply Hopt; auto; [discriminate | unfold reservedWords; simpl; tauto]).
    now apply collectExcludes_pairs.
Qed.

Lemma parseArgs_commandLine_witness :
  parseArgs ["/repo"; "--config"; "features.json"; "--since"; "2024-06-01";
             "--exclude"; "vendor"; "--exclude"; "generated"]
  = Run sampleOptions.
Proof.
  apply (parseArgs_commandLine sampleOptions).
  - discriminate.
  - reflexivity.
  - discriminate.
  - repeat constructor; simpl;
      intros [H|[H|[H|[H|[H|[H|[]]]]]]]; discriminate.
  - repeat constructor; discriminate.
Defined.

(** X21. The repository is the first argument that does not start with
    [--], whatever stands before it: written after an option, the value
    of that option is taken for the repository.  When that argument is
    empty, or every argument starts with [--], the prompt is shown; and a
    help flag anywhere wins over everything. *)
Theorem parseArgs_repository (pre post : list string) (v : string) :
  Forall (fun a => JS.startsWith a "--" = true) pre ->
  JS.startsWith v "--" = false ->
  (In "--help" (pre ++ v :: post) \/ In "-h" (pre ++ v :: post) ->
   parseArgs (pre ++ v :: post)%list = ShowHelp)
  /\ (~ In "--help" (pre ++ v :: post) -> ~ In "-h" (pre ++ v :: post) ->
      (v = "" -> parseArgs (pre ++ v :: post)%list = ShowPrompt)
      /\ (v <> "" -> exists o, parseArgs (pre ++ v :: post)%list = Run o
                               /\ opt_repoRoot o = v))
  /\ (~ In "--help" pre -> parseArgs pre = ShowPrompt).
Proof.
  intros Hpre Hv.
  assert (Hfind : forall l,
             List.find (fun a => negb (JS.startsWith a "--")) (pre ++ l)%list
             = List.find (fun a => negb (JS.startsWith a "--")) l).
  { intros l. induction Hpre as [|a pre Ha _ IH]; simpl; [reflexivity|].
    now rewrite Ha. }
  split; [|split].
  - intros Hhelp. unfold parseArgs.
    destruct Hhelp as [H | H]; apply existsb_eqb_In in H; rewrite H;
      [reflexivity | now rewrite orb_true_r].
  - intros H1 H2. unfold parseArgs.
    destruct (existsb (String.eqb "--help") (pre ++ v :: post)) eqn:E1;
      [now apply existsb_eqb_In in E1|].
    destruct (existsb (String.eqb "-h") (pre ++ v :: post)) eqn:E2;
      [now apply existsb_eqb_In in E2|].
    cbn [orb]. rewrite Hfind. cbn [List.find]. rewrite Hv. cbn [negb].
    split.
    + intros ->. reflexivity.
    + intros Hne. destruct v as [|c r]; [congruence|].
      eexists. split; reflexivity.
  - intros H1. unfold parseArgs.
    destruct (existsb (String.eqb "--help") pre) eqn:E1;
      [now apply existsb_eqb_In in E1|].
    destruct (existsb (String.eqb "-h") pre) eqn:E2.
    { apply existsb_eqb_In in E2. rewrite Forall_forall in Hpre.
      apply Hpre in E2. discriminate. }
    cbn [orb]. rewrite <- (app_nil_r pre) at 1. rewrite Hfind. reflexivity.
Qed.

Lemma parseArgs_repository_witness :
  exists o,
    parseArgs ["--json"; "out.json"; "/repo"] = Run o
    /\ opt_repoRoot o = "out.json".
Proof.
  destruct (parseArgs_repository ["--json"] ["/repo"] "out.json")
    as [_ [Hrun _]].
  - repeat constructor.
  - reflexivity.
  - destruct Hrun as [_ Hrun].
    + simpl. intros [H|[H|[H|[]]]]; discriminate.
    + simpl. intros [H|[H|[H|[]]]]; discriminate.
    + apply Hrun. discriminate.
Defined.

(** ** Categories of the text report *)

Lemma fold_left_sum (f : FeatureReport -> N) (l : list FeatureReport) :
  forall a, fold_left (fun s r => (s + f r)%N) l a = (a + sumOver f l)%N.
Proof.
  induction l as [|r l IH]; intros a; simpl; [lia|].
  rewrite IH. lia.
Qed.

Lemma reduceTotal_sum (l : list FeatureReport) :
  reduceTotal l = sumOver total l.
Proof. unfold reduceTotal. now rewrite fold_left_sum. Qed.

Lemma pushToCategory_keys (g : Groups) (cat : string) (r : FeatureReport) :
  List.map fst (pushToCategory g cat r)
  = if in_dec string_dec cat (List.map fst g) then List.map fst g
    else (List.map fst g ++ [cat])%list.
Proof.
  induction g as [|[c l] g IH]; [reflexivity|].
  cbn [pushToCategory]. destruct (String.eqb_spec c cat) as [->|Hne].
  - cbn [List.map fst].
    destruct (in_dec string_dec cat (cat :: List.map fst g)) as [_|Hn];
      [reflexivity|].
    exfalso. apply Hn. now left.
  - cbn [List.map fst]. rewrite IH.
    destruct (in_dec string_dec cat (List.map fst g)) as [Hin|Hnot];
      destruct (in_dec string_dec cat (c :: List.map fst g)) as [Hin'|Hnot'];
      try reflexivity.
    + exfalso. apply Hnot'. now right.
    + exfalso. destruct Hin' as [E|Hin']; [congruence | contradiction].
Qed.

Lemma pushToCategory_perm (g : Groups) (cat : string) (r : FeatureReport) :
  Permutation (flat_map snd (pushToCategory g cat r))
              (flat_map snd g ++ [r]).
Proof.
  induction g as [|[c l] g IH]; simpl; [reflexivity|].
  destruct (String.eqb c cat); simpl.
  - rewrite <- !app_assoc. apply Permutation_app_head.
    apply Permutation_app_comm.
  - rewrite <- app_assoc. now apply Permutation_app_head.
Qed.

Lemma pushToCategory_ok (g : Groups) (r : FeatureReport) :
  groupsOk g -> groupsOk (pushToCategory g (rep_category r) r).
Proof.
  intros [Hnd Hall]. split.
  - rewrite pushToCategory_keys.
    destruct (in_dec string_dec (rep_category r) (List.map fst g))
      as [Hin|Hnot]; [exact Hnd|].
    apply NoDup_app; [exact Hnd | repeat constructor; simpl; tauto|].
    intros x Hx [<- | []]. contradiction.
  - clear Hnd. induction Hall as [|[c l] g [Hne Hcat] Hrest IH]; simpl.
    + repeat constructor; simpl; auto. discriminate.
    + destruct (String.eqb_spec c (rep_category r)) as [->|Hneq].
      * constructor; [|exact Hrest]. simpl in *. split.
        -- destruct l; discriminate.
        -- apply Forall_app. split; [exact Hcat | now repeat constructor].
      * constructor; [now split | exact IH].
Qed.

Lemma groupByCategory_spec (sorted : list FeatureReport) :
  groupsOk (groupByCategory sorted)
  /\ Permutation (flat_map snd (groupByCategory sorted)) sorted.
Proof.
  unfold groupByCategory.
  assert (H : forall g,
             groupsOk g ->
             groupsOk (fold_left
                         (fun g r => pushToCategory g (rep_category r) r)
                         sorted g)
             /\ Permutation
                  (flat_map snd
                     (fold_left
                        (fun g r => pushToCategory g (rep_category r) r)
                        sorted g))
                  (flat_map snd g ++ sorted)).
  { induction sorted as [|r sorted IH]; intros g Hg; simpl.
    - split; [exact Hg | now rewrite app_nil_r].
    - destruct (IH _ (pushToCategory_ok g r Hg)) as [Hok Hperm].
      split; [exact Hok|].
      rewrite Hperm, pushToCategory_perm, <- app_assoc. reflexivity. }
  destruct (H [] (conj (NoDup_nil _) (Forall_nil _))) as [Hok Hperm].
  split; [exact Hok | exact Hperm].
Qed.

Lemma groupsOk_perm (g g' : Groups) :
  Permutation g g' -> groupsOk g -> groupsOk g'.
Proof.
  intros Hp [Hnd Hall]. split.
  - apply (Permutation_NoDup (Permutation_map fst Hp) Hnd).
  - apply (Permutation_Forall Hp Hall).
Qed.

Lemma sortedFeats_perm (hasChurn : bool) (feats : list FeatureReport) :
  Permutation (sortedFeats hasChurn feats) feats.
Proof. unfold sortedFeats. destruct hasChurn; apply sortBy_perm. Qed.

Lemma flat_map_blocks (since : option string) (g : Groups) :
  Permutation
    (flat_map cat_features
       (List.map (fun g0 =>
                    {| cat_name := fst g0;
                       cat_total := reduceTotal (snd g0);
                       cat_churn := if JS.truthy since
                                    then reduceChurn (snd g0) else 0%N;
                       cat_features :=
                         sortedFeats (JS.truthy since) (snd g0) |}) g))
    (flat_map snd g).
Proof.
  induction g as [|[c l] g IH]; simpl; [reflexivity|].
  apply Permutation_app; [apply sortedFeats_perm | exact IH].
Qed.

(** X22. The text report files every ranked feature under exactly one
    category heading, its own: the features of all blocks together are
    the ranked features, no category has two blocks, no block is empty,
    and every feature of a block has the category of the block. *)
Theorem categoryBlocks_partition (since : option string)
        (sorted : list FeatureReport) :
  Permutation (flat_map cat_features (categoryBlocks since sorted)) sorted
  /\ NoDup (List.map cat_name (categoryBlocks since sorted))
  /\ Forall (fun b => cat_features b <> []
                      /\ Forall (fun r => rep_category r = cat_name b)
                                (cat_features b))
            (categoryBlocks since sorted).
Proof.
  destruct (groupByCategory_spec sorted) as [Hok Hperm].
  pose proof (groupsOk_perm _ _
                (Permutation_sym (sortBy_perm _ compareGroups _)) Hok)
    as [Hnd Hall].
  fold (catOrder sorted) in Hnd, Hall.
  unfold categoryBlocks. split; [|split].
  - rewrite flat_map_blocks. unfold catOrder.
    rewrite (Permutation_flat_map snd (sortBy_perm _ compareGroups _)).
    exact Hperm.
  - rewrite map_map. simpl. exact Hnd.
  - apply Forall_map. eapply Forall_impl; [|exact Hall].
    intros [c l] [Hne Hcat]. simpl in *. split.
    + intros Hempty.
      pose proof (sortedFeats_perm (JS.truthy since) l) as Hp.
      rewrite Hempty in Hp. apply Permutation_nil in Hp. contradiction.
    + apply (Permutation_Forall
               (Permutation_sym (sortedFeats_perm (JS.truthy since) l))).
      exact Hcat.
Qed.

Lemma sortedFeats_sorted (hasChurn : bool) (feats : list FeatureReport) :
  StronglySorted
    (fun x y => if hasChurn then (scoreOf y <= scoreOf x)%Z
                else (total y <= total x)%N)
    (sortedFeats hasChurn feats).
Proof.
  unfold sortedFeats. destruct hasChurn.
  - apply sortBy_sorted. reflexivity.
  - assert (H : StronglySorted
                  (fun x y => (Z.of_N (total y) <= Z.of_N (total x))%Z)
                  (sortBy (fun a b => (Z.of_N (total b) - Z.of_N (total a))%Z)
                          feats))
      by (apply sortBy_sorted; reflexivity).
    revert H. generalize (sortBy (fun a b => (Z.of_N (total b)
                                              - Z.of_N (total a))%Z) feats).
    induction 1 as [|a l _ IH Ha]; constructor; [exact IH|].
    eapply Forall_impl; [|exact Ha]. simpl. intros b Hb. lia.
Qed.

(** X23. In the text report the total of a category is the sum of the
    totals of its features, the categories come in descending order of
    that total, the category totals add up to the total of all ranked
    features, and inside a category the features come in descending order
    of hotspot score (a missing score counting as 0) when a churn window
    was given and of total otherwise. *)
Theorem categoryBlocks_totals_and_order (since : option string)
        (sorted : list FeatureReport) :
  Forall (fun b => cat_total b = sumOver total (cat_features b))
         (categoryBlocks since sorted)
  /\ StronglySorted (fun a b => (cat_total b <= cat_total a)%N)
                    (categoryBlocks since sorted)
  /\ fold_right (fun b acc => (cat_total b + acc)%N) 0%N
                (categoryBlocks since sorted)
     = sumOver total sorted
  /\ Forall (fun b =>
               StronglySorted
                 (fun x y => if JS.truthy since
                             then (scoreOf y <= scoreOf x)%Z
                             else (total y <= total x)%N)
                 (cat_features b))
            (categoryBlocks since sorted).
Proof.
  unfold categoryBlocks. split; [|split; [|split]].
  - apply Forall_map. apply Forall_forall. intros [c l] _. simpl.
    rewrite reduceTotal_sum.
    apply sumOver_perm, Permutation_sym, sortedFeats_perm.
  - assert (H : StronglySorted
                  (fun a b => (Z.of_N (reduceTotal (snd b))
                               <= Z.of_N (reduceTotal (snd a)))%Z)
                  (catOrder sorted))
      by (apply sortBy_sorted; reflexivity).
    revert H. generalize (catOrder sorted).
    induction 1 as [|a l _ IH Ha]; simpl; constructor; [exact IH|].
    apply Forall_map. eapply Forall_impl; [|exact Ha].
    simpl. intros b Hb. lia.
  - destruct (groupByCategory_spec sorted) as [_ Hperm].
    rewrite <- (sumOver_perm total _ _ Hperm).
    rewrite <- (sumOver_perm total _ _
                  (Permutation_flat_map snd
                     (sortBy_perm _ compareGroups (groupByCategory sorted)))).
    fold (catOrder sorted). generalize (catOrder sorted).
    intros l. induction l as [|[c l0] l IH]; simpl; [reflexivity|].
    rewrite IH, reduceTotal_sum.
    assert (Happ : forall l1 l2, sumOver total (l1 ++ l2)
                                 = (sumOver total l1 + sumOver total l2)%N).
    { induction l1 as [|x l1 IH1]; intros l2; simpl; [lia|].
      rewrite IH1. lia. }
    now rewrite Happ.
  - apply Forall_map. apply Forall_forall. intros [c l] _. simpl.
    apply sortedFeats_sorted.
Qed.

(** ** The hottest files *)

(** The first [n] of a list sorted by a key, largest first. *)
Lemma top_cut (A : Type) (key : A -> Z) (n : nat) (l : list A) :
  let tops := firstn n (sortBy (fun a b => (key b - key a)%Z) l) in
  List.length tops = Nat.min n (List.length l)
  /\ StronglySorted (fun a b => (key b <= key a)%Z) tops
  /\ exists rest,
       Permutation (tops ++ rest) l
       /\ (forall a b, In a tops -> In b rest -> (key b <= key a)%Z).
Proof.
  intros tops. unfold tops.
  set (cmp := fun a b => (key b - key a)%Z).
  assert (Hsorted : StronglySorted (fun a b => (key b <= key a)%Z)
                                   (sortBy cmp l))
    by (apply sortBy_sorted; reflexivity).
  rewrite <- (firstn_skipn n (sortBy cmp l)) in Hsorted.
  apply StronglySorted_app_inv in Hsorted. destruct Hsorted as [Hs Hcross].
  split; [|split; [exact Hs|]].
  - rewrite length_firstn.
    now rewrite (Permutation_length (sortBy_perm _ cmp l)).
  - exists (skipn n (sortBy cmp l)). split; [|exact Hcross].
    rewrite firstn_skipn. apply sortBy_perm.
Qed.

(** X24. The hottest-files table has at most 20 lines, in descending
    order of churn; every line is a top file of a ranked feature, shown
    with the name of that feature; and no top file that is left out has
    more churn than one that is shown. *)
Theorem hottestFiles_spec (sorted : list FeatureReport) :
  (List.length (hottestFiles sorted) <= 20)%nat
  /\ StronglySorted (fun a b => (top_churn (fst b) <= top_churn (fst a))%N)
                    (hottestFiles sorted)
  /\ (forall f n, In (f, n) (hottestFiles sorted) ->
                  exists feat, In feat sorted /\ rep_name feat = n
                               /\ In f (pendingFiles feat))
  /\ (forall feat f, In feat sorted -> In f (pendingFiles feat) ->
                     In (f, rep_name feat) (hottestFiles sorted)
                     \/ forall shown, In shown (hottestFiles sorted) ->
                                      (top_churn f
                                       <= top_churn (fst shown))%N).
Proof.
  unfold hottestFiles.
  set (all := flat_map (fun feat => List.map (fun f => (f, rep_name feat))
                                             (pendingFiles feat)) sorted).
  destruct (top_cut HotFile (fun x => Z.of_N (top_churn (fst x))) 20 all)
    as [Hlen [Hs [rest [Hperm Hcross]]]].
  set (hot := firstn 20 _) in *.
  split; [rewrite Hlen; apply Nat.le_min_l|].
  split.
  { revert Hs. generalize hot.
    induction 1 as [|a l _ IH Ha]; constructor; [exact IH|].
    eapply Forall_impl; [|exact Ha]. simpl. intros b Hb. lia. }
  split.
  - intros f n Hin.
    assert (Hall : In (f, n) all).
    { apply (Permutation_in _ Hperm). apply in_or_app. now left. }
    unfold all in Hall. apply in_flat_map in Hall.
    destruct Hall as [feat [Hfeat Hf]]. apply in_map_iff in Hf.
    destruct Hf as [f' [[= -> <-] Hf']]. now exists feat.
  - intros feat f Hfeat Hf.
    assert (Hall : In (f, rep_name feat) all).
    { unfold all. apply in_flat_map. exists feat. split; [exact Hfeat|].
      apply in_map_iff. now exists f. }
    apply (Permutation_in _ (Permutation_sym Hperm)) in Hall.
    apply in_app_or in Hall. destruct Hall as [Hin | Hin]; [now left|].
    right. intros shown Hshown.
    specialize (Hcross shown (f, rep_name feat) Hshown Hin).
    simpl in Hcross. lia.
Qed.

(** ** The history parser *)



Lemma parseNumstatLine_row (cc : Counts) (ex : list string)
      (line : string) (row : ChurnRow) :
  parseNumstatLine cc ex line = Some row ->
  row_churn row = (row_additions row + row_deletions row)%Z
  /\ row_path row <> ""
  /\ existsb (fun e => JS.includes (row_path row) e) ex = false
  /\ row_commits row = match countsGet cc (row_path row) with
                       | Some n => n
                       | None => 0%Z
                       end.
Proof.
  unfold parseNumstatLine.
  destruct (List.length _ <? 3)%nat; [discriminate|].
  destruct (String.eqb _ "") eqn:Hempty; [discriminate|].
  destruct (existsb _ ex) eqn:Hex; [discriminate|].
  intros [= <-]. simpl.
  repeat split; try assumption.
  now apply String.eqb_neq.
Qed.


(** X26. An empty exclusion pattern is contained in every path: with
    one among the patterns, [getGitChurn] returns no row at all. *)
Theorem parseGitChurn_empty_pattern (commitLog numstatLog : string)
        (excludePatterns : list string) :
  In "" excludePatterns ->
  parseGitChurn commitLog numstatLog excludePatterns = [].
Proof.
  intros Hin. unfold parseGitChurn.
  set (cc := parseCommitCounts commitLog).
  assert (Hnone : forall lines, parseNumstat cc excludePatterns lines = []).
  { induction lines as [|l lines IH]; simpl; [reflexivity|].
    destruct (parseNumstatLine cc excludePatterns l) as [row|] eqn:Hl;
      [|exact IH].
    apply parseNumstatLine_row in Hl. destruct Hl as [_ [_ [Hex _]]].
    assert (Htrue : existsb (fun e => JS.includes (row_path row) e)
                            excludePatterns = true).
    { apply existsb_exists. exists "". split; [exact Hin|].
      apply includes_empty. }
    congruence. }
  now rewrite Hnone.
Qed.

Lemma parseGitChurn_empty_pattern_witness :
  In "" ["vendor"; ""]
  /\ parseGitChurn sampleCommitLog sampleNumstatLog ["vendor"; ""] = [].
Proof.
  assert (Hin : In "" ["vendor"; ""]) by (right; left; reflexivity).
  split; [exact Hin|].
  exact (parseGitChurn_empty_pattern sampleCommitLog sampleNumstatLog
                                     ["vendor"; ""] Hin).
Defined.

Lemma countsGet_set_same (m : Counts) (k : string) (v : Z) :
  countsGet (countsSet m k v) k = Some v.
Proof.
  induction m as [|[k' v'] m IH]; simpl.
  - now rewrite String.eqb_refl.
  - destruct (String.eqb k' k) eqn:Hk; simpl.
    + now rewrite String.eqb_refl.
    + now rewrite Hk.
Qed.

Lemma countsGet_set_other (m : Counts) (k k' : string) (v : Z) :
  k <> k' -> countsGet (countsSet m k v) k' = countsGet m k'.
Proof.
  intros Hne. induction m as [|[k0 v0] m IH]; simpl.
  - apply String.eqb_neq in Hne. now rewrite Hne.
  - destruct (String.eqb k0 k) eqn:Hk; simpl.
    + apply String.eqb_eq in Hk. subst k0.
      apply String.eqb_neq in Hne. now rewrite Hne.
    + destruct (String.eqb k0 k'); [reflexivity | exact IH].
Qed.

(** X27. The commit count of a path is the one of the last line of the
    commit log whose second group is that path: a later line replaces an
    earlier one, and a path no line names has no count. *)
Theorem parseCommitCounts_last_line (commitLog path : string) :
  match countsGet (parseCommitCounts commitLog) path with
  | Some n =>
      exists before line after count,
      JS.split newline (JS.trim commitLog) = (before ++ line :: after)%list
      /\ matchCountLine (JS.trim line) = Some (count, path)
      /\ n = parseIntOr0 count
      /\ Forall (fun later =>
                   forall c, matchCountLine (JS.trim later)
                             <> Some (c, path)) after
  | None =>
      Forall (fun line =>
                forall c, matchCountLine (JS.trim line) <> Some (c, path))
             (JS.split newline (JS.trim commitLog))
  end.
Proof.
  unfold parseCommitCounts.
  generalize (JS.split newline (JS.trim commitLog)). intros lines.
  induction lines as [|x lines IH] using rev_ind.
  - simpl. constructor.
  - rewrite fold_left_app. cbn [fold_left].
    destruct (matchCountLine (JS.trim x)) as [[count p]|] eqn:Hx.
    + destruct (string_dec p path) as [-> | Hne].
      * rewrite countsGet_set_same.
        exists lines, x, [], count. repeat split; [exact Hx | constructor].
      * rewrite (countsGet_set_other _ _ _ _ Hne).
        destruct (countsGet _ path) as [n|].
        -- destruct IH as [before [line [after [c [Heq [Hm [Hn Hafter]]]]]]].
           exists before, line, (after ++ [x])%list, c.
           split; [rewrite Heq; now rewrite <- app_assoc|].
           split; [exact Hm|]. split; [exact Hn|].
           apply Forall_app. split; [exact Hafter|].
           constructor; [|constructor].
           intros c'. rewrite Hx. congruence.
        -- apply Forall_app. split; [exact IH|].
           constructor; [|constructor].
           intros c'. rewrite Hx. congruence.
    + destruct (countsGet _ path) as [n|].
      * destruct IH as [before [line [after [c [Heq [Hm [Hn Hafter]]]]]]].
        exists before, line, (after ++ [x])%list, c.
        split; [rewrite Heq; now rewrite <- app_assoc|].
        split; [exact Hm|]. split; [exact Hn|].
        apply Forall_app. split; [exact Hafter|].
        constructor; [|constructor].
        intros c'. rewrite Hx. discriminate.
      * apply Forall_app. split; [exact IH|].
        constructor; [|constructor].
        intros c'. rewrite Hx. discriminate.
Qed.

(** A greedy class loop takes the longest run of the class when the
    continuation accepts what follows that run. *)
Lemma starLoop_greedy (A : Type) (p : ascii -> bool)
      (step : string -> (string -> option A) -> option A)
      (k : string -> option A) (x : A) :
  (forall s k', step s k' = match s with
                            | String c s' => if p c then k' s' else None
                            | EmptyString => None
                            end) ->
  forall n s, (String.length s <= n)%nat ->
              k (dropWhile p s) = Some x ->
              starLoop step n s k = Some x.
Proof.
  intros Hstep n. induction n as [|n IH]; intros [|c s] Hlen Hk;
    simpl in *; try assumption; try lia.
  - now rewrite Hstep.
  - rewrite Hstep. destruct (p c) eqn:Hc; [|exact Hk].
    assert (Hlt : (String.length s <? S (String.length s))%nat = true)
      by (apply Nat.ltb_lt; lia).
    rewrite Hlt. rewrite IH; [reflexivity | lia | exact Hk].
Qed.

Lemma run_Plus_class (A : Type) (p : ascii -> bool) (c : ascii)
      (t : string) (k : string -> option A) (x : A) :
  p c = true -> k (dropWhile p t) = Some x ->
  run (Plus (Chr p)) (String c t) k = Some x.
Proof.
  intros Hc Hk. unfold Plus.
  change (run (Seq (Chr p) (Star (Chr p))) (String c t) k)
    with (if p c
          then starLoop (run (A:=A) (Chr p)) (String.length t) t k
          else None).
  rewrite Hc.
  apply (starLoop_greedy A p); [intros; reflexivity | lia | exact Hk].
Qed.

Lemma dropWhile_all (p : ascii -> bool) (s : string) :
  allChars p s = true -> dropWhile p s = "".
Proof.
  induction s as [|c s IH]; simpl; [reflexivity|].
  intros H. apply andb_true_iff in H. destruct H as [Hc Hs].
  rewrite Hc. now apply IH.
Qed.

Lemma dropWhile_app_all (p : ascii -> bool) (a b : string) :
  allChars p a = true -> dropWhile p (a ++ b) = dropWhile p b.
Proof.
  induction a as [|c a IH]; simpl; [reflexivity|].
  intros H. apply andb_true_iff in H. destruct H as [Hc Ha].
  rewrite Hc. now apply IH.
Qed.

Lemma isSpace_not_digit (c : ascii) :
  JS.isSpace c = true -> JS.isDigit c = false.
Proof.
  destruct c as [[] [] [] [] [] [] [] []]; vm_compute; congruence.
Qed.

(** X28. A line of [uniq -c], a count in decimal digits, white space
    and a path that does not begin with white space and holds no line
    terminator, matches the expression of [getGitChurn] with the digits
    as first and the whole path as second group. *)
Theorem matchCountLine_count_and_path (d : ascii) (digits : string)
        (w : ascii) (spaces : string) (p : ascii) (path : string) :
  allChars JS.isDigit (String d digits) = true ->
  allChars JS.isSpace (String w spaces) = true ->
  JS.isSpace p = false ->
  allChars isDot (String p path) = true ->
  matchCountLine (String d digits ++ String w spaces ++ String p path)
  = Some (String d digits, String p path).
Proof.
  intros Hd Hw Hp Hdot.
  simpl in Hd, Hw, Hdot.
  apply andb_true_iff in Hd. destruct Hd as [Hd Hdigits].
  apply andb_true_iff in Hw. destruct Hw as [Hw Hspaces].
  apply andb_true_iff in Hdot. destruct Hdot as [Hp' Hpath].
  unfold matchCountLine.
  set (line := (String d digits ++ String w spaces ++ String p path)).
  change line with (String d (digits ++ String w spaces ++ String p path))
    at 1.
  apply run_Plus_class; [exact Hd|].
  change (String w spaces ++ String p path)
    with (String w (spaces ++ String p path)).
  rewrite (dropWhile_app _ _ _ _ Hdigits (isSpace_not_digit _ Hw)).
  apply run_Plus_class; [exact Hw|].
  rewrite (dropWhile_app _ _ _ _ Hspaces Hp).
  change (run (Seq (Plus (Chr isDot)) Eos) (String p path) ?k)
    with (run (Plus (Chr isDot)) (String p path)
              (fun s' => run Eos s' k)).
  apply run_Plus_class; [exact Hp'|].
  rewrite (dropWhile_all _ _ Hpath).
  cbn [run]. f_equal. f_equal.
  unfold line.
  change (String w (spaces ++ String p path))
    with (String w spaces ++ String p path).
  rewrite string_app_length.
  replace (String.length (String d digits)
           + String.length (String w spaces ++ String p path)
           - String.length (String w spaces ++ String p path))%nat
    with (String.length (String d digits)) by lia.
  apply substring0_app.
Qed.

Lemma matchCountLine_count_and_path_witness :
  matchCountLine "12  src/my file.ts" = Some ("12", "src/my file.ts").
Proof.
  apply (matchCountLine_count_and_path "1" "2" " " " " "s"
                                       "rc/my file.ts");
    reflexivity.
Defined.



Lemma splitSpaces_nonempty (b : bool) (s : string) :
  splitSpaces b s <> [].
Proof.
  revert b. induction s as [|c s IH]; intros b; simpl; [discriminate|].
  destruct (JS.isSpace c).
  - destruct b; [apply IH | discriminate].
  - destruct (splitSpaces false s); discriminate.
Qed.





Lemma allChars_app (p : ascii -> bool) (a b : string) :
  allChars p (a ++ b) = allChars p a && allChars p b.
Proof.
  induction a as [|c a IH]; simpl; [reflexivity|].
  now rewrite IH, andb_assoc.
Qed.













